(** * WD2793 floppy disk controller: a shallow embedding and its properties

    The definitions below follow [WD2793.cc] of openMSX function by
    function.  The controller is a C++ object that mutates its own
    registers, calls into a [DiskDrive] backend (which may throw
    [MSXException]) and registers callbacks with the scheduler.  It is
    embedded as a state-and-exception monad over a [World] made of the
    chip registers, the drive and the pending sync points of the chip. *)

From Stdlib Require Import ZArith List Bool Lia.
Import ListNotations.
Local Open Scope Z_scope.

(** ** Bytes, times and bit flags *)

(** [byte] is [unsigned char]; it is carried by [Z] and every operation
    that can leave the range [0, 256) has its wrap-around written out. *)
Definition byte : Type := Z.

(** [EmuTime] is the 64-bit master tick count; only its order and the
    clock helpers below are used. *)
Definition EmuTime : Type := Z.

Definition wrap8 (x : Z) : byte := x mod 256.

(** [x & m] used as a C++ condition. *)
Definition test (x m : Z) : bool := negb (Z.land x m =? 0).

(** [x &= ~m] and [x |= m] on a byte; with [0 <= m < 256] both stay in
    the byte range (see [clear_range] and [set_range]). *)
Definition clear (x m : Z) : byte := Z.land x (Z.lnot m).
Definition set (x m : Z) : byte := Z.lor x m.

(** Status register *)
Definition BUSY             : Z := 0x01.
Definition INDEX            : Z := 0x02.
Definition S_DRQ            : Z := 0x02.
Definition TRACK00          : Z := 0x04.
Definition LOST_DATA        : Z := 0x04.
Definition CRC_ERROR        : Z := 0x08.
Definition SEEK_ERROR       : Z := 0x10.
Definition RECORD_NOT_FOUND : Z := 0x10.
Definition HEAD_LOADED      : Z := 0x20.
Definition RECORD_TYPE      : Z := 0x20.
Definition WRITE_PROTECTED  : Z := 0x40.
Definition NOT_READY        : Z := 0x80.

(** Command register *)
Definition STEP_SPEED : Z := 0x03.
Definition V_FLAG     : Z := 0x04.
Definition E_FLAG     : Z := 0x04.
Definition H_FLAG     : Z := 0x08.
Definition T_FLAG     : Z := 0x10.
Definition M_FLAG     : Z := 0x10.
Definition N2R_IRQ    : Z := 0x01.
Definition R2N_IRQ    : Z := 0x02.
Definition IDX_IRQ    : Z := 0x04.
Definition IMM_IRQ    : Z := 0x08.

(** Sync point types *)
Inductive SyncPointType : Type := SCHED_FSM | SCHED_IDX_IRQ.

Definition SyncPointType_eqb (a b : SyncPointType) : bool :=
  match a, b with
  | SCHED_FSM, SCHED_FSM => true
  | SCHED_IDX_IRQ, SCHED_IDX_IRQ => true
  | _, _ => false
  end.

Inductive FSMState : Type :=
  | FSM_NONE
  | FSM_SEEK
  | FSM_TYPE2_WAIT_LOAD
  | FSM_TYPE2_LOADED
  | FSM_TYPE2_ROTATED
  | FSM_TYPE3_WAIT_LOAD
  | FSM_TYPE3_LOADED
  | FSM_IDX_IRQ.

(** ** The register file *)

Record WD2793 : Type := mkWD2793 {
  commandStart : EmuTime;
  DRQTimer : EmuTime;
  fsmState : FSMState;
  statusReg : byte;
  commandReg : byte;
  sectorReg : byte;
  trackReg : byte;
  dataReg : byte;
  directionIn : bool;
  INTRQ : bool;
  immediateIRQ : bool;
  DRQ : bool;
  transferring : bool;
  formatting : bool;
  dataBuffer : list byte;
  dataCurrent : Z;
  dataAvailable : Z
}.

Definition set_commandStart (v : EmuTime) (c : WD2793) : WD2793 :=
  mkWD2793 v (DRQTimer c) (fsmState c) (statusReg c) (commandReg c)
    (sectorReg c) (trackReg c) (dataReg c) (directionIn c) (INTRQ c)
    (immediateIRQ c) (DRQ c) (transferring c) (formatting c) (dataBuffer c)
    (dataCurrent c) (dataAvailable c).

Definition set_DRQTimer (v : EmuTime) (c : WD2793) : WD2793 :=
  mkWD2793 (commandStart c) v (fsmState c) (statusReg c) (commandReg c)
    (sectorReg c) (trackReg c) (dataReg c) (directionIn c) (INTRQ c)
    (immediateIRQ c) (DRQ c) (transferring c) (formatting c) (dataBuffer c)
    (dataCurrent c) (dataAvailable c).

Definition set_fsmState (v : FSMState) (c : WD2793) : WD2793 :=
  mkWD2793 (commandStart c) (DRQTimer c) v (statusReg c) (commandReg c)
    (sectorReg c) (trackReg c) (dataReg c) (directionIn c) (INTRQ c)
    (immediateIRQ c) (DRQ c) (transferring c) (formatting c) (dataBuffer c)
    (dataCurrent c) (dataAvailable c).

Definition set_statusReg (v : byte) (c : WD2793) : WD2793 :=
  mkWD2793 (commandStart c) (DRQTimer c) (fsmState c) v (commandReg c)
    (sectorReg c) (trackReg c) (dataReg c) (directionIn c) (INTRQ c)
    (immediateIRQ c) (DRQ c) (transferring c) (formatting c) (dataBuffer c)
    (dataCurrent c) (dataAvailable c).

Definition set_commandReg (v : byte) (c : WD2793) : WD2793 :=
  mkWD2793 (commandStart c) (DRQTimer c) (fsmState c) (statusReg c) v
    (sectorReg c) (trackReg c) (dataReg c) (directionIn c) (INTRQ c)
    (immediateIRQ c) (DRQ c) (transferring c) (formatting c) (dataBuffer c)
    (dataCurrent c) (dataAvailable c).

Definition set_sectorReg (v : byte) (c : WD2793) : WD2793 :=
  mkWD2793 (commandStart c) (DRQTimer c) (fsmState c) (statusReg c)
    (commandReg c) v (trackReg c) (dataReg c) (directionIn c) (INTRQ c)
    (immediateIRQ c) (DRQ c) (transferring c) (formatting c) (dataBuffer c)
    (dataCurrent c) (dataAvailable c).

Definition set_trackReg (v : byte) (c : WD2793) : WD2793 :=
  mkWD2793 (commandStart c) (DRQTimer c) (fsmState c) (statusReg c)
    (commandReg c) (sectorReg c) v (dataReg c) (directionIn c) (INTRQ c)
    (immediateIRQ c) (DRQ c) (transferring c) (formatting c) (dataBuffer c)
    (dataCurrent c) (dataAvailable c).

Definition set_dataReg (v : byte) (c : WD2793) : WD2793 :=
  mkWD2793 (commandStart c) (DRQTimer c) (fsmState c) (statusReg c)
    (commandReg c) (sectorReg c) (trackReg c) v (directionIn c) (INTRQ c)
    (immediateIRQ c) (DRQ c) (transferring c) (formatting c) (dataBuffer c)
    (dataCurrent c) (dataAvailable c).

Definition set_directionIn (v : bool) (c : WD2793) : WD2793 :=
  mkWD2793 (commandStart c) (DRQTimer c) (fsmState c) (statusReg c)
    (commandReg c) (sectorReg c) (trackReg c) (dataReg c) v (INTRQ c)
    (immediateIRQ c) (DRQ c) (transferring c) (formatting c) (dataBuffer c)
    (dataCurrent c) (dataAvailable c).

Definition set_INTRQ (v : bool) (c : WD2793) : WD2793 :=
  mkWD2793 (commandStart c) (DRQTimer c) (fsmState c) (statusReg c)
    (commandReg c) (sectorReg c) (trackReg c) (dataReg c) (directionIn c) v
    (immediateIRQ c) (DRQ c) (transferring c) (formatting c) (dataBuffer c)
    (dataCurrent c) (dataAvailable c).

Definition set_immediateIRQ (v : bool) (c : WD2793) : WD2793 :=
  mkWD2793 (commandStart c) (DRQTimer c) (fsmState c) (statusReg c)
    (commandReg c) (sectorReg c) (trackReg c) (dataReg c) (directionIn c)
    (INTRQ c) v (DRQ c) (transferring c) (formatting c) (dataBuffer c)
    (dataCurrent c) (dataAvailable c).

Definition set_DRQ (v : bool) (c : WD2793) : WD2793 :=
  mkWD2793 (commandStart c) (DRQTimer c) (fsmState c) (statusReg c)
    (commandReg c) (sectorReg c) (trackReg c) (dataReg c) (directionIn c)
    (INTRQ c) (immediateIRQ c) v (transferring c) (formatting c)
    (dataBuffer c) (dataCurrent c) (dataAvailable c).

Definition set_transferring (v : bool) (c : WD2793) : WD2793 :=
  mkWD2793 (commandStart c) (DRQTimer c) (fsmState c) (statusReg c)
    (commandReg c) (sectorReg c) (trackReg c) (dataReg c) (directionIn c)
    (INTRQ c) (immediateIRQ c) (DRQ c) v (formatting c) (dataBuffer c)
    (dataCurrent c) (dataAvailable c).

Definition set_formatting (v : bool) (c : WD2793) : WD2793 :=
  mkWD2793 (commandStart c) (DRQTimer c) (fsmState c) (statusReg c)
    (commandReg c) (sectorReg c) (trackReg c) (dataReg c) (directionIn c)
    (INTRQ c) (immediateIRQ c) (DRQ c) (transferring c) v (dataBuffer c)
    (dataCurrent c) (dataAvailable c).

Definition set_dataBuffer (v : list byte) (c : WD2793) : WD2793 :=
  mkWD2793 (commandStart c) (DRQTimer c) (fsmState c) (statusReg c)
    (commandReg c) (sectorReg c) (trackReg c) (dataReg c) (directionIn c)
    (INTRQ c) (immediateIRQ c) (DRQ c) (transferring c) (formatting c) v
    (dataCurrent c) (dataAvailable c).

Definition set_dataCurrent (v : Z) (c : WD2793) : WD2793 :=
  mkWD2793 (commandStart c) (DRQTimer c) (fsmState c) (statusReg c)
    (commandReg c) (sectorReg c) (trackReg c) (dataReg c) (directionIn c)
    (INTRQ c) (immediateIRQ c) (DRQ c) (transferring c) (formatting c)
    (dataBuffer c) v (dataAvailable c).

Definition set_dataAvailable (v : Z) (c : WD2793) : WD2793 :=
  mkWD2793 (commandStart c) (DRQTimer c) (fsmState c) (statusReg c)
    (commandReg c) (sectorReg c) (trackReg c) (dataReg c) (directionIn c)
    (INTRQ c) (immediateIRQ c) (DRQ c) (transferring c) (formatting c)
    (dataBuffer c) (dataCurrent c) v.

(** ** Collaborators that live outside [WD2793.cc] *)

(** What [drive.read] and [drive.write] report through their reference
    parameters. *)
Record SectorInfo : Type := mkSectorInfo {
  onDiskTrack : byte;
  onDiskSector : byte;
  onDiskSide : byte;
  onDiskSize : Z
}.

(** The [DiskDrive] interface, as the controller calls it; [DiskDrive.hh]
    is not among the sources, so the backend is a parameter.  Observers
    are functions of the drive state; the calls that act on the drive
    return the new drive state.  [read] is handed the controller's
    buffer and returns it as the backend left it; [None] in a result
    stands for a thrown [MSXException].  [RAWTRACK_SIZE] is the constant
    [Disk::RAWTRACK_SIZE], the size of the controller's [dataBuffer]. *)
Class DiskDrive (D : Type) : Type := {
  RAWTRACK_SIZE : Z;
  isDiskInserted : D -> bool;
  isWriteProtected : D -> bool;
  isTrack00 : D -> bool;
  headLoaded : D -> EmuTime -> bool;
  indexPulse : D -> EmuTime -> bool;
  indexPulseCount : D -> EmuTime -> EmuTime -> Z;
  getTimeTillIndexPulse : D -> EmuTime -> EmuTime;
  getTimeTillSector : D -> byte -> EmuTime -> EmuTime;
  setHeadLoaded : bool -> EmuTime -> D -> D;
  drive_step : bool -> EmuTime -> D -> D;
  read : byte -> list byte -> D -> D * list byte * option SectorInfo;
  write : byte -> list byte -> D -> D * option SectorInfo;
  writeTrackData : list byte -> D -> D * option unit
}.

(** The [Clock] helpers the controller uses, parameters as well:
    [plus_ms time n] is [Clock<1000> next(time); next += n;
    next.getTime()], the other two are the operations on [DRQTimer],
    a clock that is carried by the time of its last tick. *)
Class Clocks : Type := {
  plus_ms : EmuTime -> Z -> EmuTime;
  getTicksTill : EmuTime -> EmuTime -> Z;
  advance : EmuTime -> EmuTime -> EmuTime
}.

(** A pending callback of this controller: fire time and tag. *)
Record SyncPoint : Type := mkSyncPoint {
  sp_time : EmuTime;
  sp_tag : SyncPointType
}.

Definition SyncPoint_eqb (a b : SyncPoint) : bool :=
  (sp_time a =? sp_time b) && SyncPointType_eqb (sp_tag a) (sp_tag b).

(** ** The monad: state that survives a throw *)

(** The ways a method can stop short.  [assert] is taken as checked. *)
Inductive Fault : Type :=
  | MSXException        (* thrown by the backend *)
  | AssertionFailed     (* a failing [assert] *)
  | UnreachableReached  (* [UNREACHABLE] *)
  | BufferOverrun       (* [dataBuffer] indexed outside its bounds *)
  | SyncPointClash.     (* [setSyncPoint] on a tag that is pending *)

Inductive Outcome (A : Type) : Type :=
  | Done (a : A)
  | Thrown (f : Fault).
Arguments Done {A} a.
Arguments Thrown {A} f.

Section Controller.

Context {D : Type} {drv : DiskDrive D} {clk : Clocks}.

(** What a method of the controller can reach: its own members, the
    drive it was constructed on, and its sync points in the scheduler. *)
Record World : Type := mkWorld {
  chip : WD2793;
  drive : D;
  syncPoints : list SyncPoint
}.

Definition M (A : Type) : Type := World -> Outcome A * World.

Definition ret {A} (a : A) : M A := fun w => (Done a, w).

Definition bind {A B} (c : M A) (k : A -> M B) : M B :=
  fun w =>
    match c w with
    | (Done a, w') => k a w'
    | (Thrown f, w') => (Thrown f, w')
    end.

Definition throw {A} (f : Fault) : M A := fun w => (Thrown f, w).

(** [try { body } catch (MSXException&) { handler }]: whatever the body
    did to the state before throwing stays done. *)
Definition try_catch {A} (body handler : M A) : M A :=
  fun w =>
    match body w with
    | (Thrown MSXException, w') => handler w'
    | r => r
    end.

Definition assert (b : bool) : M unit :=
  if b then ret tt else throw AssertionFailed.

Definition get {A} (f : WD2793 -> A) : M A := fun w => (Done (f (chip w)), w).

Definition modify (f : WD2793 -> WD2793) : M unit :=
  fun w => (Done tt, mkWorld (f (chip w)) (drive w) (syncPoints w)).

Definition ask {A} (f : D -> A) : M A := fun w => (Done (f (drive w)), w).

Definition act (f : D -> D) : M unit :=
  fun w => (Done tt, mkWorld (chip w) (f (drive w)) (syncPoints w)).

Definition when (b : bool) (c : M unit) : M unit := if b then c else ret tt.

End Controller.

Arguments World D : clear implicits.
Arguments M D A : clear implicits.

Declare Scope wd_scope.
Delimit Scope wd_scope with wd.
Notation "x <- c ;; k" := (bind c (fun x => k))
  (at level 61, c at next level, right associativity) : wd_scope.
Notation "c ;; k" := (bind c (fun _ => k))
  (at level 61, right associativity) : wd_scope.
Local Open Scope wd_scope.

(** [switch (x) { case a: case b: ... }] as a membership test. *)
Definition one_of (x : Z) (cases : list Z) : bool := existsb (Z.eqb x) cases.

Section Chip.

Context {D : Type} {drv : DiskDrive D} {clk : Clocks}.

Abbreviation M := (M D).

(** ** The scheduler, seen from one Schedulable *)

(** Modelled from the spec: [Scheduler] and [Schedulable] are not among
    the sources.  Cancelling takes the pending entry with this tag off
    the queue. *)
Fixpoint remove_tag (tag : SyncPointType) (l : list SyncPoint) : list SyncPoint :=
  match l with
  | [] => []
  | sp :: r =>
      if SyncPointType_eqb (sp_tag sp) tag then r else sp :: remove_tag tag r
  end.

(** Modelled from the spec: [removeSyncPoint] cancels a pending
    callback and is a no-op if none is pending. *)
Definition removeSyncPoint (tag : SyncPointType) : M unit :=
  fun w => (Done tt, mkWorld (chip w) (drive w) (remove_tag tag (syncPoints w))).

(** Modelled from the spec: whether a callback with this tag is
    outstanding. *)
Definition pending (tag : SyncPointType) (l : list SyncPoint) : bool :=
  existsb (fun sp => SyncPointType_eqb (sp_tag sp) tag) l.

(** Modelled from the spec: [pendingSyncPoint] observes whether a
    callback is outstanding. *)
Definition pendingSyncPoint (tag : SyncPointType) : M bool :=
  fun w => (Done (pending tag (syncPoints w)), w).

(** Modelled from the spec: [setSyncPoint] registers a future callback
    and fails, as a contract violation, if the tag already has a pending
    entry.  Entries are kept in registration order. *)
Definition setSyncPoint (time : EmuTime) (tag : SyncPointType) : M unit :=
  fun w =>
    if pending tag (syncPoints w) then (Thrown SyncPointClash, w)
    else (Done tt,
          mkWorld (chip w) (drive w) (syncPoints w ++ [mkSyncPoint time tag])).

(** ** Access to [dataBuffer] *)

(** [dataBuffer[i]], read; an index outside the array is a fault. *)
Definition buffer_get (i : Z) : M byte :=
  fun w =>
    if i <? 0 then (Thrown BufferOverrun, w)
    else match nth_error (dataBuffer (chip w)) (Z.to_nat i) with
         | Some b => (Done b, w)
         | None => (Thrown BufferOverrun, w)
         end.

Fixpoint list_put {A} (n : nat) (v : A) (l : list A) : list A :=
  match l, n with
  | [], _ => []
  | _ :: r, O => v :: r
  | x :: r, S m => x :: list_put m v r
  end.

(** [dataBuffer[i] = v] *)
Definition buffer_put (i : Z) (v : byte) : M unit :=
  fun w =>
    if (i <? 0) || (Z.of_nat (length (dataBuffer (chip w))) <=? i)
    then (Thrown BufferOverrun, w)
    else modify (fun c => set_dataBuffer (list_put (Z.to_nat i) v (dataBuffer c)) c) w.

(** [memset(dataBuffer, 0, n)] *)
Definition zero_prefix (n : Z) (l : list byte) : list byte :=
  repeat 0 (Nat.min (Z.to_nat n) (length l)) ++ skipn (Z.to_nat n) l.

(** ** Calls into the backend *)

(** [drive.read(sector, dataBuffer, onDiskTrack, ...)] and its siblings:
    the backend's answer becomes a return or a throw. *)
Definition drive_read (sector : byte) : M SectorInfo :=
  fun w =>
    match read sector (dataBuffer (chip w)) (drive w) with
    | (d, buf, Some info) =>
        (Done info, mkWorld (set_dataBuffer buf (chip w)) d (syncPoints w))
    | (d, buf, None) =>
        (Thrown MSXException,
         mkWorld (set_dataBuffer buf (chip w)) d (syncPoints w))
    end.

Definition drive_write (sector : byte) : M SectorInfo :=
  fun w =>
    match write sector (dataBuffer (chip w)) (drive w) with
    | (d, Some info) => (Done info, mkWorld (chip w) d (syncPoints w))
    | (d, None) => (Thrown MSXException, mkWorld (chip w) d (syncPoints w))
    end.

Definition drive_writeTrackData : M unit :=
  fun w =>
    match writeTrackData (dataBuffer (chip w)) (drive w) with
    | (d, Some _) => (Done tt, mkWorld (chip w) d (syncPoints w))
    | (d, None) => (Thrown MSXException, mkWorld (chip w) d (syncPoints w))
    end.

(** ** WD2793.cc *)

(** The methods in the order that lets each one call those it needs;
    [PRT_DEBUG] output is left out. *)
Definition setIRQ : M unit := modify (set_INTRQ true).

Definition resetIRQ : M unit := modify (set_INTRQ false).

Definition setDRQ (drq : bool) (time : EmuTime) : M unit :=
  modify (set_DRQ drq) ;;
  modify (fun c => set_DRQTimer (advance (DRQTimer c) time) c).

Definition endCmd : M unit :=
  setIRQ ;;
  modify (fun c => set_statusReg (clear (statusReg c) BUSY) c).

Definition endWriteTrackCmd : M unit :=
  try_catch drive_writeTrackData (ret tt) ;;
  modify (set_dataAvailable 0) ;;
  modify (set_dataCurrent 0) ;;
  modify (set_DRQ false) ;;
  modify (set_formatting false) ;;
  endCmd.

Definition getDTRQ (time : EmuTime) : M bool :=
  c <- get (fun c => c) ;;
  (if (Z.land (commandReg c) 0xC0 =? 0x80) && test (statusReg c) BUSY then
     (* read/write sector cmd busy *)
     when (transferring c)
       (when (15 <=? getTicksTill (DRQTimer c) time) (modify (set_DRQ true)))
   else if (Z.land (commandReg c) 0xF0 =? 0xF0) && test (statusReg c) BUSY then
     (* WRITE TRACK cmd busy *)
     n <- ask (fun d => indexPulseCount d (commandStart c) time) ;;
     if n =? 0 then ret tt
     else if n =? 1 then
       when (16 <=? getTicksTill (DRQTimer c) time) (modify (set_DRQ true))
     else endWriteTrackCmd
   else ret tt) ;;
  get DRQ.

Definition peekDTRQ (time : EmuTime) : M bool := get DRQ.

Definition getIRQ (time : EmuTime) : M bool :=
  get (fun c => INTRQ c || immediateIRQ c).

Definition peekIRQ (time : EmuTime) : M bool := getIRQ time.

Definition getStatusReg (time : EmuTime) : M byte :=
  c <- get (fun c => c) ;;
  (if (Z.land (commandReg c) 0x80 =? 0) || (Z.land (commandReg c) 0xF0 =? 0xD0)
   then
     (* Type I or type IV command *)
     modify (fun c => set_statusReg
       (clear (statusReg c)
          (Z.lor (Z.lor (Z.lor INDEX TRACK00) HEAD_LOADED) WRITE_PROTECTED)) c) ;;
     b <- ask (fun d => indexPulse d time) ;;
     when b (modify (fun c => set_statusReg (set (statusReg c) INDEX) c)) ;;
     b <- ask isTrack00 ;;
     when b (modify (fun c => set_statusReg (set (statusReg c) TRACK00) c)) ;;
     b <- ask (fun d => headLoaded d time) ;;
     when b (modify (fun c => set_statusReg (set (statusReg c) HEAD_LOADED) c)) ;;
     b <- ask isWriteProtected ;;
     when b (modify (fun c => set_statusReg (set (statusReg c) WRITE_PROTECTED) c))
   else
     (* Not type I command so bit 1 should be DRQ *)
     b <- getDTRQ time ;;
     if b then modify (fun c => set_statusReg (set (statusReg c) S_DRQ) c)
     else modify (fun c => set_statusReg (clear (statusReg c) S_DRQ) c)) ;;
  b <- ask isDiskInserted ;;
  (if b then modify (fun c => set_statusReg (clear (statusReg c) NOT_READY) c)
   else modify (fun c => set_statusReg (set (statusReg c) NOT_READY) c)) ;;
  resetIRQ ;;
  get statusReg.

Definition peekStatusReg (time : EmuTime) : M byte := getStatusReg time.

Definition setTrackReg (value : byte) (time : EmuTime) : M unit :=
  modify (set_trackReg value).

Definition getTrackReg (time : EmuTime) : M byte := get trackReg.

Definition peekTrackReg (time : EmuTime) : M byte := getTrackReg time.

Definition setSectorReg (value : byte) (time : EmuTime) : M unit :=
  modify (set_sectorReg value).

Definition getSectorReg (time : EmuTime) : M byte := get sectorReg.

Definition peekSectorReg (time : EmuTime) : M byte := getSectorReg time.

Definition tryToReadSector : M unit :=
  try_catch
    (s <- get sectorReg ;;
     info <- drive_read s ;;
     t <- get trackReg ;;
     if negb (onDiskTrack info =? t) then
       modify (fun c => set_statusReg (set (statusReg c) RECORD_NOT_FOUND) c) ;;
       endCmd
     else
       assert (onDiskSize info =? 512) ;;
       modify (set_dataCurrent 0) ;;
       modify (set_dataAvailable (onDiskSize info)) ;;
       modify (set_DRQ false) ;;
       modify (set_transferring true))
    (modify (set_DRQ false) ;;
     modify (set_statusReg 0)).

Definition setDataReg (value : byte) (time : EmuTime) : M unit :=
  modify (set_dataReg value) ;;
  c <- get (fun c => c) ;;
  if (Z.land (commandReg c) 0xE0 =? 0xA0) && test (statusReg c) BUSY then
    (* WRITE SECTOR *)
    buffer_put (dataCurrent c) value ;;
    modify (fun c => set_dataCurrent (dataCurrent c + 1) c) ;;
    modify (fun c => set_dataAvailable (dataAvailable c - 1) c) ;;
    setDRQ false time ;;
    a <- get dataAvailable ;;
    when (a =? 0)
      (modify (set_transferring false) ;;
       try_catch
         (modify (set_dataCurrent 0) ;;
          s <- get sectorReg ;;
          info <- drive_write s ;;
          modify (set_dataAvailable (onDiskSize info)) ;;
          t <- get trackReg ;;
          if negb (onDiskTrack info =? t) then
            modify (fun c => set_statusReg (set (statusReg c) RECORD_NOT_FOUND) c) ;;
            endCmd
          else
            assert (onDiskSize info =? 512) ;;
            cmd <- get commandReg ;;
            if negb (test cmd M_FLAG) then endCmd else endCmd)
         (modify (fun c => set_statusReg (set (statusReg c) RECORD_NOT_FOUND) c) ;;
          endCmd))
  else if (Z.land (commandReg c) 0xF0 =? 0xF0) && test (statusReg c) BUSY then
    (* WRITE TRACK *)
    if negb (formatting c) then ret tt
    else
      setDRQ false time ;;
      n <- ask (fun d => indexPulseCount d (commandStart c) time) ;;
      if n =? 0 then ret tt
      else if n =? 1 then
        cur <- get dataCurrent ;;
        assert (cur <? RAWTRACK_SIZE) ;;
        buffer_put cur value ;;
        modify (set_dataCurrent (cur + 1))
      else endWriteTrackCmd
  else ret tt.

Definition getDataReg (time : EmuTime) : M byte :=
  c <- get (fun c => c) ;;
  (if (Z.land (commandReg c) 0xE0 =? 0x80) && test (statusReg c) BUSY then
     (* READ SECTOR *)
     b <- buffer_get (dataCurrent c) ;;
     modify (set_dataReg b) ;;
     modify (fun c => set_dataCurrent (dataCurrent c + 1) c) ;;
     modify (fun c => set_dataAvailable (dataAvailable c - 1) c) ;;
     setDRQ false time ;;
     a <- get dataAvailable ;;
     when (a =? 0)
       (modify (set_transferring false) ;;
        cmd <- get commandReg ;;
        if negb (test cmd M_FLAG) then endCmd
        else
          modify (fun c => set_sectorReg (wrap8 (sectorReg c + 1)) c) ;;
          tryToReadSector)
   else ret tt) ;;
  get dataReg.

Definition peekDataReg (time : EmuTime) : M byte :=
  c <- get (fun c => c) ;;
  if (Z.land (commandReg c) 0xE0 =? 0x80) && test (statusReg c) BUSY then
    buffer_get (dataCurrent c)
  else ret (dataReg c).

Definition schedule (state : FSMState) (time : EmuTime) : M unit :=
  p <- pendingSyncPoint SCHED_FSM ;;
  assert (negb p) ;;
  modify (set_fsmState state) ;;
  setSyncPoint time SCHED_FSM.

Definition endType1Cmd : M unit :=
  (* the verify sequence of V_FLAG is a TODO in the source *)
  endCmd.

Definition timePerStep : list Z := [6; 12; 20; 30].

Definition step (time : EmuTime) : M unit :=
  c <- get (fun c => c) ;;
  when (test (commandReg c) T_FLAG || (Z.land (commandReg c) 0xE0 =? 0x00))
    (* Restore or seek  or  T_FLAG *)
    (if directionIn c then modify (fun c => set_trackReg (wrap8 (trackReg c + 1)) c)
     else modify (fun c => set_trackReg (wrap8 (trackReg c - 1)) c)) ;;
  t0 <- ask isTrack00 ;;
  if negb (directionIn c) && t0 then
    modify (set_trackReg 0) ;;
    endType1Cmd
  else
    act (drive_step (directionIn c) time) ;;
    schedule FSM_SEEK
      (plus_ms time (nth (Z.to_nat (Z.land (commandReg c) STEP_SPEED)) timePerStep 0)).

Definition seek (time : EmuTime) : M unit :=
  c <- get (fun c => c) ;;
  if trackReg c =? dataReg c then endType1Cmd
  else
    modify (set_directionIn (trackReg c <? dataReg c)) ;;
    step time.

Definition seekNext (time : EmuTime) : M unit :=
  cmd <- get commandReg ;;
  if Z.land cmd 0xE0 =? 0x00 then seek time else endType1Cmd.

Definition startType1Cmd (time : EmuTime) : M unit :=
  modify (fun c => set_statusReg (clear (statusReg c) (Z.lor SEEK_ERROR CRC_ERROR)) c) ;;
  modify (fun c => set_statusReg (set (statusReg c) BUSY) c) ;;
  setDRQ false time ;;
  cmd <- get commandReg ;;
  act (setHeadLoaded (test cmd H_FLAG) time) ;;
  let hi := Z.land cmd 0xF0 in
  if hi =? 0x00 then
    modify (set_trackReg 0xFF) ;;
    modify (set_dataReg 0x00) ;;
    seek time
  else if hi =? 0x10 then seek time
  else if one_of hi [0x20; 0x30] then step time
  else if one_of hi [0x40; 0x50] then
    modify (set_directionIn true) ;;
    step time
  else if one_of hi [0x60; 0x70] then
    modify (set_directionIn false) ;;
    step time
  else ret tt.

Definition type2WaitLoad (time : EmuTime) : M unit :=
  schedule FSM_TYPE2_LOADED (plus_ms time 1).

Definition startType2Cmd (time : EmuTime) : M unit :=
  modify (fun c => set_statusReg
    (clear (statusReg c)
       (Z.lor (Z.lor (Z.lor LOST_DATA RECORD_NOT_FOUND) RECORD_TYPE) WRITE_PROTECTED)) c) ;;
  modify (fun c => set_statusReg (set (statusReg c) BUSY) c) ;;
  setDRQ false time ;;
  ins <- ask isDiskInserted ;;
  if negb ins then endCmd
  else
    act (setHeadLoaded true time) ;;
    cmd <- get commandReg ;;
    if test cmd E_FLAG then schedule FSM_TYPE2_WAIT_LOAD (plus_ms time 30)
    else type2WaitLoad time.

Definition type2Loaded (time : EmuTime) : M unit :=
  cmd <- get commandReg ;;
  wp <- ask isWriteProtected ;;
  if (Z.land cmd 0xE0 =? 0xA0) && wp then
    (* write command and write protected *)
    modify (fun c => set_statusReg (set (statusReg c) WRITE_PROTECTED) c) ;;
    endCmd
  else
    s <- get sectorReg ;;
    next <- ask (fun d => getTimeTillSector d s time) ;;
    schedule FSM_TYPE2_ROTATED next.

Definition type2Rotated : M unit :=
  cmd <- get commandReg ;;
  let hi := Z.land cmd 0xF0 in
  if one_of hi [0x80; 0x90] then tryToReadSector
  else if one_of hi [0xA0; 0xB0] then
    modify (set_dataCurrent 0) ;;
    modify (set_dataAvailable 512) ;;
    modify (set_DRQ true) ;;
    modify (set_transferring true)
  else ret tt.

Definition type3WaitLoad (time : EmuTime) : M unit :=
  schedule FSM_TYPE3_LOADED (plus_ms time 1).

Definition startType3Cmd (time : EmuTime) : M unit :=
  modify (fun c => set_statusReg
    (clear (statusReg c) (Z.lor (Z.lor LOST_DATA RECORD_NOT_FOUND) RECORD_TYPE)) c) ;;
  modify (fun c => set_statusReg (set (statusReg c) BUSY) c) ;;
  setDRQ false time ;;
  modify (set_commandStart time) ;;
  ins <- ask isDiskInserted ;;
  if negb ins then endCmd
  else
    act (setHeadLoaded true time) ;;
    cmd <- get commandReg ;;
    if test cmd E_FLAG then schedule FSM_TYPE3_WAIT_LOAD (plus_ms time 30)
    else type3WaitLoad time.

Definition readAddressCmd : M unit := endCmd.

Definition readTrackCmd : M unit := endCmd.

Definition writeTrackCmd (time : EmuTime) : M unit :=
  wp <- ask isWriteProtected ;;
  if wp then
    modify (fun c => set_statusReg (set (statusReg c) WRITE_PROTECTED) c) ;;
    endCmd
  else
    modify (set_formatting true) ;;
    modify (set_dataCurrent 0) ;;
    modify (fun c => set_dataBuffer (zero_prefix RAWTRACK_SIZE (dataBuffer c)) c) ;;
    setDRQ true time.

Definition type3Loaded (time : EmuTime) : M unit :=
  modify (set_commandStart time) ;;
  cmd <- get commandReg ;;
  let hi := Z.land cmd 0xF0 in
  if hi =? 0xC0 then readAddressCmd
  else if hi =? 0xE0 then readTrackCmd
  else if hi =? 0xF0 then writeTrackCmd time
  else ret tt.

(** The test on [N2R_IRQ | R2N_IRQ] only prints a debug message. *)
Definition startType4Cmd (time : EmuTime) : M unit :=
  (* Force interrupt *)
  cmd <- get commandReg ;;
  let flags := Z.land cmd 0x0F in
  when (flags =? 0x00) (modify (set_immediateIRQ false)) ;;
  ins <- ask isDiskInserted ;;
  (if test flags IDX_IRQ && ins then
     t <- ask (fun d => getTimeTillIndexPulse d time) ;;
     setSyncPoint t SCHED_IDX_IRQ
   else removeSyncPoint SCHED_IDX_IRQ) ;;
  when (test flags IMM_IRQ) (modify (set_immediateIRQ true)) ;;
  setDRQ false time ;;
  modify (fun c => set_statusReg (clear (statusReg c) BUSY) c).

Definition setCommandReg (value : byte) (time : EmuTime) : M unit :=
  removeSyncPoint SCHED_FSM ;;
  modify (set_commandReg value) ;;
  resetIRQ ;;
  modify (set_transferring false) ;;
  let hi := Z.land value 0xF0 in
  if one_of hi [0x00; 0x10; 0x20; 0x30; 0x40; 0x50; 0x60; 0x70] then
    startType1Cmd time
  else if one_of hi [0x80; 0x90; 0xA0; 0xB0] then startType2Cmd time
  else if one_of hi [0xC0; 0xE0; 0xF0] then startType3Cmd time
  else if hi =? 0xD0 then startType4Cmd time
  else ret tt.

(** [userData] is one of the two tags, so [assert(userData == SCHED_FSM)]
    holds by typing; [default: UNREACHABLE] covers the two states that
    are never scheduled. *)
Definition executeUntil (time : EmuTime) (userData : SyncPointType) : M unit :=
  match userData with
  | SCHED_IDX_IRQ => modify (set_INTRQ true)
  | SCHED_FSM =>
      state <- get fsmState ;;
      modify (set_fsmState FSM_NONE) ;;
      cmd <- get commandReg ;;
      match state with
      | FSM_SEEK =>
          when (Z.land cmd 0x80 =? 0x00) (seekNext time)
      | FSM_TYPE2_WAIT_LOAD =>
          when (Z.land cmd 0xC0 =? 0x80) (type2WaitLoad time)
      | FSM_TYPE2_LOADED =>
          when (Z.land cmd 0xC0 =? 0x80) (type2Loaded time)
      | FSM_TYPE2_ROTATED =>
          when (Z.land cmd 0xC0 =? 0x80) type2Rotated
      | FSM_TYPE3_WAIT_LOAD =>
          when ((Z.land cmd 0xC0 =? 0xC0) && negb (Z.land cmd 0xF0 =? 0xD0))
            (type3WaitLoad time)
      | FSM_TYPE3_LOADED =>
          when ((Z.land cmd 0xC0 =? 0xC0) && negb (Z.land cmd 0xF0 =? 0xD0))
            (type3Loaded time)
      | FSM_NONE | FSM_IDX_IRQ => throw UnreachableReached
      end
  end.

Definition reset (time : EmuTime) : M unit :=
  removeSyncPoint SCHED_FSM ;;
  removeSyncPoint SCHED_IDX_IRQ ;;
  modify (set_fsmState FSM_NONE) ;;
  modify (set_statusReg 0) ;;
  modify (set_trackReg 0) ;;
  modify (set_dataReg 0) ;;
  modify (set_directionIn true) ;;
  setDRQ false time ;;
  resetIRQ ;;
  modify (set_immediateIRQ false) ;;
  modify (set_formatting false) ;;
  modify (set_transferring false) ;;
  (* Execute Restore command *)
  modify (set_sectorReg 0x01) ;;
  setCommandReg 0x03 time.

(** The constructor's member initialisers and body up to [reset]:
    [commandStart(time)], [DRQTimer(time)], a zeroed buffer,
    [dataCurrent = 0], [dataAvailable = 0].  The members shown as 0,
    [false] or [FSM_NONE] are uninitialised at this point; [reset]
    assigns every one of them. *)
Definition members (d : D) (time : EmuTime) : World D :=
  mkWorld
    (mkWD2793 time time FSM_NONE 0 0 0 0 0 false false false false false false
       (repeat 0 (Z.to_nat RAWTRACK_SIZE)) 0 0)
    d [].

(** [WD2793::WD2793(scheduler, drive, time)] *)
Definition WD2793_new (d : D) (time : EmuTime) : Outcome unit * World D :=
  reset time (members d time).

(** ** The driving loop's [advanceTo] *)

(** Modelled from the spec: the scheduler's [advanceTo] is not among
    the sources.  Insertion into a queue sorted by fire time, before the
    entries that are not earlier, which keeps ties in registration
    order when the queue is built from the last registration back. *)
Fixpoint insert_by_time (sp : SyncPoint) (l : list SyncPoint) : list SyncPoint :=
  match l with
  | [] => [sp]
  | x :: r =>
      if sp_time sp <=? sp_time x then sp :: l else x :: insert_by_time sp r
  end.

(** Modelled from the spec: the SyncPoints whose fire time is [<= now],
    in increasing time order, ties in registration order. *)
Definition due (now : EmuTime) (l : list SyncPoint) : list SyncPoint :=
  fold_right insert_by_time [] (filter (fun sp => sp_time sp <=? now) l).

(** Modelled from the spec: a SyncPoint is destroyed by firing. *)
Fixpoint remove_one (sp : SyncPoint) (l : list SyncPoint) : list SyncPoint :=
  match l with
  | [] => []
  | x :: r => if SyncPoint_eqb x sp then r else x :: remove_one sp r
  end.

(** Modelled from the spec: firing invokes the owner's
    [executeUntil(fireTime, tag)]; a SyncPoint cancelled since the flush
    began does not fire. *)
Definition fire (sp : SyncPoint) : M unit :=
  fun w =>
    if existsb (SyncPoint_eqb sp) (syncPoints w) then
      executeUntil (sp_time sp) (sp_tag sp)
        (mkWorld (chip w) (drive w) (remove_one sp (syncPoints w)))
    else (Done tt, w).

(** Modelled from the spec: the flush, one SyncPoint after the other. *)
Fixpoint fire_all (l : list SyncPoint) : M unit :=
  match l with
  | [] => ret tt
  | sp :: r => fire sp ;; fire_all r
  end.

(** Modelled from the spec: [advanceTo(now)] fires every SyncPoint that
    is due when it is called; one registered by a callback is not part
    of the flush under way and waits for a later call. *)
Definition advanceTo (now : EmuTime) : M unit :=
  fun w => fire_all (due now (syncPoints w)) w.

End Chip.

(** * Specification vocabulary *)

Section Vocabulary.

Context {D : Type} {drv : DiskDrive D} {clk : Clocks}.

Abbreviation M := (M D).
Abbreviation World := (World D).

(** [post c w Q E]: run from [w], [c] either returns [a] in a state [w']
    with [Q a w'], or throws [f] in a state [w'] with [E f w']. *)
Definition post {A} (c : M A) (w : World)
  (Q : A -> World -> Prop) (E : Fault -> World -> Prop) : Prop :=
  match c w with
  | (Done a, w') => Q a w'
  | (Thrown f, w') => E f w'
  end.

(** Read the data register once per element of [times]. *)
Fixpoint readData (times : list EmuTime) : M (list byte) :=
  match times with
  | [] => ret []
  | t :: r =>
      b <- getDataReg t ;;
      bs <- readData r ;;
      ret (b :: bs)
  end.

(** Write the data register once per element of [writes]. *)
Fixpoint writeData (writes : list (byte * EmuTime)) : M unit :=
  match writes with
  | [] => ret tt
  | (v, t) :: r => setDataReg v t ;; writeData r
  end.

(** The FSM callbacks among the sync points. *)
Definition is_fsm (sp : SyncPoint) : bool := SyncPointType_eqb (sp_tag sp) SCHED_FSM.

Definition next_fsm_time (l : list SyncPoint) : option EmuTime :=
  option_map sp_time (find is_fsm l).

(** The driving loop letting the controller's scheduled delays elapse:
    one [advanceTo] per element of [late], to the time of the pending
    FSM callback or that many ticks past it; nothing is left to wait
    for once no FSM callback is pending. *)
Fixpoint settle (late : list nat) : M unit :=
  match late with
  | [] => ret tt
  | s :: r =>
      fun w =>
        match next_fsm_time (syncPoints w) with
        | None => (Done tt, w)
        | Some t => (advanceTo (t + Z.of_nat s) ;; settle r) w
        end
  end.

(** At most one FSM callback is outstanding. *)
Definition one_fsm (w : World) : Prop :=
  pending SCHED_FSM (remove_tag SCHED_FSM (syncPoints w)) = false.

Definition fsm_at (t : EmuTime) : SyncPoint := mkSyncPoint t SCHED_FSM.

(** The world in which the scheduler calls back: the callback's own
    sync point has been taken off the queue. *)
Definition fired (w : World) (t : EmuTime) : World :=
  mkWorld (chip w) (drive w) (remove_one (fsm_at t) (syncPoints w)).

(** No fault is acceptable. *)
Definition never : Fault -> World -> Prop := fun _ _ => False.

(** A property of worlds that an index-pulse callback cannot disturb. *)
Definition idx_stable (P : World -> Prop) : Prop :=
  forall w sp, is_fsm sp = false -> P w ->
    P (mkWorld (set_INTRQ true (chip w)) (drive w) (remove_one sp (syncPoints w))).

(** A type II command waiting for its next FSM callback at time [t]. *)
Definition Type2Wait (cmd tr sec : byte) (buf : list byte) (d : D)
  (st : FSMState) (t : EmuTime) (w : World) : Prop :=
  commandReg (chip w) = cmd /\
  test (statusReg (chip w)) BUSY = true /\
  fsmState (chip w) = st /\
  trackReg (chip w) = tr /\
  sectorReg (chip w) = sec /\
  dataBuffer (chip w) = buf /\
  drive w = d /\
  filter is_fsm (syncPoints w) = [fsm_at t].

(** A type II command in its transfer phase: [avail] bytes to go, the
    next one at index [cur]. *)
Definition Transfer (cmd tr sec : byte) (buf : list byte) (d : D)
  (cur avail : Z) (w : World) : Prop :=
  commandReg (chip w) = cmd /\
  test (statusReg (chip w)) BUSY = true /\
  trackReg (chip w) = tr /\
  sectorReg (chip w) = sec /\
  dataBuffer (chip w) = buf /\
  drive w = d /\
  dataCurrent (chip w) = cur /\
  dataAvailable (chip w) = avail /\
  filter is_fsm (syncPoints w) = [].

(** The command has ended: BUSY is clear and the interrupt is raised. *)
Definition Ended (w : World) : Prop :=
  test (statusReg (chip w)) BUSY = false /\ INTRQ (chip w) = true.


(** [c] never lets a backend exception out. *)
Definition contained {A} (c : M A) : Prop :=
  forall w, fst (c w) <> Thrown MSXException.

(** The operations the rest of the emulator performs on the controller. *)
Inductive Op : Type :=
  | OpReset (time : EmuTime)
  | OpSetCommandReg (value : byte) (time : EmuTime)
  | OpSetTrackReg (value : byte) (time : EmuTime)
  | OpSetSectorReg (value : byte) (time : EmuTime)
  | OpSetDataReg (value : byte) (time : EmuTime)
  | OpGetStatusReg (time : EmuTime)
  | OpGetTrackReg (time : EmuTime)
  | OpGetSectorReg (time : EmuTime)
  | OpGetDataReg (time : EmuTime)
  | OpGetDTRQ (time : EmuTime)
  | OpGetIRQ (time : EmuTime)
  | OpPeekStatusReg (time : EmuTime)
  | OpPeekTrackReg (time : EmuTime)
  | OpPeekSectorReg (time : EmuTime)
  | OpPeekDataReg (time : EmuTime)
  | OpPeekDTRQ (time : EmuTime)
  | OpPeekIRQ (time : EmuTime)
  | OpAdvanceTo (now : EmuTime).

Definition ignore {A} (c : M A) : M unit := c ;; ret tt.

Definition perform (op : Op) : M unit :=
  match op with
  | OpReset t => reset t
  | OpSetCommandReg v t => setCommandReg v t
  | OpSetTrackReg v t => setTrackReg v t
  | OpSetSectorReg v t => setSectorReg v t
  | OpSetDataReg v t => setDataReg v t
  | OpGetStatusReg t => ignore (getStatusReg t)
  | OpGetTrackReg t => ignore (getTrackReg t)
  | OpGetSectorReg t => ignore (getSectorReg t)
  | OpGetDataReg t => ignore (getDataReg t)
  | OpGetDTRQ t => ignore (getDTRQ t)
  | OpGetIRQ t => ignore (getIRQ t)
  | OpPeekStatusReg t => ignore (peekStatusReg t)
  | OpPeekTrackReg t => ignore (peekTrackReg t)
  | OpPeekSectorReg t => ignore (peekSectorReg t)
  | OpPeekDataReg t => ignore (peekDataReg t)
  | OpPeekDTRQ t => ignore (peekDTRQ t)
  | OpPeekIRQ t => ignore (peekIRQ t)
  | OpAdvanceTo now => advanceTo now
  end.

(** The states of a running controller: constructed (the body of
    [WD2793_new]), then driven by operations that return, while the
    backend may change on its own (media swapped, motor switched). *)
Inductive reachable : World -> Prop :=
  | reach_new (d : D) (time : EmuTime) (w : World) :
      reset time (members d time) = (Done tt, w) -> reachable w
  | reach_op (op : Op) (w w' : World) :
      reachable w -> perform op w = (Done tt, w') -> reachable w'
  | reach_drive (w : World) (d : D) :
      reachable w -> reachable (mkWorld (chip w) d (syncPoints w)).


(** The number of FSM callbacks in a queue. *)
Definition fsm_count (l : list SyncPoint) : nat := length (filter is_fsm l).

(** The scheduler contract for the FSM tag, as a count. *)
Definition FsmOnce (w : World) : Prop := (fsm_count (syncPoints w) <= 1)%nat.

End Vocabulary.

(** ** Phases of the commands *)

Section Phases.
Context {D : Type} {drv : DiskDrive D} {clk : Clocks}.
Abbreviation M := (M D).
Abbreviation World := (World D).

(** *** Type I *)

(** The delay between two steps of a type I command, in ms: the entry
    of [timePerStep] its two low bits select. *)
Definition step_delay (cmd : byte) : Z :=
  nth (Z.to_nat (Z.land cmd STEP_SPEED)) timePerStep 0.

(** What a Seek over [n] tracks does to the drive, the scheduler left
    out: one [drive.step] per track, [step_delay] apart, unless the drive
    reports track 0 while stepping out; the flag tells whether it did. *)
Fixpoint seek_walk (dirIn : bool) (cmd : byte) (n : nat) (t : EmuTime) (d : D)
  : D * bool :=
  match n with
  | O => (d, false)
  | S m =>
      if negb dirIn && isTrack00 d then (d, true)
      else seek_walk dirIn cmd m (plus_ms t (step_delay cmd)) (drive_step dirIn t d)
  end.

(** [n] steps in one direction, [delay] ms apart. *)
Fixpoint stepped (dirIn : bool) (delay : Z) (n : nat) (t : EmuTime) (d : D) : D :=
  match n with
  | O => d
  | S m => stepped dirIn delay m (plus_ms t delay) (drive_step dirIn t d)
  end.

(** A Seek between two steps: track register [k], target [target]. *)
Definition Seeking (cmd target k : byte) (d : D) (t : EmuTime) (w : World) : Prop :=
  commandReg (chip w) = cmd /\
  test (statusReg (chip w)) BUSY = true /\
  fsmState (chip w) = FSM_SEEK /\
  trackReg (chip w) = k /\
  dataReg (chip w) = target /\
  drive w = d /\
  filter is_fsm (syncPoints w) = [fsm_at t].

(** A type I command that has ended on track [k]. *)
Definition Sought (target k : byte) (d : D) (w : World) : Prop :=
  trackReg (chip w) = k /\
  dataReg (chip w) = target /\
  drive w = d /\
  test (statusReg (chip w)) BUSY = false /\
  INTRQ (chip w) = true /\
  filter is_fsm (syncPoints w) = [].

(** Where a Seek stands after one more look at the track register. *)
Definition SeekNext (cmd target k : byte) (d : D) (t : EmuTime) (w : World) : Prop :=
  if k =? target then Sought target target d w
  else if negb (k <? target) && isTrack00 d then Sought target 0 d w
  else Seeking cmd target (if k <? target then k + 1 else k - 1)
         (drive_step (k <? target) t d) (plus_ms t (step_delay cmd)) w.

(** The direction a Step command moves in: Step-in and Step-out name
    it, a plain Step repeats the direction of the last step. *)
Definition step_direction (cmd : byte) (last : bool) : bool :=
  if Z.land cmd 0xE0 =? 0x40 then true
  else if Z.land cmd 0xE0 =? 0x60 then false
  else last.

(** A Step command waiting for the callback that ends it. *)
Definition Stepping (cmd k : byte) (dirIn : bool) (d : D) (t : EmuTime)
  (w : World) : Prop :=
  commandReg (chip w) = cmd /\
  test (statusReg (chip w)) BUSY = true /\
  fsmState (chip w) = FSM_SEEK /\
  trackReg (chip w) = k /\
  directionIn (chip w) = dirIn /\
  drive w = d /\
  filter is_fsm (syncPoints w) = [fsm_at t].

Definition Stepped (k : byte) (dirIn : bool) (d : D) (w : World) : Prop :=
  trackReg (chip w) = k /\
  directionIn (chip w) = dirIn /\
  drive w = d /\
  test (statusReg (chip w)) BUSY = false /\
  INTRQ (chip w) = true /\
  filter is_fsm (syncPoints w) = [].

(** *** Type II *)

(** The status register as [startType2Cmd] leaves it. *)
Definition type2_status (s : byte) : byte :=
  set (clear s (Z.lor (Z.lor (Z.lor LOST_DATA RECORD_NOT_FOUND) RECORD_TYPE)
                  WRITE_PROTECTED)) BUSY.

(** [Type2Wait] and [Transfer] with the status register pinned. *)
Definition Type2WaitS (v : byte) (cmd tr sec : byte) (buf : list byte) (d : D)
  (st : FSMState) (t : EmuTime) (w : World) : Prop :=
  Type2Wait cmd tr sec buf d st t w /\
  statusReg (chip w) = v /\
  transferring (chip w) = false.

Definition TransferS (v : byte) (drq : bool) (cmd tr sec : byte) (buf : list byte)
  (d : D) (cur avail : Z) (w : World) : Prop :=
  Transfer cmd tr sec buf d cur avail w /\
  statusReg (chip w) = v /\
  transferring (chip w) = true /\
  DRQ (chip w) = drq.

(** A sector command that has ended: status [v], no transfer, the
    interrupt raised, nothing scheduled. *)
Definition Finished (v : byte) (d : D) (w : World) : Prop :=
  statusReg (chip w) = v /\
  drive w = d /\
  INTRQ (chip w) = true /\
  transferring (chip w) = false /\
  filter is_fsm (syncPoints w) = [].

(** *** Type III *)

(** The status register as [startType3Cmd] leaves it. *)
Definition type3_status (s : byte) : byte :=
  set (clear s (Z.lor (Z.lor LOST_DATA RECORD_NOT_FOUND) RECORD_TYPE)) BUSY.

(** A type III command waiting for its next FSM callback at time [t]. *)
Definition Type3Wait (v cmd : byte) (buf : list byte) (d : D)
  (st : FSMState) (t : EmuTime) (w : World) : Prop :=
  commandReg (chip w) = cmd /\
  statusReg (chip w) = v /\
  fsmState (chip w) = st /\
  dataBuffer (chip w) = buf /\
  DRQ (chip w) = false /\
  transferring (chip w) = false /\
  drive w = d /\
  filter is_fsm (syncPoints w) = [fsm_at t].

(** The time at which the head of a type II or III command dispatched
    at [t] has loaded: 30 ms of settling with the E flag, then 1 ms. *)
Definition loaded_time (cmd : byte) (t : EmuTime) : EmuTime :=
  if test cmd E_FLAG then plus_ms (plus_ms t 30) 1 else plus_ms t 1.

(** A write-track command collecting the track image: [cur] bytes
    stored so far. *)
Definition Formatting (v cmd : byte) (start : EmuTime) (buf : list byte) (d : D)
  (cur : Z) (w : World) : Prop :=
  commandReg (chip w) = cmd /\
  statusReg (chip w) = v /\
  commandStart (chip w) = start /\
  formatting (chip w) = true /\
  dataBuffer (chip w) = buf /\
  dataCurrent (chip w) = cur /\
  transferring (chip w) = false /\
  drive w = d /\
  filter is_fsm (syncPoints w) = [].

(** *** Dispatch *)


(** *** Invariants of the reachable states *)

(** The states [executeUntil] has a case for. *)
Definition handled (st : FSMState) : bool :=
  match st with
  | FSM_NONE | FSM_IDX_IRQ => false
  | _ => true
  end.

(** At most one FSM callback is outstanding, and while one is,
    [fsmState] names the step it stands for. *)
Definition FsmInv (w : World) : Prop :=
  (fsm_count (syncPoints w) <= 1)%nat /\
  (fsm_count (syncPoints w) = 1%nat -> handled (fsmState (chip w)) = true).

(** During a transfer the cursor and the counter split the sector
    between them. *)
Definition CursorInv (w : World) : Prop :=
  transferring (chip w) = true ->
  dataCurrent (chip w) + dataAvailable (chip w) = 512 /\
  0 <= dataCurrent (chip w) /\
  0 < dataAvailable (chip w) /\
  Z.land (commandReg (chip w)) 0xC0 = 0x80.

End Phases.

(** ** A small concrete backend, used to run the controller *)

Module Sim.

(** A drive whose disk has one formatted track: every sector carries
    the same [sd_data], its header names track [sd_trackId]. *)
Record SimDrive : Type := mkSimDrive {
  sd_inserted : bool;
  sd_protected : bool;
  sd_cylinder : Z;
  sd_headLoaded : bool;
  sd_readable : bool;
  sd_writable : bool;
  sd_formattable : bool;
  sd_trackId : byte;
  sd_data : list byte
}.

Definition sim_setHeadLoaded (b : bool) (d : SimDrive) : SimDrive :=
  mkSimDrive (sd_inserted d) (sd_protected d) (sd_cylinder d) b (sd_readable d)
    (sd_writable d) (sd_formattable d) (sd_trackId d) (sd_data d).

Definition sim_step (dirIn : bool) (d : SimDrive) : SimDrive :=
  mkSimDrive (sd_inserted d) (sd_protected d)
    (if dirIn then sd_cylinder d + 1 else Z.max 0 (sd_cylinder d - 1))
    (sd_headLoaded d) (sd_readable d) (sd_writable d) (sd_formattable d)
    (sd_trackId d) (sd_data d).

Definition sim_store (buf : list byte) (d : SimDrive) : SimDrive :=
  mkSimDrive (sd_inserted d) (sd_protected d) (sd_cylinder d) (sd_headLoaded d)
    (sd_readable d) (sd_writable d) (sd_formattable d) (sd_trackId d)
    (firstn 512 buf).

(** One revolution takes 200 ticks. *)
#[export] Instance SimDrive_DiskDrive : DiskDrive SimDrive := {
  RAWTRACK_SIZE := 6250;
  isDiskInserted := sd_inserted;
  isWriteProtected := sd_protected;
  isTrack00 := fun d => sd_cylinder d =? 0;
  headLoaded := fun d _ => sd_headLoaded d;
  indexPulse := fun _ t => t mod 200 =? 0;
  indexPulseCount := fun _ since now => now / 200 - since / 200;
  getTimeTillIndexPulse := fun _ t => (t / 200 + 1) * 200;
  getTimeTillSector := fun _ _ t => t + 10;
  setHeadLoaded := fun b _ d => sim_setHeadLoaded b d;
  drive_step := fun dirIn _ d => sim_step dirIn d;
  read := fun s buf d =>
    if sd_readable d
    then (d, sd_data d ++ skipn (length (sd_data d)) buf,
          Some (mkSectorInfo (sd_trackId d) s 0 512))
    else (d, buf, None);
  write := fun s buf d =>
    if sd_writable d
    then (sim_store buf d, Some (mkSectorInfo (sd_trackId d) s 0 512))
    else (d, None);
  writeTrackData := fun _ d =>
    if sd_formattable d then (d, Some tt) else (d, None)
}.

(** Time counted in microseconds, the DRQ timer ticking once per
    microsecond. *)
#[export] Instance SimClocks : Clocks := {
  plus_ms := fun t n => t + 1000 * n;
  getTicksTill := fun last t => t - last;
  advance := fun _ t => t
}.

Definition sector_bytes : list byte :=
  map (fun n => Z.of_nat n mod 251) (seq 0 512).

(** A drive with a readable, writable disk, the head on cylinder 2. *)
Definition drive0 : SimDrive :=
  mkSimDrive true false 2 false true true true 0 sector_bytes.

(** Run a list of steps, stopping at the first fault. *)
Definition run (c : M SimDrive unit) (r : Outcome unit * World SimDrive)
  : Outcome unit * World SimDrive :=
  match r with
  | (Done _, w) => c w
  | r => r
  end.

Fixpoint repeat_run (n : nat) (c : M SimDrive unit)
  (r : Outcome unit * World SimDrive) : Outcome unit * World SimDrive :=
  match n with
  | O => r
  | S m => repeat_run m c (run c r)
  end.

(** The controller after construction on [drive0] at time 0 (a Restore
    is under way), and once that Restore has completed. *)
Definition fresh : World SimDrive := snd (WD2793_new drive0 0).

Definition idle : World SimDrive := snd (settle (repeat 0%nat 255) fresh).

(** A read-sector command in its transfer phase, no byte read yet. *)
Definition reading : World SimDrive :=
  snd ((setCommandReg 0x80 100000 ;; settle [0; 0; 0]%nat) idle).

(** A Seek to track 5 after its first step. *)
Definition seeking : World SimDrive :=
  snd ((setDataReg 5 200000 ;; setCommandReg 0x10 200000) idle).

(** The same, on a disk that cannot be read. *)
Definition drive_bad : SimDrive :=
  mkSimDrive true false 2 false false true true 0 sector_bytes.

Definition idle_bad : World SimDrive :=
  snd (settle (repeat 0%nat 255) (snd (WD2793_new drive_bad 0))).

(** A read-sector command on the unreadable disk, waiting for the
    callback that ends the rotational wait. *)
Definition rotating_bad : World SimDrive :=
  snd ((setCommandReg 0x80 100000 ;; settle [0%nat]) idle_bad).

(** A disk whose sector headers name track 7. *)
Definition drive_far : SimDrive :=
  mkSimDrive true false 2 false true true true 7 sector_bytes.

Definition idle_far : World SimDrive :=
  snd (settle (repeat 0%nat 255) (snd (WD2793_new drive_far 0))).

(** A read-sector command whose data register is read before the
    transfer has started. *)
Definition underflow : World SimDrive :=
  snd ((setCommandReg 0x80 100000 ;; ignore (getDataReg 100001)) idle).

(** 512 accesses, one every 32 microseconds. *)
Definition read_times : list EmuTime :=
  map (fun n => 102000 + 32 * Z.of_nat n) (seq 0 512).

Definition write_bytes : list (byte * EmuTime) :=
  map (fun n => (Z.of_nat n mod 256, 102000 + 32 * Z.of_nat n)) (seq 0 512).


(** An interrupt on the next index pulse is armed, no command in
    flight; and a Seek to track 5 started after that. *)
Definition armed : World SimDrive := snd (setCommandReg 0xD4 300000 idle).


(** The data register names track 5 and no command has been given yet;
    and a track register that has lost step with the head, which is on
    cylinder 0. *)
Definition aimed : World SimDrive := snd (setDataReg 5 200000 idle).

Definition detuned : World SimDrive :=
  snd ((setTrackReg 9 200000 ;; setDataReg 3 200000) idle).

(** The sample disk with its write-protect tab set, and a drive with
    no disk in it. *)
Definition drive_locked : SimDrive :=
  mkSimDrive true true 2 false true true true 0 sector_bytes.

Definition idle_locked : World SimDrive :=
  snd (settle (repeat 0%nat 255) (snd (WD2793_new drive_locked 0))).

Definition drive_empty : SimDrive :=
  mkSimDrive false false 2 false true true true 0 sector_bytes.

Definition idle_empty : World SimDrive :=
  snd (settle (repeat 0%nat 255) (snd (WD2793_new drive_empty 0))).

(** A second backend, for multi-sector reads: one track of
    [rl_sectors] sectors numbered from 1, sector [s] holding
    [reel_sector s]; the head is always on cylinder 0. *)
Record Reel : Type := mkReel { rl_sectors : Z }.

Definition reel_sector (s : Z) : list byte :=
  map (fun b => (b + s) mod 256) sector_bytes.

#[export] Instance Reel_DiskDrive : DiskDrive Reel := {
  RAWTRACK_SIZE := 6250;
  isDiskInserted := fun _ => true;
  isWriteProtected := fun _ => true;
  isTrack00 := fun _ => true;
  headLoaded := fun _ _ => true;
  indexPulse := fun _ t => t mod 200 =? 0;
  indexPulseCount := fun _ since now => now / 200 - since / 200;
  getTimeTillIndexPulse := fun _ t => (t / 200 + 1) * 200;
  getTimeTillSector := fun _ _ t => t + 10;
  setHeadLoaded := fun _ _ d => d;
  drive_step := fun _ _ d => d;
  read := fun s buf d =>
    if (1 <=? s) && (s <=? rl_sectors d)
    then (d, reel_sector s ++ skipn 512 buf, Some (mkSectorInfo 0 s 0 512))
    else (d, buf, None);
  write := fun _ _ d => (d, None);
  writeTrackData := fun _ d => (d, None)
}.

Definition idle_reel : World Reel :=
  snd (settle (repeat 0%nat 255) (snd (WD2793_new (mkReel 2) 0))).

End Sim.

(** * Reasoning about controller code *)

Section Logic.

Context {D : Type} {drv : DiskDrive D} {clk : Clocks}.

Abbreviation M := (M D).
Abbreviation World := (World D).

Lemma post_ret {A} (a : A) (w : World) Q E : Q a w -> post (ret a) w Q E.
Proof. intro H; exact H. Qed.

Lemma post_throw {A} f (w : World) (Q : A -> World -> Prop) E :
  E f w -> post (throw f) w Q E.
Proof. intro H; exact H. Qed.

Lemma post_bind {A B} (c : M A) (k : A -> M B) (w : World) Q E :
  post c w (fun a w' => post (k a) w' Q E) E -> post (bind c k) w Q E.
Proof.
  unfold post, bind. destruct (c w) as [[a|f] w']; intro H; exact H.
Qed.

Lemma post_try_catch {A} (body handler : M A) (w : World) Q E :
  post body w Q
    (fun f w' => match f with
                 | MSXException => post handler w' Q E
                 | _ => E f w'
                 end) ->
  post (try_catch body handler) w Q E.
Proof.
  unfold post, try_catch. destruct (body w) as [[a|f] w']; intro H.
  - exact H.
  - destruct f; exact H.
Qed.

Lemma post_weaken {A} (c : M A) (w : World) (Q Q' : A -> World -> Prop)
  (E E' : Fault -> World -> Prop) :
  post c w Q E ->
  (forall a w', Q a w' -> Q' a w') ->
  (forall f w', E f w' -> E' f w') ->
  post c w Q' E'.
Proof.
  unfold post. destruct (c w) as [[a|f] w']; intros H HQ HE; auto.
Qed.

Lemma post_get {A} (f : WD2793 -> A) (w : World) Q E :
  Q (f (chip w)) w -> post (get f) w Q E.
Proof. intro H; exact H. Qed.

Lemma post_modify f (w : World) (Q : unit -> World -> Prop) E :
  Q tt (mkWorld (f (chip w)) (drive w) (syncPoints w)) -> post (modify f) w Q E.
Proof. intro H; exact H. Qed.

Lemma post_ask {A} (f : D -> A) (w : World) Q E :
  Q (f (drive w)) w -> post (ask f) w Q E.
Proof. intro H; exact H. Qed.

Lemma post_act f (w : World) (Q : unit -> World -> Prop) E :
  Q tt (mkWorld (chip w) (f (drive w)) (syncPoints w)) -> post (act f) w Q E.
Proof. intro H; exact H. Qed.

Lemma post_run {A} (c : M A) (w : World) Q E :
  post c w Q E ->
  match fst (c w) with
  | Done a => Q a (snd (c w))
  | Thrown f => E f (snd (c w))
  end.
Proof. unfold post. destruct (c w) as [[a|f] w']; intro H; exact H. Qed.

Lemma post_drive_read sector (w : World) (Q : SectorInfo -> World -> Prop) E :
  (forall d buf info,
     read sector (dataBuffer (chip w)) (drive w) = (d, buf, Some info) ->
     Q info (mkWorld (set_dataBuffer buf (chip w)) d (syncPoints w))) ->
  (forall d buf,
     read sector (dataBuffer (chip w)) (drive w) = (d, buf, None) ->
     E MSXException (mkWorld (set_dataBuffer buf (chip w)) d (syncPoints w))) ->
  post (drive_read sector) w Q E.
Proof.
  unfold post, drive_read. intros HQ HE.
  destruct (read sector (dataBuffer (chip w)) (drive w)) as [[d buf] [info|]];
    [ apply HQ | apply HE ]; reflexivity.
Qed.

Lemma post_drive_write sector (w : World) (Q : SectorInfo -> World -> Prop) E :
  (forall d info,
     write sector (dataBuffer (chip w)) (drive w) = (d, Some info) ->
     Q info (mkWorld (chip w) d (syncPoints w))) ->
  (forall d,
     write sector (dataBuffer (chip w)) (drive w) = (d, None) ->
     E MSXException (mkWorld (chip w) d (syncPoints w))) ->
  post (drive_write sector) w Q E.
Proof.
  unfold post, drive_write. intros HQ HE.
  destruct (write sector (dataBuffer (chip w)) (drive w)) as [d [info|]];
    [ apply HQ | apply HE ]; reflexivity.
Qed.

Lemma post_drive_writeTrackData (w : World) (Q : unit -> World -> Prop) E :
  (forall d u,
     writeTrackData (dataBuffer (chip w)) (drive w) = (d, Some u) ->
     Q tt (mkWorld (chip w) d (syncPoints w))) ->
  (forall d,
     writeTrackData (dataBuffer (chip w)) (drive w) = (d, None) ->
     E MSXException (mkWorld (chip w) d (syncPoints w))) ->
  post drive_writeTrackData w Q E.
Proof.
  unfold post, drive_writeTrackData. intros HQ HE.
  destruct (writeTrackData (dataBuffer (chip w)) (drive w)) as [d [u|]];
    [ apply (HQ d u) | apply HE ]; reflexivity.
Qed.

Lemma post_buffer_get i (w : World) (Q : byte -> World -> Prop) E :
  (forall b,
     0 <= i -> nth_error (dataBuffer (chip w)) (Z.to_nat i) = Some b -> Q b w) ->
  (i < 0 \/ nth_error (dataBuffer (chip w)) (Z.to_nat i) = None ->
   E BufferOverrun w) ->
  post (buffer_get i) w Q E.
Proof.
  unfold post, buffer_get. intros HQ HE.
  destruct (Z.ltb_spec i 0) as [Hi|Hi]; [ apply HE; left; exact Hi | ].
  destruct (nth_error (dataBuffer (chip w)) (Z.to_nat i)) as [b|] eqn:Hb;
    [ apply HQ; [ exact Hi | reflexivity ] | apply HE; right; reflexivity ].
Qed.

Lemma post_buffer_put i v (w : World) (Q : unit -> World -> Prop) E :
  (0 <= i < Z.of_nat (length (dataBuffer (chip w))) ->
   Q tt (mkWorld
           (set_dataBuffer (list_put (Z.to_nat i) v (dataBuffer (chip w))) (chip w))
           (drive w) (syncPoints w))) ->
  (i < 0 \/ Z.of_nat (length (dataBuffer (chip w))) <= i -> E BufferOverrun w) ->
  post (buffer_put i v) w Q E.
Proof.
  unfold post, buffer_put. intros HQ HE.
  destruct (Z.ltb_spec i 0) as [Hi|Hi]; [ apply HE; left; exact Hi | ].
  destruct (Z.leb_spec (Z.of_nat (length (dataBuffer (chip w)))) i) as [Hl|Hl];
    [ apply HE; right; exact Hl | ].
  apply HQ. split; assumption.
Qed.

Lemma post_removeSyncPoint tag (w : World) (Q : unit -> World -> Prop) E :
  Q tt (mkWorld (chip w) (drive w) (remove_tag tag (syncPoints w))) ->
  post (removeSyncPoint tag) w Q E.
Proof. intro H; exact H. Qed.

Lemma post_pendingSyncPoint tag (w : World) (Q : bool -> World -> Prop) E :
  Q (pending tag (syncPoints w)) w -> post (pendingSyncPoint tag) w Q E.
Proof. intro H; exact H. Qed.

Lemma post_setSyncPoint time tag (w : World) (Q : unit -> World -> Prop) E :
  (pending tag (syncPoints w) = false ->
   Q tt (mkWorld (chip w) (drive w) (syncPoints w ++ [mkSyncPoint time tag]))) ->
  (pending tag (syncPoints w) = true -> E SyncPointClash w) ->
  post (setSyncPoint time tag) w Q E.
Proof.
  unfold post, setSyncPoint. intros HQ HE.
  destruct (pending tag (syncPoints w)); [ apply HE | apply HQ ]; reflexivity.
Qed.

End Logic.

(** Symbolic execution, one construct at a time. *)
Ltac norm :=
  cbn [chip drive syncPoints fired
       commandStart DRQTimer fsmState statusReg commandReg sectorReg trackReg
       dataReg directionIn INTRQ immediateIRQ DRQ transferring formatting
       dataBuffer dataCurrent dataAvailable
       set_commandStart set_DRQTimer set_fsmState set_statusReg set_commandReg
       set_sectorReg set_trackReg set_dataReg set_directionIn set_INTRQ
       set_immediateIRQ set_DRQ set_transferring set_formatting
       set_dataBuffer set_dataCurrent set_dataAvailable] in *.

Ltac wp_branch b :=
  lazymatch b with
  | true => cbn beta iota
  | false => cbn beta iota
  | _ =>
      first
        [ match goal with H : b = _ |- _ => rewrite H end
        | destruct b eqn:? ]
  end.

Ltac wp_step :=
  lazymatch goal with
  | |- post (bind _ _) _ _ _ => apply post_bind
  | |- post (ret _) _ _ _ => apply post_ret
  | |- post (throw _) _ _ _ => apply post_throw
  | |- post (get _) _ _ _ => apply post_get
  | |- post (modify _) _ _ _ => apply post_modify
  | |- post (ask _) _ _ _ => apply post_ask
  | |- post (act _) _ _ _ => apply post_act
  | |- post (try_catch _ _) _ _ _ => apply post_try_catch
  | |- post (drive_read _) _ _ _ => apply post_drive_read
  | |- post (drive_write _) _ _ _ => apply post_drive_write
  | |- post drive_writeTrackData _ _ _ => apply post_drive_writeTrackData
  | |- post (buffer_get _) _ _ _ => apply post_buffer_get
  | |- post (buffer_put _ _) _ _ _ => apply post_buffer_put
  | |- post (removeSyncPoint _) _ _ _ => apply post_removeSyncPoint
  | |- post (pendingSyncPoint _) _ _ _ => apply post_pendingSyncPoint
  | |- post (setSyncPoint _ _) _ _ _ => apply post_setSyncPoint
  | |- post (when ?b _) _ _ _ => unfold when at 1; wp_branch b
  | |- post (assert ?b) _ _ _ => unfold assert at 1; wp_branch b
  | |- post (if ?b then _ else _) _ _ _ => wp_branch b
  | |- post (match ?x with _ => _ end) _ _ _ => destruct x eqn:?
  end.

Ltac eval_flag e :=
  let v := eval vm_compute in e in
  lazymatch v with
  | true => change e with true
  | false => change e with false
  end.

Ltac flags :=
  repeat match goal with
         | |- context [one_of ?c ?l] => eval_flag (one_of c l)
         | |- context [test ?c ?m] => eval_flag (test c m)
         | |- context [Z.eqb ?a ?b] => eval_flag (Z.eqb a b)
         end;
  cbn [Z.eqb Pos.eqb orb andb negb].

Ltac wp_with simp :=
  repeat (simp; wp_step; cbn beta iota; intros; norm); simp.

Ltac wp := wp_with idtac.


(** ** Bit flags *)

Lemma land_pow2 (x k : Z) :
  0 <= k -> Z.land x (2 ^ k) = if Z.testbit x k then 2 ^ k else 0.
Proof.
  intro Hk. apply Z.bits_inj'. intros n Hn.
  rewrite Z.land_spec, Z.pow2_bits_eqb by exact Hk.
  destruct (Z.testbit x k) eqn:Hx.
  - rewrite Z.pow2_bits_eqb by exact Hk.
    destruct (Z.eqb_spec k n) as [->|Hne].
    + rewrite Hx. reflexivity.
    + apply andb_false_r.
  - rewrite Z.bits_0. destruct (Z.eqb_spec k n) as [->|Hne].
    + rewrite Hx. reflexivity.
    + apply andb_false_r.
Qed.

Lemma test_bit (x m k : Z) : 0 <= k -> m = 2 ^ k -> test x m = Z.testbit x k.
Proof.
  intros Hk ->. unfold test. rewrite land_pow2 by exact Hk.
  destruct (Z.testbit x k).
  - assert (0 < 2 ^ k) by (apply Z.pow_pos_nonneg; lia).
    destruct (Z.eqb_spec (2 ^ k) 0); [ lia | reflexivity ].
  - reflexivity.
Qed.

Lemma testbit_clear (x m k : Z) :
  0 <= k -> Z.testbit (clear x m) k = Z.testbit x k && negb (Z.testbit m k).
Proof.
  intro Hk. unfold clear. rewrite Z.land_spec, Z.lnot_spec by exact Hk. reflexivity.
Qed.

Lemma testbit_set (x m k : Z) :
  Z.testbit (set x m) k = Z.testbit x k || Z.testbit m k.
Proof. unfold set. apply Z.lor_spec. Qed.

Lemma test_set_hit (x m b k : Z) :
  0 <= k -> b = 2 ^ k -> Z.testbit m k = true -> test (set x m) b = true.
Proof.
  intros Hk Hb Hm. rewrite (test_bit _ b k Hk Hb), testbit_set, Hm.
  apply orb_true_r.
Qed.

Lemma test_set_miss (x m b k : Z) :
  0 <= k -> b = 2 ^ k -> Z.testbit m k = false -> test (set x m) b = test x b.
Proof.
  intros Hk Hb Hm. rewrite !(test_bit _ b k Hk Hb), testbit_set, Hm.
  apply orb_false_r.
Qed.

Lemma test_clear_hit (x m b k : Z) :
  0 <= k -> b = 2 ^ k -> Z.testbit m k = true -> test (clear x m) b = false.
Proof.
  intros Hk Hb Hm. rewrite (test_bit _ b k Hk Hb), testbit_clear, Hm by exact Hk.
  apply andb_false_r.
Qed.

Lemma test_clear_miss (x m b k : Z) :
  0 <= k -> b = 2 ^ k -> Z.testbit m k = false -> test (clear x m) b = test x b.
Proof.
  intros Hk Hb Hm. rewrite !(test_bit _ b k Hk Hb), testbit_clear, Hm by exact Hk.
  apply andb_true_r.
Qed.

Lemma busy_set (x : Z) : test (set x BUSY) BUSY = true.
Proof. apply (test_set_hit x BUSY BUSY 0); [ lia | reflexivity | reflexivity ]. Qed.

Lemma busy_clear (x : Z) : test (clear x BUSY) BUSY = false.
Proof. apply (test_clear_hit x BUSY BUSY 0); [ lia | reflexivity | reflexivity ]. Qed.

Lemma rnf_set (x : Z) : test (set x RECORD_NOT_FOUND) RECORD_NOT_FOUND = true.
Proof.
  apply (test_set_hit x RECORD_NOT_FOUND RECORD_NOT_FOUND 4);
    [ lia | reflexivity | reflexivity ].
Qed.

Lemma rnf_clear_busy (x : Z) :
  test (clear x BUSY) RECORD_NOT_FOUND = test x RECORD_NOT_FOUND.
Proof.
  apply (test_clear_miss x BUSY RECORD_NOT_FOUND 4);
    [ lia | reflexivity | reflexivity ].
Qed.

(** A mask applied after a wider mask. *)
Lemma land_narrow (x wide narrow v : Z) :
  Z.land x wide = v -> Z.land wide narrow = narrow ->
  Z.land x narrow = Z.land v narrow.
Proof.
  intros Hx Hn. rewrite <- Hx, <- Z.land_assoc, Hn. reflexivity.
Qed.

Lemma byte_land (x : Z) : 0 <= x < 256 <-> Z.land x 255 = x.
Proof.
  change 255 with (Z.ones 8). rewrite Z.land_ones by lia.
  change (2 ^ 8) with 256. split.
  - intro H. apply Z.mod_small. exact H.
  - intro H. rewrite <- H. apply Z.mod_pos_bound. lia.
Qed.

Lemma clear_range (x m : Z) : 0 <= x < 256 -> 0 <= clear x m < 256.
Proof.
  intro H. apply byte_land. apply byte_land in H. unfold clear.
  rewrite <- Z.land_assoc, (Z.land_comm (Z.lnot m)), Z.land_assoc, H.
  reflexivity.
Qed.

Lemma set_range (x m : Z) : 0 <= x < 256 -> 0 <= m < 256 -> 0 <= set x m < 256.
Proof.
  intros Hx Hm. apply byte_land. apply byte_land in Hx, Hm. unfold set.
  rewrite Z.land_lor_distr_l, Hx, Hm. reflexivity.
Qed.

(** ** The scheduler *)

Lemma pending_fsm_filter (l : list SyncPoint) :
  pending SCHED_FSM l = false <-> filter is_fsm l = [].
Proof.
  unfold pending. induction l as [|sp l IH]; simpl.
  - tauto.
  - fold (is_fsm sp). destruct (is_fsm sp); simpl.
    + split; discriminate.
    + exact IH.
Qed.

Lemma is_fsm_inv (sp : SyncPoint) : is_fsm sp = true -> sp = fsm_at (sp_time sp).
Proof.
  destruct sp as [t [|]]; unfold is_fsm; simpl; [ reflexivity | discriminate ].
Qed.

Lemma filter_fsm_app (l : list SyncPoint) (t : EmuTime) :
  filter is_fsm l = [] -> filter is_fsm (l ++ [fsm_at t]) = [fsm_at t].
Proof. intro H. rewrite filter_app, H. reflexivity. Qed.

Lemma remove_tag_fsm (l : list SyncPoint) (t : EmuTime) :
  filter is_fsm l = [fsm_at t] -> filter is_fsm (remove_tag SCHED_FSM l) = [].
Proof.
  induction l as [|sp l IH]; simpl; [ discriminate | ].
  fold (is_fsm sp). destruct (is_fsm sp) eqn:Hsp.
  - intro H. injection H as _ H. exact H.
  - intro H. simpl. rewrite Hsp. apply IH. exact H.
Qed.

Lemma remove_tag_none (tag : SyncPointType) (l : list SyncPoint) :
  pending tag l = false -> remove_tag tag l = l.
Proof.
  unfold pending. induction l as [|sp l IH]; simpl; [ reflexivity | ].
  destruct (SyncPointType_eqb (sp_tag sp) tag); simpl; [ discriminate | ].
  intro H. rewrite IH by exact H. reflexivity.
Qed.

Lemma SyncPoint_eqb_eq (a b : SyncPoint) : SyncPoint_eqb a b = true <-> a = b.
Proof.
  destruct a as [ta ga], b as [tb gb]. unfold SyncPoint_eqb. simpl.
  rewrite andb_true_iff, Z.eqb_eq. split.
  - intros [-> H]. destruct ga, gb; simpl in H; congruence.
  - intro H. injection H as -> ->. split; [ reflexivity | destruct gb; reflexivity ].
Qed.

Lemma remove_one_other (sp : SyncPoint) (l : list SyncPoint) :
  is_fsm sp = false -> filter is_fsm (remove_one sp l) = filter is_fsm l.
Proof.
  intro Hsp. induction l as [|x l IH]; simpl; [ reflexivity | ].
  destruct (SyncPoint_eqb x sp) eqn:Hx.
  - apply SyncPoint_eqb_eq in Hx. subst x. rewrite Hsp. reflexivity.
  - simpl. rewrite IH. reflexivity.
Qed.

Lemma remove_one_fsm (t : EmuTime) (l : list SyncPoint) :
  filter is_fsm l = [fsm_at t] -> filter is_fsm (remove_one (fsm_at t) l) = [].
Proof.
  induction l as [|x l IH]; simpl; [ discriminate | ].
  destruct (is_fsm x) eqn:Hx.
  - intro H. injection H as -> H.
    replace (SyncPoint_eqb (fsm_at t) (fsm_at t)) with true
      by (symmetry; apply SyncPoint_eqb_eq; reflexivity).
    exact H.
  - intro H. destruct (SyncPoint_eqb x (fsm_at t)) eqn:Hx'.
    + apply SyncPoint_eqb_eq in Hx'. subst x. discriminate.
    + simpl. rewrite Hx. apply IH. exact H.
Qed.

Lemma filter_fsm_in (t : EmuTime) (l : list SyncPoint) :
  filter is_fsm l = [fsm_at t] -> existsb (SyncPoint_eqb (fsm_at t)) l = true.
Proof.
  intro H. apply existsb_exists. exists (fsm_at t). split.
  - assert (Hin : In (fsm_at t) (filter is_fsm l)) by (rewrite H; left; reflexivity).
    apply filter_In in Hin. tauto.
  - apply SyncPoint_eqb_eq. reflexivity.
Qed.

Lemma insert_fsm_other (sp : SyncPoint) (l : list SyncPoint) :
  is_fsm sp = false ->
  filter is_fsm (insert_by_time sp l) = filter is_fsm l.
Proof.
  intro Hsp. induction l as [|x l IH]; simpl.
  - rewrite Hsp. reflexivity.
  - destruct (sp_time sp <=? sp_time x); simpl.
    + rewrite Hsp. reflexivity.
    + rewrite IH. reflexivity.
Qed.

Lemma insert_fsm_first (sp : SyncPoint) (l : list SyncPoint) :
  is_fsm sp = true -> filter is_fsm l = [] ->
  filter is_fsm (insert_by_time sp l) = [sp].
Proof.
  intro Hsp. induction l as [|x l IH]; simpl.
  - rewrite Hsp. reflexivity.
  - destruct (is_fsm x) eqn:Hx; [ discriminate | ]. intro H.
    destruct (sp_time sp <=? sp_time x); simpl.
    + rewrite Hsp, Hx, H. reflexivity.
    + rewrite Hx. apply IH. exact H.
Qed.

Lemma sorted_fsm (l : list SyncPoint) :
  (filter is_fsm l = [] -> filter is_fsm (fold_right insert_by_time [] l) = []) /\
  (forall x, filter is_fsm l = [x] ->
             filter is_fsm (fold_right insert_by_time [] l) = [x]).
Proof.
  induction l as [|a l [IH0 IH1]]; simpl.
  - split; [ reflexivity | discriminate ].
  - destruct (is_fsm a) eqn:Ha.
    + split; [ discriminate | ]. intros x H. injection H as -> H.
      apply insert_fsm_first; [ exact Ha | apply IH0; exact H ].
    + split.
      * intro H. rewrite insert_fsm_other by exact Ha. apply IH0. exact H.
      * intros x H. rewrite insert_fsm_other by exact Ha. apply IH1. exact H.
Qed.

Lemma filter_swap {A} (p q : A -> bool) (l : list A) :
  filter p (filter q l) = filter q (filter p l).
Proof.
  induction l as [|a l IH]; simpl; [ reflexivity | ].
  destruct (p a) eqn:Hp, (q a) eqn:Hq; simpl; rewrite ?Hp, ?Hq, IH; reflexivity.
Qed.

Lemma due_fsm (now t : EmuTime) (l : list SyncPoint) :
  t <= now -> filter is_fsm l = [fsm_at t] ->
  filter is_fsm (due now l) = [fsm_at t].
Proof.
  intros Ht H. unfold due. apply sorted_fsm.
  rewrite filter_swap, H. simpl.
  destruct (Z.leb_spec t now); [ reflexivity | lia ].
Qed.

Lemma find_filter {A} (p : A -> bool) (l : list A) :
  find p l = hd_error (filter p l).
Proof.
  induction l as [|a l IH]; simpl; [ reflexivity | ].
  destruct (p a); [ reflexivity | exact IH ].
Qed.

Lemma next_fsm_time_some (t : EmuTime) (l : list SyncPoint) :
  filter is_fsm l = [fsm_at t] -> next_fsm_time l = Some t.
Proof. intro H. unfold next_fsm_time. rewrite find_filter, H. reflexivity. Qed.

Lemma next_fsm_time_none (l : list SyncPoint) :
  filter is_fsm l = [] -> next_fsm_time l = None.
Proof. intro H. unfold next_fsm_time. rewrite find_filter, H. reflexivity. Qed.

Section Scheduling.

Context {D : Type} {drv : DiskDrive D} {clk : Clocks}.

Abbreviation M := (M D).
Abbreviation World := (World D).

Lemma fire_idx (P : World -> Prop) (sp : SyncPoint) (w : World) :
  idx_stable P -> is_fsm sp = false -> P w ->
  post (fire sp) w (fun _ w' => P w') never.
Proof.
  intros HP Hsp Hw. unfold post, fire.
  destruct (existsb (SyncPoint_eqb sp) (syncPoints w)); [ | exact Hw ].
  destruct sp as [t [|]]; [ discriminate | ]. simpl.
  apply (HP w (mkSyncPoint t SCHED_IDX_IRQ)); [ reflexivity | exact Hw ].
Qed.

Lemma fire_all_fsm (P Q : World -> Prop) (t : EmuTime) :
  idx_stable P -> idx_stable Q ->
  (forall w, P w -> filter is_fsm (syncPoints w) = [fsm_at t]) ->
  (forall w, P w ->
     post (executeUntil t SCHED_FSM)
       (mkWorld (chip w) (drive w) (remove_one (fsm_at t) (syncPoints w)))
       (fun _ w' => Q w') never) ->
  forall (q : list SyncPoint) (w : World),
    (P w /\ filter is_fsm q = [fsm_at t]) \/ (Q w /\ filter is_fsm q = []) ->
    post (fire_all q) w (fun _ w' => Q w') never.
Proof.
  intros HP HQ Hsps Hexec. induction q as [|sp q IH]; intros w Hw.
  - destruct Hw as [[_ H]|[H _]]; [ discriminate | exact H ].
  - simpl fire_all. apply post_bind. simpl in Hw.
    destruct (is_fsm sp) eqn:Hsp.
    + destruct Hw as [[Hw H]|[_ H]]; [ | discriminate ].
      injection H as -> H. unfold post at 1, fire.
      rewrite (filter_fsm_in t _ (Hsps w Hw)). simpl sp_time. simpl sp_tag.
      specialize (Hexec w Hw). unfold post in Hexec at 1.
      destruct (executeUntil t SCHED_FSM _) as [[u|f] w']; [ | exact Hexec ].
      apply IH. right. split; assumption.
    + destruct Hw as [[Hw H]|[Hw H]].
      * eapply post_weaken; [ apply (fire_idx P sp w HP Hsp Hw) | | auto ].
        intros u w' Hw'. apply IH. left. split; assumption.
      * eapply post_weaken; [ apply (fire_idx Q sp w HQ Hsp Hw) | | auto ].
        intros u w' Hw'. apply IH. right. split; assumption.
Qed.

(** One [advanceTo] past the time of the pending FSM callback runs that
    callback once. *)
Lemma advanceTo_fsm (P Q : World -> Prop) (t now : EmuTime) (w : World) :
  idx_stable P -> idx_stable Q ->
  (forall w, P w -> filter is_fsm (syncPoints w) = [fsm_at t]) ->
  (forall w, P w ->
     post (executeUntil t SCHED_FSM)
       (mkWorld (chip w) (drive w) (remove_one (fsm_at t) (syncPoints w)))
       (fun _ w' => Q w') never) ->
  t <= now -> P w ->
  post (advanceTo now) w (fun _ w' => Q w') never.
Proof.
  intros HP HQ Hsps Hexec Ht Hw.
  change (post (fire_all (due now (syncPoints w))) w (fun _ w' => Q w') never).
  apply (fire_all_fsm P Q t HP HQ Hsps Hexec). left. split; [ exact Hw | ].
  apply due_fsm; [ exact Ht | apply Hsps; exact Hw ].
Qed.

Lemma settle_step (P Q : World -> Prop) (R : unit -> World -> Prop)
  (t : EmuTime) (s : nat) (late : list nat) (w : World) :
  idx_stable P -> idx_stable Q ->
  (forall w, P w -> filter is_fsm (syncPoints w) = [fsm_at t]) ->
  (forall w, P w ->
     post (executeUntil t SCHED_FSM)
       (mkWorld (chip w) (drive w) (remove_one (fsm_at t) (syncPoints w)))
       (fun _ w' => Q w') never) ->
  (forall w', Q w' -> post (settle late) w' R never) ->
  P w ->
  post (settle (s :: late)) w R never.
Proof.
  intros HP HQ Hsps Hexec Hrest Hw.
  unfold post. simpl settle.
  rewrite (next_fsm_time_some t _ (Hsps w Hw)).
  change (post (advanceTo (t + Z.of_nat s) ;; settle late) w R never).
  apply post_bind.
  assert (Hle : t <= t + Z.of_nat s) by lia.
  eapply post_weaken;
    [ apply (advanceTo_fsm P Q t (t + Z.of_nat s) w HP HQ Hsps Hexec Hle Hw) | | auto ].
  intros u w' Hw'. apply Hrest. exact Hw'.
Qed.

Lemma settle_idle (late : list nat) (w : World) :
  filter is_fsm (syncPoints w) = [] -> settle late w = (Done tt, w).
Proof.
  intro H. destruct late; [ reflexivity | ]. simpl.
  rewrite (next_fsm_time_none _ H). reflexivity.
Qed.

End Scheduling.

(** ** Type II commands *)

Section Type2.
Context {D : Type} {drv : DiskDrive D} {clk : Clocks}.
Abbreviation M := (M D).
Abbreviation World := (World D).

Lemma Type2Wait_stable cmd tr sec buf (d : D) st t :
  idx_stable (Type2Wait cmd tr sec buf d st t).
Proof.
  intros w sp Hsp H. unfold Type2Wait in *. norm.
  rewrite remove_one_other by exact Hsp. exact H.
Qed.

Lemma Transfer_stable cmd tr sec buf (d : D) cur avail :
  idx_stable (Transfer cmd tr sec buf d cur avail).
Proof.
  intros w sp Hsp H. unfold Transfer in *. norm.
  rewrite remove_one_other by exact Hsp. exact H.
Qed.

Lemma one_fsm_removed (w : World) :
  one_fsm w -> filter is_fsm (remove_tag SCHED_FSM (syncPoints w)) = [].
Proof. intro H. apply pending_fsm_filter. exact H. Qed.

Lemma schedule_post (st : FSMState) (t : EmuTime) (w : World)
  (Q : unit -> World -> Prop) :
  filter is_fsm (syncPoints w) = [] ->
  Q tt (mkWorld (set_fsmState st (chip w)) (drive w)
          (syncPoints w ++ [fsm_at t])) ->
  post (schedule st t) w Q never.
Proof.
  intros Hnone HQ. apply pending_fsm_filter in Hnone.
  unfold schedule. wp_with ltac:(rewrite ?Hnone in *; flags).
  all: first [ exact HQ | discriminate ].
Qed.

Lemma start_type2 (w : World) (cmd hi : byte) (t : EmuTime) :
  Z.land cmd 0xF0 = hi ->
  one_of hi [0x00; 0x10; 0x20; 0x30; 0x40; 0x50; 0x60; 0x70] = false ->
  one_of hi [0x80; 0x90; 0xA0; 0xB0] = true ->
  isDiskInserted (drive w) = true ->
  one_fsm w ->
  post (setCommandReg cmd t) w
    (fun _ w' =>
       Type2Wait cmd (trackReg (chip w)) (sectorReg (chip w)) (dataBuffer (chip w))
         (setHeadLoaded true t (drive w))
         (if test cmd E_FLAG then FSM_TYPE2_WAIT_LOAD else FSM_TYPE2_LOADED)
         (if test cmd E_FLAG then plus_ms t 30 else plus_ms t 1) w')
    never.
Proof.
  intros Hhi H1 H2 Hins Hone. apply one_fsm_removed in Hone.
  unfold setCommandReg, resetIRQ, startType2Cmd, setDRQ, type2WaitLoad.
  wp_with ltac:(rewrite ?Hhi, ?H1, ?H2, ?Hins in *; flags).
  all: try discriminate.
  all: apply schedule_post; norm; [ exact Hone | ].
  all: unfold Type2Wait; norm; rewrite busy_set, filter_fsm_app by exact Hone.
  all: repeat split; reflexivity.
Qed.

Lemma exec_wait_load cmd tr sec buf d t (w : World) :
  Z.land cmd 0xC0 = 0x80 ->
  Type2Wait cmd tr sec buf d FSM_TYPE2_WAIT_LOAD t w ->
  post (executeUntil t SCHED_FSM) (fired w t)
    (fun _ w' => Type2Wait cmd tr sec buf d FSM_TYPE2_LOADED (plus_ms t 1) w')
    never.
Proof.
  intros Hcmd (Hc & Hb & Hs & Htr & Hsec & Hbuf & Hd & Hsp).
  apply remove_one_fsm in Hsp.
  unfold executeUntil, type2WaitLoad.
  wp_with ltac:(rewrite ?Hs, ?Hc, ?Hcmd in *; flags).
  apply schedule_post; norm; [ exact Hsp | ].
  unfold Type2Wait; norm. rewrite filter_fsm_app by exact Hsp.
  repeat split; assumption.
Qed.

Lemma exec_loaded cmd tr sec buf d t (w : World) :
  Z.land cmd 0xC0 = 0x80 ->
  (Z.land cmd 0xE0 =? 0xA0) && isWriteProtected d = false ->
  Type2Wait cmd tr sec buf d FSM_TYPE2_LOADED t w ->
  post (executeUntil t SCHED_FSM) (fired w t)
    (fun _ w' =>
       Type2Wait cmd tr sec buf d FSM_TYPE2_ROTATED (getTimeTillSector d sec t) w')
    never.
Proof.
  intros Hcmd Hwp (Hc & Hb & Hs & Htr & Hsec & Hbuf & Hd & Hsp).
  apply remove_one_fsm in Hsp.
  unfold executeUntil, type2Loaded.
  wp_with ltac:(rewrite ?Hs, ?Hc, ?Hcmd, ?Hd, ?Hwp in *; flags).
  apply schedule_post; norm; [ exact Hsp | ].
  unfold Type2Wait; norm. rewrite filter_fsm_app by exact Hsp.
  rewrite Hsec. repeat split; assumption.
Qed.

Lemma exec_rotated_read cmd hi tr sec buf d t d' buf' info (w : World) :
  Z.land cmd 0xC0 = 0x80 ->
  Z.land cmd 0xF0 = hi ->
  one_of hi [0x80; 0x90] = true ->
  read sec buf d = (d', buf', Some info) ->
  onDiskTrack info = tr ->
  onDiskSize info = 512 ->
  Type2Wait cmd tr sec buf d FSM_TYPE2_ROTATED t w ->
  post (executeUntil t SCHED_FSM) (fired w t)
    (fun _ w' => Transfer cmd tr sec buf' d' 0 512 w')
    never.
Proof.
  intros Hcmd Hhi Hone Hread Htrk Hsize (Hc & Hb & Hs & Htr & Hsec & Hbuf & Hd & Hsp).
  apply remove_one_fsm in Hsp.
  unfold executeUntil, type2Rotated, tryToReadSector.
  wp_with ltac:(rewrite ?Hs, ?Hc, ?Hcmd, ?Hhi, ?Hone, ?Hsec, ?Hbuf, ?Hd, ?Htr in *; flags).
  all: match goal with H : read _ _ _ = _ |- _ => rewrite Hread in H; inversion H; subst end.
  all: norm.
  all: rewrite ?Z.eqb_refl in *; try discriminate.
  - unfold Transfer; norm. rewrite Hsize. repeat split; assumption.
  - rewrite Hsize in *. discriminate.
Qed.

(** *** The transfer phase of a sector read *)

Lemma getDataReg_mid cmd tr sec buf d cur avail b t (w : World) :
  Z.land cmd 0xE0 = 0x80 ->
  0 <= cur ->
  nth_error buf (Z.to_nat cur) = Some b ->
  avail <> 1 ->
  Transfer cmd tr sec buf d cur avail w ->
  post (getDataReg t) w
    (fun r w' => r = b /\ Transfer cmd tr sec buf d (cur + 1) (avail - 1) w')
    never.
Proof.
  intros Hcmd Hcur Hnth Havail (Hc & Hb & Htr & Hsec & Hbuf & Hd & Hdc & Hda & Hsp).
  assert (Hne : (avail - 1 =? 0) = false) by (apply Z.eqb_neq; lia).
  unfold getDataReg, setDRQ.
  wp_with ltac:(rewrite ?Hc, ?Hcmd, ?Hb, ?Hbuf, ?Hdc, ?Hda, ?Hne in *; flags).
  - split; [ congruence | ].
    unfold Transfer; norm. repeat split; assumption.
  - destruct H as [H|H]; [ lia | congruence ].
Qed.

Lemma getDataReg_last cmd tr sec buf d cur b t (w : World) :
  Z.land cmd 0xE0 = 0x80 ->
  test cmd M_FLAG = false ->
  0 <= cur ->
  nth_error buf (Z.to_nat cur) = Some b ->
  Transfer cmd tr sec buf d cur 1 w ->
  post (getDataReg t) w (fun r w' => r = b /\ Ended w') never.
Proof.
  intros Hcmd Hm Hcur Hnth (Hc & Hb & Htr & Hsec & Hbuf & Hd & Hdc & Hda & Hsp).
  unfold getDataReg, setDRQ, endCmd, setIRQ.
  wp_with ltac:(rewrite ?Hc, ?Hcmd, ?Hm, ?Hb, ?Hbuf, ?Hdc, ?Hda in *; flags).
  - split; [ congruence | ].
    unfold Ended; norm. rewrite busy_clear. split; reflexivity.
  - destruct H as [H|H]; [ lia | congruence ].
Qed.

Lemma nth_error_firstn_skipn {A} (l : list A) (cur : nat) (a : A) :
  nth_error l cur = Some a ->
  forall n, firstn (S n) (skipn cur l) = a :: firstn n (skipn (S cur) l).
Proof.
  revert l. induction cur as [|cur IH]; intros [|x l] H n; try discriminate.
  - simpl in H. injection H as ->. reflexivity.
  - simpl in H. rewrite (skipn_cons cur x l). rewrite (IH l H n). reflexivity.
Qed.

Lemma readData_spec cmd tr sec buf d (times : list EmuTime) :
  Z.land cmd 0xE0 = 0x80 ->
  test cmd M_FLAG = false ->
  times <> [] ->
  forall (cur : Z) (w : World),
    0 <= cur ->
    cur + Z.of_nat (length times) <= Z.of_nat (length buf) ->
    Transfer cmd tr sec buf d cur (Z.of_nat (length times)) w ->
    post (readData times) w
      (fun bytes w' =>
         bytes = firstn (length times) (skipn (Z.to_nat cur) buf) /\ Ended w')
      never.
Proof.
  intros Hcmd Hm. induction times as [|t times IH]; intros Hne cur w Hcur Hlen Hw.
  - contradiction.
  - simpl length in *. simpl readData.
    destruct (nth_error buf (Z.to_nat cur)) as [b|] eqn:Hb.
    2:{ apply nth_error_None in Hb. lia. }
    apply post_bind. destruct times as [|t' times].
    + eapply post_weaken;
        [ apply (getDataReg_last cmd tr sec buf d cur b t w Hcmd Hm Hcur Hb Hw) | | auto ].
      intros r w' [-> Hend]. simpl readData. apply post_bind, post_ret, post_ret.
      split; [ | exact Hend ].
      rewrite (nth_error_firstn_skipn buf _ b Hb). reflexivity.
    + assert (Hmid : Z.of_nat (S (length (t' :: times))) <> 1)
        by (simpl length; lia).
      eapply post_weaken;
        [ apply (getDataReg_mid cmd tr sec buf d cur _ b t w Hcmd Hcur Hb Hmid Hw)
        | | auto ].
      intros r w' [-> Hw']. apply post_bind.
      replace (Z.of_nat (S (length (t' :: times))) - 1)
        with (Z.of_nat (length (t' :: times))) in Hw' by lia.
      assert (Hne' : t' :: times <> []) by discriminate.
      eapply post_weaken;
        [ apply (IH Hne' (cur + 1) w'); [ lia | lia | exact Hw' ] | | auto ].
      intros bs w'' [-> Hend]. apply post_ret. split; [ | exact Hend ].
      rewrite (nth_error_firstn_skipn buf _ b Hb).
      replace (Z.to_nat (cur + 1)) with (S (Z.to_nat cur)) by lia.
      reflexivity.
Qed.

Lemma settle_done (P : World -> Prop) (late : list nat) (w : World) :
  (forall w, P w -> filter is_fsm (syncPoints w) = []) ->
  P w -> post (settle late) w (fun _ w' => P w') never.
Proof.
  intros HP Hw. unfold post. rewrite settle_idle by (apply HP; exact Hw).
  exact Hw.
Qed.

Lemma Transfer_idle cmd tr sec buf d cur avail (w : World) :
  Transfer cmd tr sec buf d cur avail w -> filter is_fsm (syncPoints w) = [].
Proof. intro H. apply H. Qed.

Lemma Type2Wait_pending cmd tr sec buf d st t (w : World) :
  Type2Wait cmd tr sec buf d st t w -> filter is_fsm (syncPoints w) = [fsm_at t].
Proof. intro H. apply H. Qed.

(** From the dispatch of a type II command to the callback that ends
    the rotational wait, whose effect is [Q]. *)
Lemma settle_type2 (Q : World -> Prop) cmd tr sec buf (d : D) t
  (s1 s2 s3 : nat) (w : World) :
  Z.land cmd 0xC0 = 0x80 ->
  (Z.land cmd 0xE0 =? 0xA0) && isWriteProtected d = false ->
  idx_stable Q ->
  (forall w', Q w' -> filter is_fsm (syncPoints w') = []) ->
  (forall t2 w2,
     Type2Wait cmd tr sec buf d FSM_TYPE2_ROTATED t2 w2 ->
     post (executeUntil t2 SCHED_FSM) (fired w2 t2) (fun _ w' => Q w') never) ->
  Type2Wait cmd tr sec buf d
    (if test cmd E_FLAG then FSM_TYPE2_WAIT_LOAD else FSM_TYPE2_LOADED)
    (if test cmd E_FLAG then plus_ms t 30 else plus_ms t 1) w ->
  post (settle [s1; s2; s3]) w (fun _ w' => Q w') never.
Proof.
  intros Hc Hw HQ Hidle Hexec Hstart.
  assert (Hrot : forall s late t2 w2,
            Type2Wait cmd tr sec buf d FSM_TYPE2_ROTATED t2 w2 ->
            post (settle (s :: late)) w2 (fun _ w' => Q w') never).
  { intros s late t2 w2 H2.
    apply (settle_step (Type2Wait cmd tr sec buf d FSM_TYPE2_ROTATED t2)
             Q _ t2 s late w2).
    - apply Type2Wait_stable.
    - exact HQ.
    - apply Type2Wait_pending.
    - intros w3. apply Hexec.
    - intros w3 H3. apply (settle_done _ late w3 Hidle H3).
    - exact H2. }
  assert (Hload : forall s s' late t1 w1,
            Type2Wait cmd tr sec buf d FSM_TYPE2_LOADED t1 w1 ->
            post (settle (s :: s' :: late)) w1 (fun _ w' => Q w') never).
  { intros s s' late t1 w1 H1.
    apply (settle_step (Type2Wait cmd tr sec buf d FSM_TYPE2_LOADED t1)
             (Type2Wait cmd tr sec buf d FSM_TYPE2_ROTATED (getTimeTillSector d sec t1))
             _ t1 s (s' :: late) w1).
    - apply Type2Wait_stable.
    - apply Type2Wait_stable.
    - apply Type2Wait_pending.
    - intros w2. apply exec_loaded; [ exact Hc | exact Hw ].
    - intros w2 H2. apply (Hrot s' late _ w2 H2).
    - exact H1. }
  destruct (test cmd E_FLAG).
  - apply (settle_step (Type2Wait cmd tr sec buf d FSM_TYPE2_WAIT_LOAD (plus_ms t 30))
             (Type2Wait cmd tr sec buf d FSM_TYPE2_LOADED (plus_ms (plus_ms t 30) 1))
             _ (plus_ms t 30) s1 [s2; s3] w).
    + apply Type2Wait_stable.
    + apply Type2Wait_stable.
    + apply Type2Wait_pending.
    + intros w1. apply exec_wait_load. exact Hc.
    + intros w1 H1. apply (Hload s2 s3 [] _ w1 H1).
    + exact Hstart.
  - apply (Hload s1 s2 [s3] _ w Hstart).
Qed.

(** C1. A single-sector read command: after the read-sector opcode is
    written and the scheduled head-load and rotational delays have
    elapsed, 512 reads of the data register return the 512 bytes the
    backend put in the buffer, in order; after the 512th read BUSY is
    clear and the interrupt is pending. *)
Theorem read_sector_command (w : World) (cmd : byte) (t : EmuTime)
  (s1 s2 s3 : nat) (times : list EmuTime)
  (d' : D) (buf' : list byte) (info : SectorInfo) :
  Z.land cmd 0xF0 = 0x80 ->
  one_fsm w ->
  isDiskInserted (drive w) = true ->
  read (sectorReg (chip w)) (dataBuffer (chip w))
    (setHeadLoaded true t (drive w)) = (d', buf', Some info) ->
  onDiskTrack info = trackReg (chip w) ->
  onDiskSize info = 512 ->
  (512 <= length buf')%nat ->
  length times = 512%nat ->
  exists w',
    (setCommandReg cmd t ;; settle [s1; s2; s3] ;; readData times) w
      = (Done (firstn 512 buf'), w') /\
    test (statusReg (chip w')) BUSY = false /\
    INTRQ (chip w') = true /\
    fst (getIRQ t w') = Done true.
Proof.
  intros Hcmd Hone Hins Hread Htrk Hsize Hbuf Htimes.
  assert (Hc0 : Z.land cmd 0xC0 = 0x80)
    by (rewrite (land_narrow cmd 0xF0 0xC0 0x80 Hcmd); reflexivity).
  assert (He0 : Z.land cmd 0xE0 = 0x80)
    by (rewrite (land_narrow cmd 0xF0 0xE0 0x80 Hcmd); reflexivity).
  assert (Hm : test cmd M_FLAG = false).
  { unfold test, M_FLAG. rewrite (land_narrow cmd 0xF0 0x10 0x80 Hcmd); reflexivity. }
  assert (Hpost :
    post (setCommandReg cmd t ;; settle [s1; s2; s3] ;; readData times) w
      (fun bytes w' => bytes = firstn 512 buf' /\ Ended w') never).
  { apply post_bind.
    eapply post_weaken;
      [ apply (start_type2 w cmd 0x80 t Hcmd); [ reflexivity | reflexivity | exact Hins | exact Hone ]
      | | auto ].
    intros u w1 H1. cbn beta in H1. apply post_bind.
    assert (Hs : post (settle [s1; s2; s3]) w1
              (fun _ w' =>
                 Transfer cmd (trackReg (chip w)) (sectorReg (chip w)) buf' d' 0 512 w')
              never).
    { apply (settle_type2 _ cmd (trackReg (chip w)) (sectorReg (chip w))
               (dataBuffer (chip w)) (setHeadLoaded true t (drive w)) t s1 s2 s3 w1 Hc0).
      - rewrite He0. reflexivity.
      - apply Transfer_stable.
      - apply Transfer_idle.
      - intros t2 w2.
        apply (exec_rotated_read cmd 0x80 _ _ _ _ t2 d' buf' info);
          [ exact Hc0 | exact Hcmd | reflexivity | exact Hread | exact Htrk
          | exact Hsize ].
      - exact H1. }
    eapply post_weaken; [ exact Hs | | auto ].
    intros u' w2 H2. cbn beta in H2.
    assert (Hr : post (readData times) w2
              (fun bytes w' =>
                 bytes = firstn (length times) (skipn (Z.to_nat 0) buf') /\ Ended w')
              never).
    { apply (readData_spec cmd (trackReg (chip w)) (sectorReg (chip w)) buf' d'
               times He0 Hm).
      - intro Hnil. rewrite Hnil in Htimes. discriminate.
      - lia.
      - lia.
      - rewrite Htimes. exact H2. }
    eapply post_weaken; [ exact Hr | | auto ].
    intros bytes w' [-> Hend]. rewrite Htimes. split; [ reflexivity | exact Hend ]. }
  unfold post in Hpost.
  destruct ((setCommandReg cmd t ;; settle [s1; s2; s3] ;; readData times) w) as [[bytes|f] w'].
  - destruct Hpost as [-> [Hb Hi]]. exists w'.
    split; [ reflexivity | ]. split; [ exact Hb | ]. split; [ exact Hi | ].
    unfold getIRQ, get. simpl. rewrite Hi. reflexivity.
  - contradiction.
Qed.

End Type2.

(** ** Sector writes *)

Lemma list_put_length {A} (n : nat) (v : A) (l : list A) :
  length (list_put n v l) = length l.
Proof.
  revert n. induction l as [|x l IH]; intros [|n]; simpl; try reflexivity.
  rewrite IH. reflexivity.
Qed.

Lemma list_put_firstn {A} (n : nat) (v : A) (l : list A) :
  (n < length l)%nat -> firstn (S n) (list_put n v l) = firstn n l ++ [v].
Proof.
  revert n. induction l as [|x l IH]; intros [|n] H; simpl in *; try lia.
  - reflexivity.
  - f_equal. apply IH. lia.
Qed.

Lemma list_put_skipn {A} (n m : nat) (v : A) (l : list A) :
  (n < m)%nat -> skipn m (list_put n v l) = skipn m l.
Proof.
  revert n m. induction l as [|x l IH]; intros [|n] [|m] H; simpl; try lia;
    try reflexivity.
  apply IH. lia.
Qed.

(** ** Status reads and the peek accessors *)

Section Peek.
Context {D : Type} {drv : DiskDrive D} {clk : Clocks}.
Abbreviation M := (M D).
Abbreviation World := (World D).

Lemma getStatusReg_post (time : EmuTime) (w : World) :
  post (getStatusReg time) w (fun _ w' => INTRQ (chip w') = false) never.
Proof.
  unfold getStatusReg, getDTRQ, endWriteTrackCmd, resetIRQ, endCmd, setIRQ.
  wp; reflexivity.
Qed.

(** C10. Every call of [getStatusReg], and so every call of
    [peekStatusReg], which delegates to it, returns normally and leaves
    the interrupt request line INTRQ clear. *)
Theorem status_read_acknowledges_interrupt (w : World) (time : EmuTime) :
  (exists v w', getStatusReg time w = (Done v, w') /\ INTRQ (chip w') = false) /\
  (exists v w', peekStatusReg time w = (Done v, w') /\ INTRQ (chip w') = false).
Proof.
  assert (H : exists v w',
            getStatusReg time w = (Done v, w') /\ INTRQ (chip w') = false).
  { pose proof (getStatusReg_post time w) as H. unfold post in H.
    destruct (getStatusReg time w) as [[v|f] w'].
    - exists v, w'. split; [ reflexivity | exact H ].
    - contradiction. }
  split; exact H.
Qed.

(** X19.  The peek accessors that do leave the controller alone: the data,
    track and sector registers and the two signal lines. *)
Lemma peek_frame (w : World) (time : EmuTime) :
  snd (peekDataReg time w) = w /\
  snd (peekTrackReg time w) = w /\
  snd (peekSectorReg time w) = w /\
  snd (peekDTRQ time w) = w /\
  snd (peekIRQ time w) = w.
Proof.
  repeat split; try reflexivity.
  unfold peekDataReg, bind, get, buffer_get, ret. simpl.
  destruct ((Z.land (commandReg (chip w)) 224 =? 128)
            && test (statusReg (chip w)) BUSY); [ | reflexivity ].
  destruct (dataCurrent (chip w) <? 0); [ reflexivity | ].
  destruct (nth_error (dataBuffer (chip w)) (Z.to_nat (dataCurrent (chip w))));
    reflexivity.
Qed.


End Peek.

(** ** Force interrupt *)

Lemma byte_forall (p : Z -> bool) :
  forallb p (map Z.of_nat (seq 0 256)) = true ->
  forall x, 0 <= x < 256 -> p x = true.
Proof.
  intros H x Hx. rewrite forallb_forall in H. apply H.
  replace x with (Z.of_nat (Z.to_nat x)) by lia.
  apply in_map, in_seq. lia.
Qed.




Lemma filter_fsm_remove_idx (l : list SyncPoint) :
  filter is_fsm (remove_tag SCHED_IDX_IRQ l) = filter is_fsm l.
Proof.
  induction l as [|[t [|]] l IH]; simpl; try reflexivity.
  rewrite IH. reflexivity.
Qed.



Section Type4.
Context {D : Type} {drv : DiskDrive D} {clk : Clocks}.
Abbreviation M := (M D).
Abbreviation World := (World D).














End Type4.

(** ** Backend exceptions *)

Section Faults.
Context {D : Type} {drv : DiskDrive D} {clk : Clocks}.
Abbreviation M := (M D).
Abbreviation World := (World D).

Abbreviation no_msx := (fun (f : Fault) (_ : World) => f <> MSXException).
Abbreviation anything A := (fun (_ : A) (_ : World) => True).

Lemma contained_post {A} (c : M A) :
  (forall w, post c w (anything A) no_msx) -> contained c.
Proof.
  intros H w. specialize (H w). unfold post in H.
  destruct (c w) as [[a|f] w']; cbn [fst]; [ discriminate | ].
  intro Hf. injection Hf as ->. apply H. reflexivity.
Qed.

Ltac finish := first [ exact I | discriminate ].

Lemma endWriteTrackCmd_contained (w : World) :
  post endWriteTrackCmd w (anything unit) no_msx.
Proof. unfold endWriteTrackCmd, endCmd, setIRQ. wp. all: finish. Qed.

Lemma getDTRQ_contained (time : EmuTime) (w : World) :
  post (getDTRQ time) w (anything bool) no_msx.
Proof.
  unfold getDTRQ, endWriteTrackCmd, endCmd, setIRQ. wp. all: finish.
Qed.

Lemma getStatusReg_contained (time : EmuTime) (w : World) :
  post (getStatusReg time) w (anything byte) no_msx.
Proof.
  pose proof (getStatusReg_post time w) as H.
  eapply post_weaken; [ exact H | auto | intros f w' [] ].
Qed.

Lemma tryToReadSector_contained (w : World) :
  post tryToReadSector w (anything unit) no_msx.
Proof. unfold tryToReadSector, endCmd, setIRQ. wp. all: finish. Qed.

Lemma getDataReg_contained (time : EmuTime) (w : World) :
  post (getDataReg time) w (anything byte) no_msx.
Proof.
  unfold getDataReg, tryToReadSector, setDRQ, endCmd, setIRQ. wp. all: finish.
Qed.

Lemma setDataReg_contained (v : byte) (time : EmuTime) (w : World) :
  post (setDataReg v time) w (anything unit) no_msx.
Proof.
  unfold setDataReg, endWriteTrackCmd, setDRQ, endCmd, setIRQ. wp. all: finish.
Qed.

Lemma executeUntil_contained (time : EmuTime) (tag : SyncPointType) (w : World) :
  post (executeUntil time tag) w (anything unit) no_msx.
Proof.
  unfold executeUntil, seekNext, seek, step, endType1Cmd, type2WaitLoad,
    type2Loaded, type2Rotated, tryToReadSector, type3WaitLoad, type3Loaded,
    readAddressCmd, readTrackCmd, writeTrackCmd, schedule, setDRQ, endCmd, setIRQ.
  destruct tag; wp. all: finish.
Qed.

Lemma fire_all_contained (q : list SyncPoint) (w : World) :
  post (fire_all q) w (anything unit) no_msx.
Proof.
  revert w. induction q as [|sp q IH]; intro w; simpl fire_all.
  - exact I.
  - apply post_bind. unfold post at 1, fire.
    destruct (existsb (SyncPoint_eqb sp) (syncPoints w)).
    + pose proof (executeUntil_contained (sp_time sp) (sp_tag sp)
                    (mkWorld (chip w) (drive w) (remove_one sp (syncPoints w)))) as H.
      unfold post in H.
      destruct (executeUntil (sp_time sp) (sp_tag sp) _) as [[u|f] w'];
        [ apply IH | exact H ].
    + apply IH.
Qed.

Lemma advanceTo_contained (now : EmuTime) (w : World) :
  post (advanceTo now) w (anything unit) no_msx.
Proof. apply fire_all_contained. Qed.

Lemma setCommandReg_contained (v : byte) (time : EmuTime) (w : World) :
  post (setCommandReg v time) w (anything unit) no_msx.
Proof.
  unfold setCommandReg, resetIRQ, startType1Cmd, startType2Cmd, startType3Cmd,
    startType4Cmd, seek, step, endType1Cmd, type2WaitLoad, type3WaitLoad,
    schedule, setDRQ, endCmd, setIRQ.
  wp. all: finish.
Qed.

Lemma read_fault (w : World) (d : D) (buf : list byte) :
  read (sectorReg (chip w)) (dataBuffer (chip w)) (drive w) = (d, buf, None) ->
  post tryToReadSector w
    (fun _ w' => statusReg (chip w') = 0 /\ INTRQ (chip w') = INTRQ (chip w))
    never.
Proof.
  intro Hread. unfold tryToReadSector, endCmd, setIRQ.
  wp.
  all: match goal with H : read _ _ _ = _ |- _ => rewrite Hread in H; try discriminate end.
  split; reflexivity.
Qed.

Lemma write_fault (w : World) (v : byte) (t : EmuTime) (d : D) :
  Z.land (commandReg (chip w)) 0xE0 = 0xA0 ->
  test (statusReg (chip w)) BUSY = true ->
  dataAvailable (chip w) = 1 ->
  0 <= dataCurrent (chip w) < Z.of_nat (length (dataBuffer (chip w))) ->
  write (sectorReg (chip w))
    (list_put (Z.to_nat (dataCurrent (chip w))) v (dataBuffer (chip w))) (drive w)
    = (d, None) ->
  post (setDataReg v t) w
    (fun _ w' => test (statusReg (chip w')) RECORD_NOT_FOUND = true /\ Ended w')
    never.
Proof.
  intros Hcmd Hb Hda Hcur Hwrite.
  unfold setDataReg, setDRQ, endCmd, setIRQ.
  wp_with ltac:(rewrite ?Hcmd, ?Hb, ?Hda in *; flags).
  all: try lia.
  all: match goal with H : write _ _ _ = _ |- _ => rewrite Hwrite in H; try discriminate end.
  unfold Ended; norm. rewrite busy_clear, rnf_clear_busy, rnf_set.
  repeat split; reflexivity.
Qed.

Lemma writeTrack_fault (w : World) (d : D) :
  writeTrackData (dataBuffer (chip w)) (drive w) = (d, None) ->
  post endWriteTrackCmd w
    (fun _ w' =>
       statusReg (chip w') = clear (statusReg (chip w)) BUSY /\ Ended w')
    never.
Proof.
  intro Hw. unfold endWriteTrackCmd, endCmd, setIRQ.
  wp.
  all: match goal with H : writeTrackData _ _ = _ |- _ => rewrite Hw in H; try discriminate end.
  unfold Ended; norm. rewrite busy_clear. repeat split; reflexivity.
Qed.

Lemma post_done {A} (c : M A) (w : World) (Q : A -> World -> Prop) :
  post c w Q never -> exists a w', c w = (Done a, w') /\ Q a w'.
Proof.
  unfold post. destruct (c w) as [[a|f] w']; intro H.
  - exists a, w'. split; [ reflexivity | exact H ].
  - contradiction.
Qed.

(** X23.  No backend exception leaves a register access or a callback, and
    the command is not BUSY once the exception has been handled.  A
    failing [drive.write] sets record-not-found and ends the command
    with the interrupt raised; a failing [drive.writeTrackData] is
    ignored, the command ending with the interrupt raised and the error
    bits untouched; a failing [drive.read] resets the status register
    to 0 and leaves the interrupt line as it was. *)
Theorem media_faults_contained :
  ((forall t, contained (getDataReg t)) /\
   (forall v t, contained (setDataReg v t)) /\
   (forall t, contained (getStatusReg t)) /\
   (forall t, contained (peekStatusReg t)) /\
   (forall t, contained (getDTRQ t)) /\
   (forall v t, contained (setCommandReg v t)) /\
   (forall t tag, contained (executeUntil t tag)) /\
   (forall now, contained (advanceTo now))) /\
  (forall (w : World) d buf,
     read (sectorReg (chip w)) (dataBuffer (chip w)) (drive w) = (d, buf, None) ->
     exists w',
       tryToReadSector w = (Done tt, w') /\
       statusReg (chip w') = 0 /\
       test (statusReg (chip w')) BUSY = false /\
       INTRQ (chip w') = INTRQ (chip w)) /\
  (forall (w : World) v t d,
     Z.land (commandReg (chip w)) 0xE0 = 0xA0 ->
     test (statusReg (chip w)) BUSY = true ->
     dataAvailable (chip w) = 1 ->
     0 <= dataCurrent (chip w) < Z.of_nat (length (dataBuffer (chip w))) ->
     write (sectorReg (chip w))
       (list_put (Z.to_nat (dataCurrent (chip w))) v (dataBuffer (chip w)))
       (drive w) = (d, None) ->
     exists w',
       setDataReg v t w = (Done tt, w') /\
       test (statusReg (chip w')) RECORD_NOT_FOUND = true /\
       test (statusReg (chip w')) BUSY = false /\
       INTRQ (chip w') = true) /\
  (forall (w : World) d,
     writeTrackData (dataBuffer (chip w)) (drive w) = (d, None) ->
     exists w',
       endWriteTrackCmd w = (Done tt, w') /\
       statusReg (chip w') = clear (statusReg (chip w)) BUSY /\
       test (statusReg (chip w')) BUSY = false /\
       INTRQ (chip w') = true).
Proof.
  split; [ | split; [ | split ] ].
  - repeat split; intros; apply contained_post; intro w.
    + apply getDataReg_contained.
    + apply setDataReg_contained.
    + apply getStatusReg_contained.
    + apply getStatusReg_contained.
    + apply getDTRQ_contained.
    + apply setCommandReg_contained.
    + apply executeUntil_contained.
    + apply advanceTo_contained.
  - intros w d buf Hread.
    destruct (post_done _ _ _ (read_fault w d buf Hread)) as ([] & w' & Hrun & Hs & Hi).
    exists w'. split; [ exact Hrun | ]. split; [ exact Hs | ].
    split; [ rewrite Hs; reflexivity | exact Hi ].
  - intros w v t d Hcmd Hb Hda Hcur Hwrite.
    destruct (post_done _ _ _ (write_fault w v t d Hcmd Hb Hda Hcur Hwrite))
      as ([] & w' & Hrun & Hr & Hbusy & Hi).
    exists w'. repeat split; assumption.
  - intros w d Hw.
    destruct (post_done _ _ _ (writeTrack_fault w d Hw))
      as ([] & w' & Hrun & Hs & Hbusy & Hi).
    exists w'. repeat split; assumption.
Qed.

End Faults.

(** ** Reachable states and the transfer counter *)

Section Reach.
Context {D : Type} {drv : DiskDrive D} {clk : Clocks}.
Abbreviation M := (M D).
Abbreviation World := (World D).

Abbreviation whatever := (fun (_ : Fault) (_ : World) => True).

Lemma post_eq {A} (c : M A) (w w' : World) (a : A)
  (Q : A -> World -> Prop) (E : Fault -> World -> Prop) :
  post c w Q E -> c w = (Done a, w') -> Q a w'.
Proof. unfold post. intros H Heq. rewrite Heq in H. exact H. Qed.

Lemma type3_not_type2 (cmd : Z) :
  Z.land cmd 0xF0 = 0xF0 -> Z.land cmd 0xC0 = 0x80 -> False.
Proof.
  intros H1 H2. rewrite (land_narrow cmd 0xF0 0xC0 0xF0 H1) in H2; [ | reflexivity ].
  discriminate.
Qed.

Lemma read_is_type2 (cmd : Z) : Z.land cmd 0xE0 = 0x80 -> Z.land cmd 0xC0 = 0x80.
Proof. intro H. rewrite (land_narrow cmd 0xE0 0xC0 0x80 H); reflexivity. Qed.

Lemma write_is_type2 (cmd : Z) : Z.land cmd 0xE0 = 0xA0 -> Z.land cmd 0xC0 = 0x80.
Proof. intro H. rewrite (land_narrow cmd 0xE0 0xC0 0xA0 H); reflexivity. Qed.

(** Turn the boolean facts collected along a path into equations. *)
Ltac booleans :=
  repeat match goal with
         | H : _ && _ = true |- _ => apply andb_true_iff in H; destruct H
         | H : (_ =? _) = true |- _ => apply Z.eqb_eq in H
         | H : (_ =? _) = false |- _ => apply Z.eqb_neq in H
         | H : negb _ = true |- _ => apply negb_true_iff in H
         | H : negb _ = false |- _ => apply negb_false_iff in H
         end.










Lemma ignore_post {A} (c : M A) (w : World) (Q : World -> Prop) :
  post c w (fun _ w' => Q w') whatever ->
  post (ignore c) w (fun _ w' => Q w') whatever.
Proof.
  intro H. unfold ignore. apply post_bind.
  eapply post_weaken; [ exact H | | auto ].
  intros a w' Hq. exact Hq.
Qed.






End Reach.

(** ** The driving loop preserves reachability *)

Section Driving.
Context {D : Type} {drv : DiskDrive D} {clk : Clocks}.
Abbreviation M := (M D).
Abbreviation World := (World D).

Lemma reachable_settle (late : list nat) (w w' : World) :
  reachable w -> settle late w = (Done tt, w') -> reachable w'.
Proof.
  revert w. induction late as [|s late IH]; intros w Hw Hrun.
  - injection Hrun as <-. exact Hw.
  - simpl in Hrun. destruct (next_fsm_time (syncPoints w)) as [t|].
    + unfold bind in Hrun.
      destruct (advanceTo (t + Z.of_nat s) w) as [[[]|f] w1] eqn:Hadv;
        [ | discriminate ].
      apply (IH w1); [ | exact Hrun ].
      apply (reach_op (OpAdvanceTo (t + Z.of_nat s)) w w1 Hw). exact Hadv.
    + injection Hrun as <-. exact Hw.
Qed.

End Driving.

(** ** At most one FSM callback *)

Lemma fsm_count_app (l : list SyncPoint) (sp : SyncPoint) :
  fsm_count (l ++ [sp]) = (fsm_count l + (if is_fsm sp then 1 else 0))%nat.
Proof.
  unfold fsm_count. rewrite filter_app, length_app. simpl.
  destruct (is_fsm sp); reflexivity.
Qed.

Lemma fsm_count_remove_idx (l : list SyncPoint) :
  fsm_count (remove_tag SCHED_IDX_IRQ l) = fsm_count l.
Proof. unfold fsm_count. rewrite filter_fsm_remove_idx. reflexivity. Qed.

Lemma fsm_count_remove_fsm (l : list SyncPoint) :
  fsm_count (remove_tag SCHED_FSM l) = pred (fsm_count l).
Proof.
  unfold fsm_count. induction l as [|[t [|]] l IH]; simpl; try reflexivity.
  exact IH.
Qed.

Lemma fsm_count_remove_one (sp : SyncPoint) (l : list SyncPoint) :
  (fsm_count (remove_one sp l) <= fsm_count l)%nat.
Proof.
  unfold fsm_count. induction l as [|x l IH]; simpl; [ lia | ].
  destruct (SyncPoint_eqb x sp).
  - destruct (is_fsm x); simpl; lia.
  - simpl. destruct (is_fsm x); simpl; lia.
Qed.

Lemma fsm_count_pending (l : list SyncPoint) :
  pending SCHED_FSM l = false -> fsm_count l = 0%nat.
Proof.
  intro H. apply pending_fsm_filter in H. unfold fsm_count. rewrite H. reflexivity.
Qed.

Section Queue.
Context {D : Type} {drv : DiskDrive D} {clk : Clocks}.
Abbreviation M := (M D).
Abbreviation World := (World D).

Abbreviation whatever := (fun (_ : Fault) (_ : World) => True).

Lemma FsmOnce_one_fsm (w : World) : FsmOnce w -> one_fsm w.
Proof.
  unfold FsmOnce, one_fsm. intro H. apply pending_fsm_filter.
  pose proof (fsm_count_remove_fsm (syncPoints w)) as Hc. unfold fsm_count in *.
  destruct (filter is_fsm (remove_tag SCHED_FSM (syncPoints w))); [ reflexivity | ].
  simpl in Hc. lia.
Qed.

Ltac queue_done :=
  try exact I;
  unfold FsmOnce in *; norm; intros;
  repeat match goal with
         | H : negb (pending SCHED_FSM _) = true |- _ =>
             apply negb_true_iff, fsm_count_pending in H
         | H : pending SCHED_FSM _ = false |- _ => apply fsm_count_pending in H
         end;
  rewrite ?fsm_count_app, ?fsm_count_remove_idx, ?fsm_count_remove_fsm in *;
  cbn [is_fsm SyncPointType_eqb sp_tag Nat.add] in *;
  try lia.

Lemma setCommandReg_queue (v : byte) (t : EmuTime) (w : World) :
  FsmOnce w -> post (setCommandReg v t) w (fun _ w' => FsmOnce w') whatever.
Proof.
  intro Hinv.
  unfold setCommandReg, resetIRQ, startType1Cmd, startType2Cmd, startType3Cmd,
    startType4Cmd, seek, step, endType1Cmd, type2WaitLoad, type3WaitLoad,
    schedule, setDRQ, endCmd, setIRQ.
  wp. all: queue_done.
Qed.

Lemma reset_queue (t : EmuTime) (w : World) :
  FsmOnce w -> post (reset t) w (fun _ w' => FsmOnce w') whatever.
Proof.
  intro Hinv. unfold reset, setDRQ, resetIRQ. wp.
  apply setCommandReg_queue. queue_done.
Qed.

Lemma getDataReg_queue (t : EmuTime) (w : World) :
  FsmOnce w -> post (getDataReg t) w (fun _ w' => FsmOnce w') whatever.
Proof.
  intro Hinv. unfold getDataReg, tryToReadSector, setDRQ, endCmd, setIRQ.
  wp. all: queue_done.
Qed.

Lemma setDataReg_queue (v : byte) (t : EmuTime) (w : World) :
  FsmOnce w -> post (setDataReg v t) w (fun _ w' => FsmOnce w') whatever.
Proof.
  intro Hinv. unfold setDataReg, endWriteTrackCmd, setDRQ, endCmd, setIRQ.
  wp. all: queue_done.
Qed.

Lemma getDTRQ_queue (t : EmuTime) (w : World) :
  FsmOnce w -> post (getDTRQ t) w (fun _ w' => FsmOnce w') whatever.
Proof.
  intro Hinv. unfold getDTRQ, endWriteTrackCmd, endCmd, setIRQ.
  wp. all: queue_done.
Qed.

Lemma getStatusReg_queue (t : EmuTime) (w : World) :
  FsmOnce w -> post (getStatusReg t) w (fun _ w' => FsmOnce w') whatever.
Proof.
  intro Hinv. unfold getStatusReg, getDTRQ, endWriteTrackCmd, resetIRQ, endCmd, setIRQ.
  wp. all: queue_done.
Qed.

Lemma executeUntil_queue (t : EmuTime) (tag : SyncPointType) (w : World) :
  FsmOnce w -> post (executeUntil t tag) w (fun _ w' => FsmOnce w') whatever.
Proof.
  intro Hinv.
  unfold executeUntil, seekNext, seek, step, endType1Cmd, type2WaitLoad,
    type2Loaded, type2Rotated, tryToReadSector, type3WaitLoad, type3Loaded,
    readAddressCmd, readTrackCmd, writeTrackCmd, schedule, setDRQ, endCmd, setIRQ.
  destruct tag; wp. all: queue_done.
Qed.

Lemma fire_all_queue (q : list SyncPoint) (w : World) :
  FsmOnce w -> post (fire_all q) w (fun _ w' => FsmOnce w') whatever.
Proof.
  revert w. induction q as [|sp q IH]; intros w Hinv; simpl fire_all.
  - exact Hinv.
  - apply post_bind. unfold post at 1, fire.
    destruct (existsb (SyncPoint_eqb sp) (syncPoints w)).
    + assert (Hrem : FsmOnce (mkWorld (chip w) (drive w)
                                (remove_one sp (syncPoints w)))).
      { unfold FsmOnce in *. cbn [syncPoints].
        pose proof (fsm_count_remove_one sp (syncPoints w)). lia. }
      pose proof (executeUntil_queue (sp_time sp) (sp_tag sp) _ Hrem) as H.
      unfold post in H.
      destruct (executeUntil (sp_time sp) (sp_tag sp) _) as [[u|f] w'];
        [ apply IH; exact H | exact I ].
    + apply IH. exact Hinv.
Qed.

Lemma perform_queue (op : Op) (w : World) :
  FsmOnce w -> post (perform op) w (fun _ w' => FsmOnce w') whatever.
Proof.
  intro Hinv. destruct op; cbn [perform].
  - apply reset_queue. exact Hinv.
  - apply setCommandReg_queue. exact Hinv.
  - exact Hinv.
  - exact Hinv.
  - apply setDataReg_queue. exact Hinv.
  - apply ignore_post, getStatusReg_queue. exact Hinv.
  - apply ignore_post. exact Hinv.
  - apply ignore_post. exact Hinv.
  - apply ignore_post, getDataReg_queue. exact Hinv.
  - apply ignore_post, getDTRQ_queue. exact Hinv.
  - apply ignore_post. exact Hinv.
  - apply ignore_post, getStatusReg_queue. exact Hinv.
  - apply ignore_post. exact Hinv.
  - apply ignore_post. exact Hinv.
  - apply ignore_post. unfold peekDataReg. wp; first [ exact Hinv | exact I ].
  - apply ignore_post. exact Hinv.
  - apply ignore_post. exact Hinv.
  - apply fire_all_queue. exact Hinv.
Qed.

(** In every reachable state at most one FSM callback is outstanding:
    the hypothesis [one_fsm] of the command theorems holds there. *)
Lemma reachable_one_fsm (w : World) : reachable w -> one_fsm w.
Proof.
  intro Hw. apply FsmOnce_one_fsm.
  induction Hw as [d t w Hnew|op w w' Hw IH Hop|w d Hw IH].
  - assert (H0 : FsmOnce (members d t)) by (unfold FsmOnce, members, fsm_count; simpl; lia).
    exact (post_eq (reset t) (members d t) w tt (fun _ w' => FsmOnce w') whatever
             (reset_queue t (members d t) H0) Hnew).
  - exact (post_eq (perform op) w w' tt (fun _ w' => FsmOnce w') whatever
             (perform_queue op w IH) Hop).
  - exact IH.
Qed.

End Queue.

(** ** Sync point clashes *)

Section Clash.
Context {D : Type} {drv : DiskDrive D} {clk : Clocks}.
Abbreviation M := (M D).
Abbreviation World := (World D).

Abbreviation anything A := (fun (_ : A) (_ : World) => True).
Abbreviation no_clash := (fun (f : Fault) (_ : World) => f <> SyncPointClash).

Ltac clash_done :=
  first
    [ exact I
    | discriminate
    | match goal with
      | H : negb ?p = true, H' : ?p = true |- _ =>
          rewrite H' in H; discriminate H
      end ].

Lemma executeUntil_no_clash (t : EmuTime) (tag : SyncPointType) (w : World) :
  post (executeUntil t tag) w (anything unit) no_clash.
Proof.
  unfold executeUntil, seekNext, seek, step, endType1Cmd, type2WaitLoad,
    type2Loaded, type2Rotated, tryToReadSector, type3WaitLoad, type3Loaded,
    readAddressCmd, readTrackCmd, writeTrackCmd, schedule, setDRQ, endCmd, setIRQ.
  destruct tag; wp. all: clash_done.
Qed.

Lemma fire_all_no_clash (q : list SyncPoint) (w : World) :
  post (fire_all q) w (anything unit) no_clash.
Proof.
  revert w. induction q as [|sp q IH]; intro w; simpl fire_all.
  - exact I.
  - apply post_bind. unfold post at 1, fire.
    destruct (existsb (SyncPoint_eqb sp) (syncPoints w)).
    + pose proof (executeUntil_no_clash (sp_time sp) (sp_tag sp)
                    (mkWorld (chip w) (drive w) (remove_one sp (syncPoints w)))) as H.
      unfold post in H.
      destruct (executeUntil (sp_time sp) (sp_tag sp) _) as [[u|f] w'];
        [ apply IH | exact H ].
    + apply IH.
Qed.

Lemma setCommandReg_clash (v : byte) (t : EmuTime) (w : World) :
  post (setCommandReg v t) w (anything unit)
    (fun f _ =>
       f = SyncPointClash ->
       Z.land v 0xF0 = 0xD0 /\ test (Z.land v 0x0F) IDX_IRQ = true).
Proof.
  unfold setCommandReg, resetIRQ, startType1Cmd, startType2Cmd, startType3Cmd,
    startType4Cmd, seek, step, endType1Cmd, type2WaitLoad, type3WaitLoad,
    schedule, setDRQ, endCmd, setIRQ.
  wp. all: try exact I. all: try discriminate.
  all: try match goal with
           | H : negb ?p = true, H' : ?p = true |- _ =>
               rewrite H' in H; discriminate H
           end.
  all: repeat match goal with
              | H : _ && _ = true |- _ => apply andb_true_iff in H; destruct H
              | H : (_ =? 208) = true |- _ => apply Z.eqb_eq in H
              end.
  all: split; assumption.
Qed.

(** X21.  The FSM tag is never registered twice: whatever the state, the only
    operation that can call [setSyncPoint] on a pending tag is a force
    interrupt command with the index-pulse flag. *)
Lemma clash_only_force_interrupt (op : Op) (w : World) :
  fst (perform op w) = Thrown SyncPointClash ->
  exists v t,
    op = OpSetCommandReg v t /\
    Z.land v 0xF0 = 0xD0 /\ test (Z.land v 0x0F) IDX_IRQ = true.
Proof.
  intro Hrun.
  assert (Hsplit :
    (exists v t, op = OpSetCommandReg v t) \/
    post (perform op) w (anything unit) no_clash).
  { destruct op; cbn [perform]; try (left; eauto; fail); right.
    - unfold reset, setDRQ, resetIRQ. wp.
      eapply post_weaken; [ apply setCommandReg_clash | auto | ].
      cbn beta. intros f w' H Hf. apply H in Hf. destruct Hf as [Hf _].
      vm_compute in Hf. discriminate Hf.
    - exact I.
    - exact I.
    - unfold setDataReg, endWriteTrackCmd, setDRQ, endCmd, setIRQ. wp.
      all: clash_done.
    - unfold ignore, getStatusReg, getDTRQ, endWriteTrackCmd, resetIRQ, endCmd, setIRQ.
      wp. all: clash_done.
    - exact I.
    - exact I.
    - unfold ignore, getDataReg, tryToReadSector, setDRQ, endCmd, setIRQ.
      wp. all: clash_done.
    - unfold ignore, getDTRQ, endWriteTrackCmd, endCmd, setIRQ. wp. all: clash_done.
    - exact I.
    - unfold ignore, peekStatusReg, getStatusReg, getDTRQ, endWriteTrackCmd,
        resetIRQ, endCmd, setIRQ.
      wp. all: clash_done.
    - exact I.
    - exact I.
    - unfold ignore, peekDataReg. wp. all: clash_done.
    - exact I.
    - exact I.
    - apply fire_all_no_clash. }
  destruct Hsplit as [[v [t ->]]|H].
  - exists v, t. split; [ reflexivity | ].
    pose proof (setCommandReg_clash v t w) as H. unfold post in H.
    cbn [perform] in Hrun.
    destruct (setCommandReg v t w) as [[u|f] w']; [ discriminate | ].
    apply H. cbn [fst] in Hrun. congruence.
  - unfold post in H.
    destruct (perform op w) as [[u|f] w']; [ discriminate | ].
    cbn [fst] in Hrun. exfalso. apply H. congruence.
Qed.

End Clash.

(** ** Type I commands: Seek and Restore *)

Section Seek.
Context {D : Type} {drv : DiskDrive D} {clk : Clocks}.
Abbreviation M := (M D).
Abbreviation World := (World D).

Lemma Seeking_stable cmd target k (d : D) t :
  idx_stable (fun w : World => Seeking cmd target k d t w).
Proof.
  intros w sp Hsp H. unfold Seeking in *. norm.
  rewrite remove_one_other by exact Hsp. exact H.
Qed.

Lemma Sought_stable target k (d : D) :
  idx_stable (fun w : World => Sought target k d w).
Proof.
  intros w sp Hsp H. unfold Sought in *. norm.
  rewrite remove_one_other by exact Hsp.
  destruct H as (H1 & H2 & H3 & H4 & H5 & H6). repeat split; assumption.
Qed.

Lemma SeekNext_stable cmd target k (d : D) t :
  idx_stable (fun w : World => SeekNext cmd target k d t w).
Proof.
  unfold SeekNext. destruct (k =? target); [ apply Sought_stable | ].
  destruct (negb (k <? target) && isTrack00 d);
    [ apply Sought_stable | apply Seeking_stable ].
Qed.

Lemma seek_next (cmd target k : byte) (t : EmuTime) (w : World) :
  Z.land cmd 0xE0 = 0 ->
  commandReg (chip w) = cmd ->
  test (statusReg (chip w)) BUSY = true ->
  trackReg (chip w) = k ->
  dataReg (chip w) = target ->
  0 <= k < 256 -> 0 <= target < 256 ->
  filter is_fsm (syncPoints w) = [] ->
  post (seek t) w (fun _ w' => SeekNext cmd target k (drive w) t w') never.
Proof.
  intros Hcmd Hc Hb Htr Hdr Hk Ht Hsp.
  unfold seek, step, endType1Cmd, endCmd, setIRQ, SeekNext.
  wp_with ltac:(rewrite ?Hc, ?Hcmd, ?Htr, ?Hdr, ?orb_true_r in *; flags;
                try discriminate).
  all: try (apply schedule_post; norm; [ exact Hsp | ]).
  all: unfold Sought, Seeking, step_delay; norm;
    rewrite ?busy_clear, ?filter_fsm_app by exact Hsp.
  all: repeat match goal with
              | H : (_ =? _) = true |- _ => apply Z.eqb_eq in H
              | H : (_ =? _) = false |- _ => apply Z.eqb_neq in H
              | H : (_ <? _) = true |- _ => apply Z.ltb_lt in H
              | H : (_ <? _) = false |- _ => apply Z.ltb_ge in H
              end.
  all: unfold wrap8; rewrite ?Z.mod_small by lia.
  all: repeat split; try assumption; try reflexivity; congruence.
Qed.

Lemma exec_seek (cmd target k : byte) (d : D) (t : EmuTime) (w : World) :
  Z.land cmd 0xE0 = 0 ->
  0 <= k < 256 -> 0 <= target < 256 ->
  Seeking cmd target k d t w ->
  post (executeUntil t SCHED_FSM) (fired w t)
    (fun _ w' => SeekNext cmd target k d t w') never.
Proof.
  intros Hcmd Hk Ht (Hc & Hb & Hs & Htr & Hdr & Hd & Hsp).
  assert (H80 : Z.land cmd 0x80 = 0)
    by (rewrite (land_narrow cmd 0xE0 0x80 0 Hcmd); reflexivity).
  apply remove_one_fsm in Hsp.
  unfold executeUntil, seekNext.
  wp_with ltac:(rewrite ?Hs, ?Hc, ?Hcmd, ?H80 in *; flags).
  match goal with
  | |- post (seek t) ?W _ _ =>
      eapply post_weaken;
        [ apply (seek_next cmd target k t W); norm; assumption | | auto ]
  end.
  intros u w' H. norm. rewrite Hd in H. exact H.
Qed.

Lemma Sought_idle target k (d : D) (w : World) :
  Sought target k d w -> filter is_fsm (syncPoints w) = [].
Proof. intro H. apply H. Qed.

Lemma seek_walk_last (dirIn dirIn' : bool) (cmd : byte) (t : EmuTime) (d : D) :
  seek_walk dirIn cmd 0 t d = seek_walk dirIn' cmd 0 t d.
Proof. reflexivity. Qed.

(** From any point of a Seek, [n] tracks from its target, at most [n]
    callbacks end it where [seek_walk] says. *)
Lemma settle_seek (cmd target : byte) :
  Z.land cmd 0xE0 = 0 ->
  0 <= target < 256 ->
  forall (late : list nat) (n : nat) (k : byte) (t : EmuTime) (d : D) (w : World),
    Z.of_nat n = Z.abs (target - k) ->
    (n <= length late)%nat ->
    0 <= k < 256 ->
    SeekNext cmd target k d t w ->
    post (settle late) w
      (fun _ w' =>
         Sought target (if snd (seek_walk (k <? target) cmd n t d) then 0 else target)
           (fst (seek_walk (k <? target) cmd n t d)) w')
      never.
Proof.
  intros Hcmd Ht. induction late as [|s late IH]; intros n k t d w Hn Hlen Hk Hw.
  - simpl in Hlen. assert (n = 0%nat) by lia. subst n.
    assert (k = target) by lia. subst k.
    unfold SeekNext in Hw. rewrite Z.eqb_refl in Hw. exact Hw.
  - unfold SeekNext in Hw. destruct (Z.eqb_spec k target) as [->|Hne].
    + assert (n = 0%nat) by lia. subst n. simpl seek_walk. cbn [fst snd].
      apply (settle_done _ (s :: late) w (Sought_idle target target d) Hw).
    + destruct n as [|n]; [ lia | ]. simpl seek_walk.
      destruct (negb (k <? target) && isTrack00 d) eqn:Hhit.
      * cbn [fst snd].
        apply (settle_done _ (s :: late) w (Sought_idle target 0 d) Hw).
      * pose (k' := if k <? target then k + 1 else k - 1).
        assert (Hk' : 0 <= k' < 256).
        { unfold k'. destruct (Z.ltb_spec k target); lia. }
        assert (Hn' : Z.of_nat n = Z.abs (target - k')).
        { unfold k'. destruct (Z.ltb_spec k target); lia. }
        assert (Hdir : n <> 0%nat -> (k' <? target) = (k <? target)).
        { unfold k'. intro H0. destruct (Z.ltb_spec k target).
          - apply Z.ltb_lt. lia.
          - apply Z.ltb_ge. lia. }
        apply (settle_step
                 (Seeking cmd target k' (drive_step (k <? target) t d)
                    (plus_ms t (step_delay cmd)))
                 (SeekNext cmd target k' (drive_step (k <? target) t d)
                    (plus_ms t (step_delay cmd)))
                 _ (plus_ms t (step_delay cmd)) s late w).
        -- apply Seeking_stable.
        -- apply SeekNext_stable.
        -- intros w0 H0. apply H0.
        -- intros w0 H0. apply exec_seek; assumption.
        -- intros w0 H0.
           destruct n as [|n].
           ++ rewrite (seek_walk_last (k <? target) (k' <? target)).
              apply (IH 0%nat k'); [ exact Hn' | lia | exact Hk' | exact H0 ].
           ++ assert (Hlen' : (S n <= length late)%nat) by (simpl in Hlen; lia).
              pose proof (IH (S n) k' _ _ w0 Hn' Hlen' Hk' H0) as HI.
              rewrite (Hdir ltac:(discriminate)) in HI. exact HI.
        -- exact Hw.
Qed.

Lemma start_seek (w : World) (cmd : byte) (t : EmuTime) :
  Z.land cmd 0xF0 = 0x10 ->
  one_fsm w ->
  0 <= trackReg (chip w) < 256 ->
  0 <= dataReg (chip w) < 256 ->
  post (setCommandReg cmd t) w
    (fun _ w' =>
       SeekNext cmd (dataReg (chip w)) (trackReg (chip w))
         (setHeadLoaded (test cmd H_FLAG) t (drive w)) t w')
    never.
Proof.
  intros Hcmd Hone Hk Ht. apply one_fsm_removed in Hone.
  assert (He0 : Z.land cmd 0xE0 = 0)
    by (rewrite (land_narrow cmd 0xF0 0xE0 0x10 Hcmd); reflexivity).
  unfold setCommandReg, resetIRQ, startType1Cmd, setDRQ.
  wp_with ltac:(rewrite ?Hcmd in *; flags).
  eapply post_weaken;
    [ apply (seek_next cmd (dataReg (chip w)) (trackReg (chip w)) t); norm;
      try reflexivity; try assumption
    | | auto ].
  - apply busy_set.
  - intros u w' H. exact H.
Qed.

Lemma seek_walk_in (cmd : byte) (n : nat) (t : EmuTime) (d : D) :
  seek_walk true cmd n t d = (stepped true (step_delay cmd) n t d, false).
Proof.
  revert t d. induction n as [|n IH]; intros t d; simpl; [ reflexivity | apply IH ].
Qed.

Lemma seek_run (w : World) (cmd : byte) (t : EmuTime) (late : list nat) :
  Z.land cmd 0xF0 = 0x10 ->
  one_fsm w ->
  0 <= trackReg (chip w) < 256 ->
  0 <= dataReg (chip w) < 256 ->
  Z.abs (dataReg (chip w) - trackReg (chip w)) <= Z.of_nat (length late) ->
  post (setCommandReg cmd t ;; settle late) w
    (fun _ w' =>
       let walk :=
         seek_walk (trackReg (chip w) <? dataReg (chip w)) cmd
           (Z.to_nat (Z.abs (dataReg (chip w) - trackReg (chip w)))) t
           (setHeadLoaded (test cmd H_FLAG) t (drive w)) in
       Sought (dataReg (chip w)) (if snd walk then 0 else dataReg (chip w))
         (fst walk) w')
    never.
Proof.
  intros Hcmd Hone Hk Ht Hlen.
  assert (He0 : Z.land cmd 0xE0 = 0)
    by (rewrite (land_narrow cmd 0xF0 0xE0 0x10 Hcmd); reflexivity).
  apply post_bind.
  eapply post_weaken; [ apply (start_seek w cmd t Hcmd Hone Hk Ht) | | auto ].
  intros u w1 H1. cbn beta in H1.
  apply (settle_seek cmd (dataReg (chip w)) He0 Ht late _ (trackReg (chip w)) t _ w1);
    [ lia | lia | exact Hk | exact H1 ].
Qed.

(** X1.  A Seek command (0x1X) run to completion: the drive has been stepped
    towards the track in the data register as [seek_walk] describes, the
    track register holds the target, or 0 if the drive reported track 0
    on the way out, and the command has ended with the interrupt raised;
    that takes no more callbacks than there are tracks to cross. *)
Theorem seek_command (w : World) (cmd : byte) (t : EmuTime) (late : list nat) :
  Z.land cmd 0xF0 = 0x10 ->
  one_fsm w ->
  0 <= trackReg (chip w) < 256 ->
  0 <= dataReg (chip w) < 256 ->
  Z.abs (dataReg (chip w) - trackReg (chip w)) <= Z.of_nat (length late) ->
  exists w',
    (setCommandReg cmd t ;; settle late) w = (Done tt, w') /\
    (let walk :=
       seek_walk (trackReg (chip w) <? dataReg (chip w)) cmd
         (Z.to_nat (Z.abs (dataReg (chip w) - trackReg (chip w)))) t
         (setHeadLoaded (test cmd H_FLAG) t (drive w)) in
     drive w' = fst walk /\
     trackReg (chip w') = if snd walk then 0 else dataReg (chip w)) /\
    dataReg (chip w') = dataReg (chip w) /\
    test (statusReg (chip w')) BUSY = false /\
    INTRQ (chip w') = true /\
    pending SCHED_FSM (syncPoints w') = false.
Proof.
  intros Hcmd Hone Hk Ht Hlen.
  destruct (post_done _ _ _ (seek_run w cmd t late Hcmd Hone Hk Ht Hlen))
    as ([] & w' & Hrun & Htr & Hdr & Hd & Hb & Hi & Hsp).
  exists w'. split; [ exact Hrun | ].
  split; [ split; assumption | ].
  repeat split; try assumption. apply pending_fsm_filter. exact Hsp.
Qed.

(** X2.  A Seek towards a higher track steps the drive in once per track,
    [step_delay] apart, and ends with the track register on the target;
    the track-0 sensor plays no part. *)
Theorem seek_inward (w : World) (cmd : byte) (t : EmuTime) (late : list nat) :
  Z.land cmd 0xF0 = 0x10 ->
  one_fsm w ->
  0 <= trackReg (chip w) < dataReg (chip w) ->
  dataReg (chip w) < 256 ->
  dataReg (chip w) - trackReg (chip w) <= Z.of_nat (length late) ->
  exists w',
    (setCommandReg cmd t ;; settle late) w = (Done tt, w') /\
    drive w' =
      stepped true (step_delay cmd)
        (Z.to_nat (dataReg (chip w) - trackReg (chip w))) t
        (setHeadLoaded (test cmd H_FLAG) t (drive w)) /\
    trackReg (chip w') = dataReg (chip w) /\
    test (statusReg (chip w')) BUSY = false /\
    INTRQ (chip w') = true.
Proof.
  intros Hcmd Hone Hk Ht Hlen.
  assert (Habs : Z.abs (dataReg (chip w) - trackReg (chip w))
                 = dataReg (chip w) - trackReg (chip w)) by lia.
  assert (Hdir : (trackReg (chip w) <? dataReg (chip w)) = true)
    by (apply Z.ltb_lt; lia).
  destruct (post_done _ _ _
              (seek_run w cmd t late Hcmd Hone ltac:(lia) ltac:(lia) ltac:(lia)))
    as ([] & w' & Hrun & Htr & Hdr & Hd & Hb & Hi & Hsp).
  rewrite Habs, Hdir, seek_walk_in in Htr, Hd. cbn [fst snd] in Htr, Hd.
  exists w'. repeat split; assumption.
Qed.

(** *** Restore, as a Seek from track 255 to track 0 *)

Lemma start_restore_walk (w : World) (cmd : byte) (t : EmuTime) :
  Z.land cmd 0xF0 = 0 ->
  one_fsm w ->
  post (setCommandReg cmd t) w
    (fun _ w' =>
       SeekNext cmd 0 0xFF (setHeadLoaded (test cmd H_FLAG) t (drive w)) t w')
    never.
Proof.
  intros Hcmd Hone. apply one_fsm_removed in Hone.
  assert (He0 : Z.land cmd 0xE0 = 0)
    by (rewrite (land_narrow cmd 0xF0 0xE0 0 Hcmd); reflexivity).
  unfold setCommandReg, resetIRQ, startType1Cmd, setDRQ.
  wp_with ltac:(rewrite ?Hcmd in *; flags).
  eapply post_weaken;
    [ apply (seek_next cmd 0 0xFF t); norm; try reflexivity; try assumption
    | | auto ].
  - apply busy_set.
  - lia.
  - lia.
  - intros u w' H. exact H.
Qed.

(** Stepping out [n] times at most: the drive stops at the first
    position, [k] steps on, where it reports track 0. *)
Lemma seek_walk_out (cmd : byte) (n : nat) (t : EmuTime) (d : D) :
  exists k : nat,
    (k <= n)%nat /\
    fst (seek_walk false cmd n t d) = stepped false (step_delay cmd) k t d /\
    (forall j : nat, (j < k)%nat ->
       isTrack00 (stepped false (step_delay cmd) j t d) = false) /\
    (if snd (seek_walk false cmd n t d)
     then isTrack00 (stepped false (step_delay cmd) k t d) = true
     else k = n).
Proof.
  revert t d. induction n as [|n IH]; intros t d.
  - exists 0%nat. simpl. repeat split; try reflexivity. intros j Hj. lia.
  - simpl seek_walk. destruct (isTrack00 d) eqn:H0; cbn [negb andb].
    + exists 0%nat. cbn [fst snd stepped]. repeat split; try assumption; try lia.
    + destruct (IH (plus_ms t (step_delay cmd)) (drive_step false t d))
        as (k & Hk & Hd & Hmid & Hend).
      exists (S k). split; [ lia | ]. split; [ exact Hd | ]. split.
      * intros [|j] Hj; [ exact H0 | ]. simpl. apply Hmid. lia.
      * simpl stepped. destruct (snd (seek_walk false cmd n _ _)); [ exact Hend | lia ].
Qed.

(** C7. After a Restore command (0x0X) has run to completion the track
    register is 0 and BUSY is clear.  The head was stepped outward, one
    [drive.step] at the dispatch and one per callback, [step_delay]
    apart, [k] times in all: no position before the last reported
    track 0, and the stepping stopped because the drive reported track 0
    or, failing that, after the 255 steps that bring the track register
    from 0xFF down to 0. *)
Theorem restore_command (w : World) (cmd : byte) (t : EmuTime)
  (late : list nat) :
  Z.land cmd 0xF0 = 0 ->
  one_fsm w ->
  (255 <= length late)%nat ->
  exists w',
    (setCommandReg cmd t ;; settle late) w = (Done tt, w') /\
    trackReg (chip w') = 0 /\
    test (statusReg (chip w')) BUSY = false /\
    pending SCHED_FSM (syncPoints w') = false /\
    INTRQ (chip w') = true /\
    exists k : nat,
      (k <= 255)%nat /\
      drive w' =
        stepped false (step_delay cmd) k t
          (setHeadLoaded (test cmd H_FLAG) t (drive w)) /\
      (forall j : nat, (j < k)%nat ->
         isTrack00 (stepped false (step_delay cmd) j t
                      (setHeadLoaded (test cmd H_FLAG) t (drive w))) = false) /\
      (isTrack00 (drive w') = true \/ k = 255%nat).
Proof.
  intros Hcmd Hone Hlate.
  assert (He0 : Z.land cmd 0xE0 = 0)
    by (rewrite (land_narrow cmd 0xF0 0xE0 0 Hcmd); reflexivity).
  set (d0 := setHeadLoaded (test cmd H_FLAG) t (drive w)).
  assert (Hpost : post (setCommandReg cmd t ;; settle late) w
                    (fun _ w' =>
                       Sought 0 0 (fst (seek_walk false cmd 255 t d0)) w')
                    never).
  { apply post_bind.
    eapply post_weaken; [ apply (start_restore_walk w cmd t Hcmd Hone) | | auto ].
    intros u w1 H1. cbn beta in H1. fold d0 in H1.
    eapply post_weaken;
      [ apply (settle_seek cmd 0 He0 ltac:(lia) late 255%nat 0xFF t d0 w1);
        [ reflexivity | exact Hlate | lia | exact H1 ]
      | | auto ].
    cbn beta. intros u' w' H.
    change (0xFF <? 0) with false in H.
    destruct (snd (seek_walk false cmd 255 t d0)); exact H. }
  destruct (post_done _ _ _ Hpost) as ([] & w' & Hrun & Htr & Hdr & Hd & Hb & Hi & Hsp).
  destruct (seek_walk_out cmd 255 t d0) as (k & Hk & Hwalk & Hmid & Hend).
  exists w'. split; [ exact Hrun | ]. split; [ exact Htr | ].
  split; [ exact Hb | ]. split; [ apply pending_fsm_filter; exact Hsp | ].
  split; [ exact Hi | ].
  exists k. split; [ exact Hk | ]. split; [ rewrite Hd; exact Hwalk | ].
  split; [ exact Hmid | ].
  destruct (snd (seek_walk false cmd 255 t d0)).
  - left. rewrite Hd, Hwalk. exact Hend.
  - right. exact Hend.
Qed.

End Seek.

(** ** Type I commands: Step *)

Section Step.
Context {D : Type} {drv : DiskDrive D} {clk : Clocks}.
Abbreviation M := (M D).
Abbreviation World := (World D).

Lemma Stepping_stable cmd k dirIn (d : D) t :
  idx_stable (fun w : World => Stepping cmd k dirIn d t w).
Proof.
  intros w sp Hsp H. unfold Stepping in *. norm.
  rewrite remove_one_other by exact Hsp. exact H.
Qed.

Lemma Stepped_stable k dirIn (d : D) :
  idx_stable (fun w : World => Stepped k dirIn d w).
Proof.
  intros w sp Hsp H. unfold Stepped in *. norm.
  rewrite remove_one_other by exact Hsp.
  destruct H as (H1 & H2 & H3 & H4 & H5 & H6). repeat split; assumption.
Qed.

Lemma Stepped_idle k dirIn (d : D) (w : World) :
  Stepped k dirIn d w -> filter is_fsm (syncPoints w) = [].
Proof. intro H. apply H. Qed.

Lemma step_nibble (cmd : Z) :
  0 <= cmd < 256 -> Z.land cmd 0x80 = 0 -> Z.land cmd 0xE0 <> 0 ->
  In (Z.land cmd 0xF0) [0x20; 0x30; 0x40; 0x50; 0x60; 0x70].
Proof.
  intros H H80 He0.
  pose (p := fun c => negb (Z.land c 0x80 =? 0) || (Z.land c 0xE0 =? 0)
                      || existsb (Z.eqb (Z.land c 0xF0)) [0x20; 0x30; 0x40; 0x50; 0x60; 0x70]).
  assert (Hp : p cmd = true)
    by (apply (byte_forall p); [ vm_compute; reflexivity | exact H ]).
  unfold p in Hp. apply Z.eqb_eq in H80. apply Z.eqb_neq in He0.
  rewrite H80, He0 in Hp. cbn [negb orb] in Hp.
  apply existsb_exists in Hp. destruct Hp as [x [Hin Hx]].
  apply Z.eqb_eq in Hx. rewrite Hx. exact Hin.
Qed.

Lemma start_step (w : World) (cmd hi : byte) (t : EmuTime) :
  Z.land cmd 0xF0 = hi ->
  In hi [0x20; 0x30; 0x40; 0x50; 0x60; 0x70] ->
  one_fsm w ->
  post (setCommandReg cmd t) w
    (fun _ w' =>
       let dir := step_direction cmd (directionIn (chip w)) in
       let d0 := setHeadLoaded (test cmd H_FLAG) t (drive w) in
       let k := if test cmd T_FLAG
                then wrap8 (trackReg (chip w) + (if dir then 1 else -1))
                else trackReg (chip w) in
       if negb dir && isTrack00 d0 then Stepped 0 dir d0 w'
       else Stepping cmd k dir (drive_step dir t d0)
              (plus_ms t (step_delay cmd)) w')
    never.
Proof.
  intros Hhi Hin Hone. apply one_fsm_removed in Hone.
  assert (He0 : Z.land cmd 0xE0 = Z.land hi 0xE0).
  { rewrite <- Hhi, <- Z.land_assoc. reflexivity. }
  assert (Ht : test cmd T_FLAG = test hi T_FLAG).
  { unfold test, T_FLAG. rewrite <- Hhi, <- Z.land_assoc. reflexivity. }
  unfold step_direction. rewrite He0, Ht.
  simpl in Hin.
  repeat (destruct Hin as [Hin|Hin]; [ rewrite <- Hin in *; clear Hin | ]);
    try contradiction.
  all: unfold setCommandReg, resetIRQ, startType1Cmd, setDRQ, step, endType1Cmd,
         endCmd, setIRQ.
  all: wp_with ltac:(rewrite ?Hhi, ?He0, ?Ht in *; flags).
  all: try (apply schedule_post; norm; [ exact Hone | ]).
  all: unfold Stepped, Stepping, step_delay; norm;
    rewrite ?busy_clear, ?busy_set, ?filter_fsm_app by exact Hone.
  all: repeat split; try assumption; reflexivity.
Qed.

Lemma exec_step (cmd k : byte) (dirIn : bool) (d : D) (t : EmuTime) (w : World) :
  Z.land cmd 0x80 = 0 ->
  Z.land cmd 0xE0 <> 0 ->
  Stepping cmd k dirIn d t w ->
  post (executeUntil t SCHED_FSM) (fired w t)
    (fun _ w' => Stepped k dirIn d w') never.
Proof.
  intros H80 He0 (Hc & Hb & Hs & Htr & Hdir & Hd & Hsp).
  apply Z.eqb_neq in He0.
  apply remove_one_fsm in Hsp.
  unfold executeUntil, seekNext, endType1Cmd, endCmd, setIRQ.
  wp_with ltac:(rewrite ?Hs, ?Hc, ?H80, ?He0 in *; flags).
  unfold Stepped; norm. rewrite busy_clear. repeat split; assumption.
Qed.

(** X3.  A Step, Step-in or Step-out command (0x2X to 0x7X) run to
    completion: one [drive.step] in the direction of the command, the
    track register moved by one, modulo 256, only if the T flag is set.
    When the head is to move out and the drive reports track 0, the
    drive is not stepped and the track register is set to 0, T flag or
    not. *)
Theorem step_command (w : World) (cmd : byte) (t : EmuTime) (s : nat)
  (late : list nat) :
  0 <= cmd < 256 ->
  Z.land cmd 0x80 = 0 ->
  Z.land cmd 0xE0 <> 0 ->
  one_fsm w ->
  exists w',
    (setCommandReg cmd t ;; settle (s :: late)) w = (Done tt, w') /\
    (let dir := step_direction cmd (directionIn (chip w)) in
     let d0 := setHeadLoaded (test cmd H_FLAG) t (drive w) in
     directionIn (chip w') = dir /\
     drive w' = (if negb dir && isTrack00 d0 then d0 else drive_step dir t d0) /\
     trackReg (chip w') =
       (if negb dir && isTrack00 d0 then 0
        else if test cmd T_FLAG
             then wrap8 (trackReg (chip w) + (if dir then 1 else -1))
             else trackReg (chip w))) /\
    test (statusReg (chip w')) BUSY = false /\
    INTRQ (chip w') = true /\
    pending SCHED_FSM (syncPoints w') = false.
Proof.
  intros Hcmd H80 He0 Hone.
  pose proof (step_nibble cmd Hcmd H80 He0) as Hin.
  set (dir := step_direction cmd (directionIn (chip w))).
  set (d0 := setHeadLoaded (test cmd H_FLAG) t (drive w)).
  set (k := if test cmd T_FLAG
            then wrap8 (trackReg (chip w) + (if dir then 1 else -1))
            else trackReg (chip w)).
  assert (Hpost :
    post (setCommandReg cmd t ;; settle (s :: late)) w
      (fun _ w' =>
         Stepped (if negb dir && isTrack00 d0 then 0 else k) dir
           (if negb dir && isTrack00 d0 then d0 else drive_step dir t d0) w')
      never).
  { apply post_bind.
    eapply post_weaken; [ apply (start_step w cmd _ t eq_refl Hin Hone) | | auto ].
    intros u w1 H1. cbn beta zeta in H1. fold dir d0 k in H1.
    destruct (negb dir && isTrack00 d0).
    - apply (settle_done _ (s :: late) w1 (Stepped_idle 0 dir d0) H1).
    - apply (settle_step
               (Stepping cmd k dir (drive_step dir t d0) (plus_ms t (step_delay cmd)))
               (Stepped k dir (drive_step dir t d0))
               _ (plus_ms t (step_delay cmd)) s late w1).
      + apply Stepping_stable.
      + apply Stepped_stable.
      + intros w0 H0. apply H0.
      + intros w0 H0. apply (exec_step cmd k dir _ _ w0 H80 He0 H0).
      + intros w0 H0. apply (settle_done _ late w0 (Stepped_idle k dir _) H0).
      + exact H1. }
  destruct (post_done _ _ _ Hpost) as ([] & w' & Hrun & Htr & Hdir & Hd & Hb & Hi & Hsp).
  exists w'. split; [ exact Hrun | ].
  split; [ cbn zeta; fold dir d0 k; repeat split; assumption | ].
  repeat split; try assumption. apply pending_fsm_filter. exact Hsp.
Qed.

End Step.

(** ** Type II commands with the status byte tracked *)

(** Read a status flag off a chain of [set] and [clear]. *)
Ltac const_bits k :=
  repeat match goal with
         | |- context [Z.testbit ?c k] =>
             let v := eval vm_compute in (Z.testbit c k) in
             lazymatch v with
             | true => change (Z.testbit c k) with true
             | false => change (Z.testbit c k) with false
             end
         end.

Ltac flag_bit k :=
  rewrite !(test_bit _ _ k) by (first [ lia | reflexivity ]);
  repeat first [ rewrite testbit_clear by lia | rewrite testbit_set ];
  const_bits k;
  cbn [negb];
  repeat first
    [ rewrite andb_true_r | rewrite andb_false_r
    | rewrite orb_true_r | rewrite orb_false_r ];
  cbn [andb orb];
  try reflexivity.

Section Type2S.
Context {D : Type} {drv : DiskDrive D} {clk : Clocks}.
Abbreviation M := (M D).
Abbreviation World := (World D).

Lemma Type2WaitS_stable v cmd tr sec buf (d : D) st t :
  idx_stable (Type2WaitS v cmd tr sec buf d st t).
Proof.
  intros w sp Hsp [H1 H2]. split.
  - apply Type2Wait_stable; assumption.
  - exact H2.
Qed.

Lemma TransferS_stable v drq cmd tr sec buf (d : D) cur avail :
  idx_stable (TransferS v drq cmd tr sec buf d cur avail).
Proof.
  intros w sp Hsp [H1 H2]. split.
  - apply Transfer_stable; assumption.
  - exact H2.
Qed.

Lemma Finished_stable v (d : D) : idx_stable (fun w : World => Finished v d w).
Proof.
  intros w sp Hsp H. unfold Finished in *. norm.
  rewrite remove_one_other by exact Hsp.
  destruct H as (H1 & H2 & H3 & H4 & H5). repeat split; assumption.
Qed.

Lemma Finished_idle v (d : D) (w : World) :
  Finished v d w -> filter is_fsm (syncPoints w) = [].
Proof. intro H. apply H. Qed.

Lemma TransferS_idle v drq cmd tr sec buf (d : D) cur avail (w : World) :
  TransferS v drq cmd tr sec buf d cur avail w -> filter is_fsm (syncPoints w) = [].
Proof. intros [H _]. apply H. Qed.

Lemma Type2WaitS_pending v cmd tr sec buf (d : D) st t (w : World) :
  Type2WaitS v cmd tr sec buf d st t w -> filter is_fsm (syncPoints w) = [fsm_at t].
Proof. intros [H _]. apply H. Qed.

Lemma type2_nibble (cmd : Z) :
  Z.land cmd 0xC0 = 0x80 ->
  In (Z.land cmd 0xF0) [0x80; 0x90; 0xA0; 0xB0].
Proof.
  intro H. change 0xF0 with (Z.lor (Z.lor 0xC0 (2 ^ 5)) (2 ^ 4)).
  rewrite !Z.land_lor_distr_r, H, !land_pow2 by lia.
  destruct (Z.testbit cmd 5), (Z.testbit cmd 4); simpl; auto.
Qed.

Lemma start_type2S (w : World) (cmd : byte) (t : EmuTime) :
  Z.land cmd 0xC0 = 0x80 ->
  isDiskInserted (drive w) = true ->
  one_fsm w ->
  post (setCommandReg cmd t) w
    (fun _ w' =>
       Type2WaitS (type2_status (statusReg (chip w))) cmd
         (trackReg (chip w)) (sectorReg (chip w)) (dataBuffer (chip w))
         (setHeadLoaded true t (drive w))
         (if test cmd E_FLAG then FSM_TYPE2_WAIT_LOAD else FSM_TYPE2_LOADED)
         (if test cmd E_FLAG then plus_ms t 30 else plus_ms t 1) w')
    never.
Proof.
  intros Hc Hins Hone.
  pose proof (type2_nibble cmd Hc) as Hin.
  assert (Hpost : forall hi, Z.land cmd 0xF0 = hi -> In hi [0x80; 0x90; 0xA0; 0xB0] ->
            post (setCommandReg cmd t) w
              (fun _ w' => statusReg (chip w') = type2_status (statusReg (chip w))
                           /\ transferring (chip w') = false)
              (fun _ _ => True)).
  { intros hi Hhi Hin'. simpl in Hin'.
    repeat (destruct Hin' as [Hin'|Hin']; [ rewrite <- Hin' in *; clear Hin' | ]);
      try contradiction.
    all: unfold setCommandReg, resetIRQ, startType2Cmd, setDRQ, type2WaitLoad,
           schedule, endCmd, setIRQ.
    all: wp_with ltac:(rewrite ?Hhi, ?Hins in *; flags).
    all: first [ exact I | split; reflexivity | discriminate ]. }
  assert (Hwait : post (setCommandReg cmd t) w
            (fun _ w' =>
               Type2Wait cmd (trackReg (chip w)) (sectorReg (chip w))
                 (dataBuffer (chip w)) (setHeadLoaded true t (drive w))
                 (if test cmd E_FLAG then FSM_TYPE2_WAIT_LOAD else FSM_TYPE2_LOADED)
                 (if test cmd E_FLAG then plus_ms t 30 else plus_ms t 1) w')
            never).
  { simpl in Hin.
    repeat (destruct Hin as [Hin|Hin];
            [ symmetry in Hin;
              apply (start_type2 w cmd _ t Hin); try reflexivity; assumption | ]).
    contradiction. }
  specialize (Hpost _ eq_refl Hin).
  unfold post in *. destruct (setCommandReg cmd t w) as [[u|f] w'].
  - split; assumption.
  - exact Hwait.
Qed.

Ltac open_wait H :=
  destruct H as [(Hc & Hb & Hs & Htr & Hsec & Hbuf & Hd & Hsp) [Hst Htf]];
  apply remove_one_fsm in Hsp.

Lemma exec_wait_loadS v cmd tr sec buf (d : D) t (w : World) :
  Z.land cmd 0xC0 = 0x80 ->
  Type2WaitS v cmd tr sec buf d FSM_TYPE2_WAIT_LOAD t w ->
  post (executeUntil t SCHED_FSM) (fired w t)
    (fun _ w' => Type2WaitS v cmd tr sec buf d FSM_TYPE2_LOADED (plus_ms t 1) w')
    never.
Proof.
  intros Hcmd H. open_wait H.
  unfold executeUntil, type2WaitLoad.
  wp_with ltac:(rewrite ?Hs, ?Hc, ?Hcmd in *; flags).
  apply schedule_post; norm; [ exact Hsp | ].
  unfold Type2WaitS, Type2Wait; norm. rewrite filter_fsm_app by exact Hsp.
  repeat split; assumption.
Qed.

Lemma exec_loadedS v cmd tr sec buf (d : D) t (w : World) :
  Z.land cmd 0xC0 = 0x80 ->
  (Z.land cmd 0xE0 =? 0xA0) && isWriteProtected d = false ->
  Type2WaitS v cmd tr sec buf d FSM_TYPE2_LOADED t w ->
  post (executeUntil t SCHED_FSM) (fired w t)
    (fun _ w' =>
       Type2WaitS v cmd tr sec buf d FSM_TYPE2_ROTATED (getTimeTillSector d sec t) w')
    never.
Proof.
  intros Hcmd Hwp H. open_wait H.
  unfold executeUntil, type2Loaded.
  wp_with ltac:(rewrite ?Hs, ?Hc, ?Hcmd, ?Hd, ?Hwp in *; flags).
  apply schedule_post; norm; [ exact Hsp | ].
  unfold Type2WaitS, Type2Wait; norm. rewrite filter_fsm_app by exact Hsp.
  rewrite Hsec. repeat split; assumption.
Qed.


Lemma exec_rotated_readS v cmd tr sec buf (d : D) t d' buf' info (w : World) :
  Z.land cmd 0xE0 = 0x80 ->
  read sec buf d = (d', buf', Some info) ->
  onDiskTrack info = tr ->
  onDiskSize info = 512 ->
  Type2WaitS v cmd tr sec buf d FSM_TYPE2_ROTATED t w ->
  post (executeUntil t SCHED_FSM) (fired w t)
    (fun _ w' => TransferS v false cmd tr sec buf' d' 0 512 w')
    never.
Proof.
  intros Hcmd Hread Htrk Hsize H.
  assert (Hc0 : Z.land cmd 0xC0 = 0x80)
    by (rewrite (land_narrow cmd 0xE0 0xC0 0x80 Hcmd); reflexivity).
  assert (Hone : one_of (Z.land cmd 0xF0) [0x80; 0x90] = true).
  { change 0xF0 with (Z.lor 0xE0 (2 ^ 4)).
    rewrite Z.land_lor_distr_r, Hcmd, land_pow2 by lia.
    destruct (Z.testbit cmd 4); reflexivity. }
  open_wait H.
  unfold executeUntil, type2Rotated, tryToReadSector.
  wp_with ltac:(rewrite ?Hs, ?Hc, ?Hc0, ?Hone, ?Hsec, ?Hbuf, ?Hd, ?Htr in *; flags).
  all: match goal with H : read _ _ _ = _ |- _ => rewrite Hread in H; inversion H; subst end.
  all: norm.
  all: rewrite ?Z.eqb_refl in *; try discriminate.
  - unfold TransferS, Transfer; norm. rewrite Hsize. repeat split; assumption.
  - rewrite Hsize in *. discriminate.
Qed.

(** The sector header found names another track than the track
    register. *)
Lemma exec_rotated_mismatch v cmd tr sec buf (d : D) t d' buf' info (w : World) :
  Z.land cmd 0xE0 = 0x80 ->
  read sec buf d = (d', buf', Some info) ->
  onDiskTrack info <> tr ->
  Type2WaitS v cmd tr sec buf d FSM_TYPE2_ROTATED t w ->
  post (executeUntil t SCHED_FSM) (fired w t)
    (fun _ w' => Finished (clear (set v RECORD_NOT_FOUND) BUSY) d' w')
    never.
Proof.
  intros Hcmd Hread Htrk H.
  assert (Hc0 : Z.land cmd 0xC0 = 0x80)
    by (rewrite (land_narrow cmd 0xE0 0xC0 0x80 Hcmd); reflexivity).
  assert (Hone : one_of (Z.land cmd 0xF0) [0x80; 0x90] = true).
  { change 0xF0 with (Z.lor 0xE0 (2 ^ 4)).
    rewrite Z.land_lor_distr_r, Hcmd, land_pow2 by lia.
    destruct (Z.testbit cmd 4); reflexivity. }
  apply Z.eqb_neq in Htrk.
  open_wait H.
  unfold executeUntil, type2Rotated, tryToReadSector, endCmd, setIRQ.
  wp_with ltac:(rewrite ?Hs, ?Hc, ?Hc0, ?Hone, ?Hsec, ?Hbuf, ?Hd, ?Htr in *; flags).
  all: match goal with H : read _ _ _ = _ |- _ => rewrite Hread in H; inversion H; subst end.
  all: norm.
  all: try (rewrite Htrk in *; discriminate).
  unfold Finished; norm. repeat split; assumption.
Qed.

(** The backend throws on the read: the status register is zeroed and
    nothing else is reported. *)
Lemma exec_rotated_fault v cmd tr sec buf (d : D) t d' buf' (w : World) :
  Z.land cmd 0xE0 = 0x80 ->
  read sec buf d = (d', buf', None) ->
  Type2WaitS v cmd tr sec buf d FSM_TYPE2_ROTATED t w ->
  post (executeUntil t SCHED_FSM) (fired w t)
    (fun _ w' =>
       statusReg (chip w') = 0 /\ INTRQ (chip w') = INTRQ (chip w) /\
       transferring (chip w') = false /\ DRQ (chip w') = false /\
       drive w' = d' /\ filter is_fsm (syncPoints w') = [])
    never.
Proof.
  intros Hcmd Hread H.
  assert (Hc0 : Z.land cmd 0xC0 = 0x80)
    by (rewrite (land_narrow cmd 0xE0 0xC0 0x80 Hcmd); reflexivity).
  assert (Hone : one_of (Z.land cmd 0xF0) [0x80; 0x90] = true).
  { change 0xF0 with (Z.lor 0xE0 (2 ^ 4)).
    rewrite Z.land_lor_distr_r, Hcmd, land_pow2 by lia.
    destruct (Z.testbit cmd 4); reflexivity. }
  open_wait H.
  unfold executeUntil, type2Rotated, tryToReadSector, endCmd, setIRQ.
  wp_with ltac:(rewrite ?Hs, ?Hc, ?Hc0, ?Hone, ?Hsec, ?Hbuf, ?Hd, ?Htr in *; flags).
  all: match goal with H : read _ _ _ = _ |- _ => rewrite Hread in H; inversion H; subst end.
  norm. repeat split; assumption.
Qed.

Lemma exec_rotated_writeS v cmd tr sec buf (d : D) t (w : World) :
  Z.land cmd 0xE0 = 0xA0 ->
  Type2WaitS v cmd tr sec buf d FSM_TYPE2_ROTATED t w ->
  post (executeUntil t SCHED_FSM) (fired w t)
    (fun _ w' => TransferS v true cmd tr sec buf d 0 512 w')
    never.
Proof.
  intros Hcmd H.
  assert (Hc0 : Z.land cmd 0xC0 = 0x80)
    by (rewrite (land_narrow cmd 0xE0 0xC0 0xA0 Hcmd); reflexivity).
  assert (Hr : one_of (Z.land cmd 0xF0) [0x80; 0x90] = false
               /\ one_of (Z.land cmd 0xF0) [0xA0; 0xB0] = true).
  { change 0xF0 with (Z.lor 0xE0 (2 ^ 4)).
    rewrite Z.land_lor_distr_r, Hcmd, land_pow2 by lia.
    destruct (Z.testbit cmd 4); split; reflexivity. }
  destruct Hr as [Hr Hone].
  open_wait H.
  unfold executeUntil, type2Rotated.
  wp_with ltac:(rewrite ?Hs, ?Hc, ?Hc0, ?Hr, ?Hone in *; flags).
  unfold TransferS, Transfer; norm. repeat split; assumption.
Qed.


Lemma settle_type2S (Q : World -> Prop) v cmd tr sec buf (d : D) t
  (s1 s2 s3 : nat) (late : list nat) (w : World) :
  Z.land cmd 0xC0 = 0x80 ->
  (Z.land cmd 0xE0 =? 0xA0) && isWriteProtected d = false ->
  idx_stable Q ->
  (forall w', Q w' -> filter is_fsm (syncPoints w') = []) ->
  (forall t2 w2,
     Type2WaitS v cmd tr sec buf d FSM_TYPE2_ROTATED t2 w2 ->
     post (executeUntil t2 SCHED_FSM) (fired w2 t2) (fun _ w' => Q w') never) ->
  Type2WaitS v cmd tr sec buf d
    (if test cmd E_FLAG then FSM_TYPE2_WAIT_LOAD else FSM_TYPE2_LOADED)
    (if test cmd E_FLAG then plus_ms t 30 else plus_ms t 1) w ->
  post (settle (s1 :: s2 :: s3 :: late)) w (fun _ w' => Q w') never.
Proof.
  intros Hc Hw HQ Hidle Hexec Hstart.
  assert (Hrot : forall s late t2 w2,
            Type2WaitS v cmd tr sec buf d FSM_TYPE2_ROTATED t2 w2 ->
            post (settle (s :: late)) w2 (fun _ w' => Q w') never).
  { intros s late' t2 w2 H2.
    apply (settle_step (Type2WaitS v cmd tr sec buf d FSM_TYPE2_ROTATED t2)
             Q _ t2 s late' w2).
    - apply Type2WaitS_stable.
    - exact HQ.
    - apply Type2WaitS_pending.
    - intros w3. apply Hexec.
    - intros w3 H3. apply (settle_done _ late' w3 Hidle H3).
    - exact H2. }
  assert (Hload : forall s s' late t1 w1,
            Type2WaitS v cmd tr sec buf d FSM_TYPE2_LOADED t1 w1 ->
            post (settle (s :: s' :: late)) w1 (fun _ w' => Q w') never).
  { intros s s' late' t1 w1 H1.
    apply (settle_step (Type2WaitS v cmd tr sec buf d FSM_TYPE2_LOADED t1)
             (Type2WaitS v cmd tr sec buf d FSM_TYPE2_ROTATED (getTimeTillSector d sec t1))
             _ t1 s (s' :: late') w1).
    - apply Type2WaitS_stable.
    - apply Type2WaitS_stable.
    - apply Type2WaitS_pending.
    - intros w2. apply exec_loadedS; [ exact Hc | exact Hw ].
    - intros w2 H2. apply (Hrot s' late' _ w2 H2).
    - exact H1. }
  destruct (test cmd E_FLAG).
  - apply (settle_step (Type2WaitS v cmd tr sec buf d FSM_TYPE2_WAIT_LOAD (plus_ms t 30))
             (Type2WaitS v cmd tr sec buf d FSM_TYPE2_LOADED (plus_ms (plus_ms t 30) 1))
             _ (plus_ms t 30) s1 (s2 :: s3 :: late) w).
    + apply Type2WaitS_stable.
    + apply Type2WaitS_stable.
    + apply Type2WaitS_pending.
    + intros w1. apply exec_wait_loadS. exact Hc.
    + intros w1 H1. apply (Hload s2 s3 late _ w1 H1).
    + exact Hstart.
  - apply (Hload s1 s2 (s3 :: late) _ w Hstart).
Qed.

Lemma type2_status_flags (s : byte) :
  test (clear (type2_status s) BUSY) BUSY = false /\
  test (clear (type2_status s) BUSY) LOST_DATA = false /\
  test (clear (type2_status s) BUSY) RECORD_NOT_FOUND = false /\
  test (clear (type2_status s) BUSY) RECORD_TYPE = false /\
  test (clear (type2_status s) BUSY) WRITE_PROTECTED = false.
Proof.
  unfold type2_status. repeat split.
  - flag_bit 0.
  - flag_bit 2.
  - flag_bit 4.
  - flag_bit 5.
  - flag_bit 6.
Qed.

Ltac open_transfer H :=
  destruct H as [(Hc & Hb & Htr & Hsec & Hbuf & Hd & Hdc & Hda & Hsp)
                   (Hst & Htf & Hdrq)].

(** *** Sector writes that succeed *)

Lemma setDataReg_midS v drq cmd tr sec buf (d : D) cur avail x t (w : World) :
  Z.land cmd 0xE0 = 0xA0 ->
  0 <= cur < Z.of_nat (length buf) ->
  avail <> 1 ->
  TransferS v drq cmd tr sec buf d cur avail w ->
  post (setDataReg x t) w
    (fun _ w' =>
       TransferS v false cmd tr sec (list_put (Z.to_nat cur) x buf) d
         (cur + 1) (avail - 1) w')
    never.
Proof.
  intros Hcmd Hcur Havail H. open_transfer H.
  assert (Hne : (avail - 1 =? 0) = false) by (apply Z.eqb_neq; lia).
  unfold setDataReg, setDRQ.
  wp_with ltac:(rewrite ?Hc, ?Hcmd, ?Hb, ?Hbuf, ?Hdc, ?Hda, ?Hne in *; flags).
  - unfold TransferS, Transfer; norm. repeat split; assumption.
  - lia.
Qed.

Lemma setDataReg_lastS v drq cmd tr sec buf (d : D) cur x t d' info (w : World) :
  Z.land cmd 0xE0 = 0xA0 ->
  0 <= cur < Z.of_nat (length buf) ->
  write sec (list_put (Z.to_nat cur) x buf) d = (d', Some info) ->
  onDiskTrack info = tr ->
  onDiskSize info = 512 ->
  TransferS v drq cmd tr sec buf d cur 1 w ->
  post (setDataReg x t) w
    (fun _ w' => Finished (clear v BUSY) d' w' /\ DRQ (chip w') = false)
    never.
Proof.
  intros Hcmd Hcur Hwrite Htrk Hsize H. open_transfer H.
  unfold setDataReg, setDRQ, endCmd, setIRQ.
  wp_with ltac:(rewrite ?Hc, ?Hcmd, ?Hb, ?Hbuf, ?Hdc, ?Hda, ?Hsec, ?Hd, ?Htr in *; flags).
  all: try lia.
  all: match goal with H : write _ _ _ = _ |- _ => rewrite Hwrite in H; inversion H; subst end.
  all: norm.
  all: rewrite ?Z.eqb_refl, ?Hsize in *; try discriminate.
  all: unfold Finished; norm; repeat split; try assumption; reflexivity.
Qed.

Lemma writeData_ok v cmd tr sec (d : D) d' info (writes : list (byte * EmuTime)) :
  Z.land cmd 0xE0 = 0xA0 ->
  onDiskTrack info = tr ->
  onDiskSize info = 512 ->
  writes <> [] ->
  forall (buf : list byte) (cur : nat) (drq : bool) (w : World),
    (cur + length writes <= length buf)%nat ->
    write sec (firstn cur buf ++ map fst writes ++ skipn (cur + length writes) buf) d
      = (d', Some info) ->
    TransferS v drq cmd tr sec buf d (Z.of_nat cur) (Z.of_nat (length writes)) w ->
    post (writeData writes) w
      (fun _ w' => Finished (clear v BUSY) d' w' /\ DRQ (chip w') = false)
      never.
Proof.
  intros Hcmd Htrk Hsize. induction writes as [|[x t] writes IH];
    intros Hne buf cur drq w Hlen Hwrite Hw.
  - contradiction.
  - simpl length in *. simpl map in Hwrite. simpl writeData. apply post_bind.
    assert (Hcur : 0 <= Z.of_nat cur < Z.of_nat (length buf)) by lia.
    assert (Hbuf' :
      firstn (S cur) (list_put cur x buf) ++ map fst writes
        ++ skipn (S cur + length writes) (list_put cur x buf)
      = firstn cur buf ++ (x :: map fst writes)
        ++ skipn (cur + S (length writes)) buf).
    { rewrite list_put_firstn by lia. rewrite list_put_skipn by lia.
      rewrite <- app_assoc. simpl.
      replace (cur + S (length writes))%nat with (S (cur + length writes)) by lia.
      reflexivity. }
    destruct writes as [|w2 writes].
    + assert (Hlast : write sec (list_put (Z.to_nat (Z.of_nat cur)) x buf) d
                      = (d', Some info)).
      { rewrite Nat2Z.id. rewrite <- Hbuf' in Hwrite.
        cbn [map length app] in Hwrite.
        rewrite Nat.add_0_r, firstn_skipn in Hwrite. exact Hwrite. }
      cbn [length] in Hw.
      eapply post_weaken;
        [ apply (setDataReg_lastS v drq cmd tr sec buf d (Z.of_nat cur) x t d' info w
                   Hcmd Hcur Hlast Htrk Hsize Hw)
        | | auto ].
      intros u w' H. apply post_ret. exact H.
    + assert (Hmid : Z.of_nat (S (length (w2 :: writes))) <> 1)
        by (simpl length; lia).
      eapply post_weaken;
        [ apply (setDataReg_midS v drq cmd tr sec buf d (Z.of_nat cur) _ x t w
                   Hcmd Hcur Hmid Hw)
        | | auto ].
      intros u w' Hw'. cbn beta in Hw'.
      rewrite Nat2Z.id in Hw'.
      replace (Z.of_nat cur + 1) with (Z.of_nat (S cur)) in Hw' by lia.
      replace (Z.of_nat (S (length (w2 :: writes))) - 1)
        with (Z.of_nat (length (w2 :: writes))) in Hw' by lia.
      apply (IH ltac:(discriminate) (list_put cur x buf) (S cur) false w').
      * rewrite list_put_length. lia.
      * rewrite Hbuf'. exact Hwrite.
      * exact Hw'.
Qed.

(** X4.  A sector write that the backend accepts: after the write-sector
    opcode, the scheduled delays and 512 data register writes, the
    backend has been handed the 512 bytes in the order written, once;
    the command has ended with the interrupt raised and with BUSY, DRQ
    and the error flags of the status register clear. *)
Theorem write_sector_command (w : World) (cmd : byte) (t : EmuTime)
  (s1 s2 s3 : nat) (late : list nat) (writes : list (byte * EmuTime))
  (d' : D) (info : SectorInfo) :
  Z.land cmd 0xE0 = 0xA0 ->
  one_fsm w ->
  isDiskInserted (drive w) = true ->
  isWriteProtected (setHeadLoaded true t (drive w)) = false ->
  length writes = 512%nat ->
  (512 <= length (dataBuffer (chip w)))%nat ->
  write (sectorReg (chip w))
    (map fst writes ++ skipn 512 (dataBuffer (chip w)))
    (setHeadLoaded true t (drive w)) = (d', Some info) ->
  onDiskTrack info = trackReg (chip w) ->
  onDiskSize info = 512 ->
  exists w',
    (setCommandReg cmd t ;; settle (s1 :: s2 :: s3 :: late) ;; writeData writes) w
      = (Done tt, w') /\
    drive w' = d' /\
    test (statusReg (chip w')) BUSY = false /\
    test (statusReg (chip w')) RECORD_NOT_FOUND = false /\
    test (statusReg (chip w')) WRITE_PROTECTED = false /\
    test (statusReg (chip w')) LOST_DATA = false /\
    INTRQ (chip w') = true /\
    DRQ (chip w') = false /\
    transferring (chip w') = false.
Proof.
  intros Hcmd Hone Hins Hwp Hlen Hbuf Hwrite Htrk Hsize.
  assert (Hc0 : Z.land cmd 0xC0 = 0x80)
    by (rewrite (land_narrow cmd 0xE0 0xC0 0xA0 Hcmd); reflexivity).
  set (v := type2_status (statusReg (chip w))).
  assert (Hpost :
    post (setCommandReg cmd t ;; settle (s1 :: s2 :: s3 :: late) ;; writeData writes) w
      (fun _ w' => Finished (clear v BUSY) d' w' /\ DRQ (chip w') = false) never).
  { apply post_bind.
    eapply post_weaken; [ apply (start_type2S w cmd t Hc0 Hins Hone) | | auto ].
    intros u w1 H1. cbn beta in H1. fold v in H1. apply post_bind.
    assert (Hs : post (settle (s1 :: s2 :: s3 :: late)) w1
              (fun _ w' =>
                 TransferS v true cmd (trackReg (chip w)) (sectorReg (chip w))
                   (dataBuffer (chip w)) (setHeadLoaded true t (drive w)) 0 512 w')
              never).
    { apply (settle_type2S _ v cmd (trackReg (chip w)) (sectorReg (chip w))
               (dataBuffer (chip w)) (setHeadLoaded true t (drive w)) t s1 s2 s3 late w1 Hc0).
      - rewrite Hwp. apply andb_false_r.
      - apply TransferS_stable.
      - apply TransferS_idle.
      - intros t2 w2. apply exec_rotated_writeS. exact Hcmd.
      - exact H1. }
    eapply post_weaken; [ exact Hs | | auto ].
    intros u' w2 H2. cbn beta in H2.
    apply (writeData_ok v cmd (trackReg (chip w)) (sectorReg (chip w))
             (setHeadLoaded true t (drive w)) d' info writes Hcmd Htrk Hsize
             ltac:(intro Hnil; rewrite Hnil in Hlen; discriminate)
             (dataBuffer (chip w)) 0%nat true w2).
    - lia.
    - rewrite Hlen. simpl firstn. simpl "++". exact Hwrite.
    - rewrite Hlen. exact H2. }
  destruct (post_done _ _ _ Hpost) as ([] & w' & Hrun & (Hst & Hd & Hi & Htf & Hsp) & Hdrq).
  pose proof (type2_status_flags (statusReg (chip w))) as (F0 & F2 & F4 & F5 & F6).
  fold v in F0, F2, F4, F5, F6.
  exists w'. rewrite Hst. repeat split; assumption.
Qed.





(** X6.  A read-sector command whose sector header names another track
    than the track register: record-not-found is set, the command ends
    with the interrupt raised and no transfer starts, so that later
    reads of the data register consume nothing. *)
Theorem read_sector_track_mismatch (w : World) (cmd : byte) (t : EmuTime)
  (s1 s2 s3 : nat) (late : list nat)
  (d' : D) (buf' : list byte) (info : SectorInfo) :
  Z.land cmd 0xE0 = 0x80 ->
  one_fsm w ->
  isDiskInserted (drive w) = true ->
  read (sectorReg (chip w)) (dataBuffer (chip w))
    (setHeadLoaded true t (drive w)) = (d', buf', Some info) ->
  onDiskTrack info <> trackReg (chip w) ->
  exists w',
    (setCommandReg cmd t ;; settle (s1 :: s2 :: s3 :: late)) w = (Done tt, w') /\
    test (statusReg (chip w')) RECORD_NOT_FOUND = true /\
    test (statusReg (chip w')) BUSY = false /\
    INTRQ (chip w') = true /\
    transferring (chip w') = false /\
    forall t', getDataReg t' w' = (Done (dataReg (chip w')), w').
Proof.
  intros Hcmd Hone Hins Hread Htrk.
  assert (Hc0 : Z.land cmd 0xC0 = 0x80)
    by (rewrite (land_narrow cmd 0xE0 0xC0 0x80 Hcmd); reflexivity).
  set (v := type2_status (statusReg (chip w))).
  assert (Hpost :
    post (setCommandReg cmd t ;; settle (s1 :: s2 :: s3 :: late)) w
      (fun _ w' => Finished (clear (set v RECORD_NOT_FOUND) BUSY) d' w') never).
  { apply post_bind.
    eapply post_weaken; [ apply (start_type2S w cmd t Hc0 Hins Hone) | | auto ].
    intros u w1 H1. cbn beta in H1. fold v in H1.
    apply (settle_type2S _ v cmd (trackReg (chip w)) (sectorReg (chip w))
             (dataBuffer (chip w)) (setHeadLoaded true t (drive w)) t s1 s2 s3 late w1 Hc0).
    - rewrite Hcmd. reflexivity.
    - apply Finished_stable.
    - apply Finished_idle.
    - intros t2 w2. apply (exec_rotated_mismatch v cmd _ _ _ _ t2 d' buf' info); assumption.
    - exact H1. }
  destruct (post_done _ _ _ Hpost) as ([] & w' & Hrun & Hst & Hd & Hi & Htf & Hsp).
  assert (Hbusy : test (statusReg (chip w')) BUSY = false)
    by (rewrite Hst; apply busy_clear).
  exists w'. split; [ exact Hrun | ].
  split; [ rewrite Hst; flag_bit 4 | ].
  split; [ exact Hbusy | ].
  split; [ exact Hi | ]. split; [ exact Htf | ].
  intro t'. unfold getDataReg, bind, get, ret. cbn [chip].
  rewrite Hbusy, andb_false_r. destruct w'; reflexivity.
Qed.

(** *** Multi-sector reads *)

Lemma getDataReg_midS v drq cmd tr sec buf (d : D) cur avail b t (w : World) :
  Z.land cmd 0xE0 = 0x80 ->
  0 <= cur ->
  nth_error buf (Z.to_nat cur) = Some b ->
  avail <> 1 ->
  TransferS v drq cmd tr sec buf d cur avail w ->
  post (getDataReg t) w
    (fun r w' => r = b /\ TransferS v false cmd tr sec buf d (cur + 1) (avail - 1) w')
    never.
Proof.
  intros Hcmd Hcur Hnth Havail H. open_transfer H.
  assert (Hne : (avail - 1 =? 0) = false) by (apply Z.eqb_neq; lia).
  unfold getDataReg, setDRQ.
  wp_with ltac:(rewrite ?Hc, ?Hcmd, ?Hb, ?Hbuf, ?Hdc, ?Hda, ?Hne in *; flags).
  - split; [ congruence | ].
    unfold TransferS, Transfer; norm. repeat split; assumption.
  - destruct H as [H|H]; [ lia | congruence ].
Qed.

(** The last byte of a sector under the M flag: the sector register
    moves on and the next sector is fetched at once. *)
Lemma getDataReg_next v drq cmd tr sec buf (d : D) cur b t d' buf' info (w : World) :
  Z.land cmd 0xE0 = 0x80 ->
  test cmd M_FLAG = true ->
  0 <= cur ->
  nth_error buf (Z.to_nat cur) = Some b ->
  read (wrap8 (sec + 1)) buf d = (d', buf', Some info) ->
  onDiskTrack info = tr ->
  onDiskSize info = 512 ->
  TransferS v drq cmd tr sec buf d cur 1 w ->
  post (getDataReg t) w
    (fun r w' => r = b /\ TransferS v false cmd tr (wrap8 (sec + 1)) buf' d' 0 512 w')
    never.
Proof.
  intros Hcmd Hm Hcur Hnth Hread Htrk Hsize H. open_transfer H.
  unfold getDataReg, setDRQ, tryToReadSector, endCmd, setIRQ.
  wp_with ltac:(rewrite ?Hc, ?Hcmd, ?Hm, ?Hb, ?Hbuf, ?Hdc, ?Hda, ?Hsec, ?Hd, ?Htr in *;
                flags).
  all: try match goal with
           | H : read _ _ _ = _ |- _ => rewrite Hread in H; inversion H; subst
           end.
  all: norm.
  all: rewrite ?Z.eqb_refl, ?Hsize in *; try discriminate.
  - split; [ congruence | ].
    unfold TransferS, Transfer; norm. repeat split; assumption.
  - destruct H as [H|H]; [ lia | congruence ].
Qed.

(** The same when the backend has no next sector: the read that
    returns the last byte also zeroes the status register. *)
Lemma getDataReg_stop v drq cmd tr sec buf (d : D) cur b t d' buf' (w : World) :
  Z.land cmd 0xE0 = 0x80 ->
  test cmd M_FLAG = true ->
  0 <= cur ->
  nth_error buf (Z.to_nat cur) = Some b ->
  read (wrap8 (sec + 1)) buf d = (d', buf', None) ->
  TransferS v drq cmd tr sec buf d cur 1 w ->
  post (getDataReg t) w
    (fun r w' =>
       r = b /\ statusReg (chip w') = 0 /\ transferring (chip w') = false /\
       DRQ (chip w') = false /\ sectorReg (chip w') = wrap8 (sec + 1) /\
       drive w' = d' /\ INTRQ (chip w') = INTRQ (chip w))
    never.
Proof.
  intros Hcmd Hm Hcur Hnth Hread H. open_transfer H.
  unfold getDataReg, setDRQ, tryToReadSector, endCmd, setIRQ.
  wp_with ltac:(rewrite ?Hc, ?Hcmd, ?Hm, ?Hb, ?Hbuf, ?Hdc, ?Hda, ?Hsec, ?Hd, ?Htr in *;
                flags).
  all: try match goal with
           | H : read _ _ _ = _ |- _ => rewrite Hread in H; inversion H; subst
           end.
  all: norm.
  - split; [ congruence | ]. repeat split; reflexivity.
  - destruct H as [H|H]; [ lia | congruence ].
Qed.

(** Reading a run of bytes that ends with the last byte of the sector,
    whatever that last read leads to. *)
Lemma readData_sector (Q : World -> Prop) v cmd tr sec buf (d : D) :
  Z.land cmd 0xE0 = 0x80 ->
  (forall drq cur b t (w : World),
     0 <= cur -> nth_error buf (Z.to_nat cur) = Some b ->
     TransferS v drq cmd tr sec buf d cur 1 w ->
     post (getDataReg t) w (fun r w' => r = b /\ Q w') never) ->
  forall (times : list EmuTime), times <> [] ->
  forall (cur : Z) (drq : bool) (w : World),
    0 <= cur ->
    cur + Z.of_nat (length times) <= Z.of_nat (length buf) ->
    TransferS v drq cmd tr sec buf d cur (Z.of_nat (length times)) w ->
    post (readData times) w
      (fun bytes w' =>
         bytes = firstn (length times) (skipn (Z.to_nat cur) buf) /\ Q w')
      never.
Proof.
  intros Hcmd Hlast. induction times as [|t times IH]; intros Hne cur drq w Hcur Hlen Hw.
  - contradiction.
  - simpl length in *. simpl readData.
    destruct (nth_error buf (Z.to_nat cur)) as [b|] eqn:Hb.
    2:{ apply nth_error_None in Hb. lia. }
    apply post_bind. destruct times as [|t' times].
    + eapply post_weaken; [ apply (Hlast drq cur b t w Hcur Hb Hw) | | auto ].
      intros r w' [-> Hend]. simpl readData. apply post_bind, post_ret, post_ret.
      split; [ | exact Hend ].
      rewrite (nth_error_firstn_skipn buf _ b Hb). reflexivity.
    + assert (Hmid : Z.of_nat (S (length (t' :: times))) <> 1)
        by (simpl length; lia).
      eapply post_weaken;
        [ apply (getDataReg_midS v drq cmd tr sec buf d cur _ b t w Hcmd Hcur Hb Hmid Hw)
        | | auto ].
      intros r w' [-> Hw']. apply post_bind.
      replace (Z.of_nat (S (length (t' :: times))) - 1)
        with (Z.of_nat (length (t' :: times))) in Hw' by lia.
      assert (Hne' : t' :: times <> []) by discriminate.
      eapply post_weaken;
        [ apply (IH Hne' (cur + 1) false w'); [ lia | lia | exact Hw' ] | | auto ].
      intros bs w'' [-> Hend]. apply post_ret. split; [ | exact Hend ].
      rewrite (nth_error_firstn_skipn buf _ b Hb).
      replace (Z.to_nat (cur + 1)) with (S (Z.to_nat cur)) by lia.
      reflexivity.
Qed.

Lemma readData_app_eq (a b : list EmuTime) (w : World) :
  readData (a ++ b) w
  = (xs <- readData a ;; ys <- readData b ;; ret (xs ++ ys)) w.
Proof.
  revert w. induction a as [|t a IH]; intro w.
  - simpl. unfold bind, ret. destruct (readData b w) as [[ys|f] w']; reflexivity.
  - simpl app. simpl readData. unfold bind, ret.
    destruct (getDataReg t w) as [[r|f] w1]; [ | reflexivity ].
    rewrite IH. unfold bind, ret.
    destruct (readData a w1) as [[xs|f] w2]; [ | reflexivity ].
    destruct (readData b w2) as [[ys|f] w3]; reflexivity.
Qed.

Lemma readData_app (a b : list EmuTime) (w : World)
  (Q : list byte -> World -> Prop) (E : Fault -> World -> Prop) :
  post (readData a) w
    (fun xs w' => post (readData b) w' (fun ys w'' => Q (xs ++ ys) w'') E) E ->
  post (readData (a ++ b)) w Q E.
Proof.
  intro H. unfold post at 1. rewrite readData_app_eq.
  change (post (xs <- readData a ;; ys <- readData b ;; ret (xs ++ ys)) w Q E).
  apply post_bind. eapply post_weaken; [ exact H | | auto ].
  intros xs w' H'. apply post_bind. eapply post_weaken; [ exact H' | | auto ].
  intros ys w'' H''. exact H''.
Qed.

(** X7.  A multi-sector read (0x9X) over two consecutive sectors: after the
    512th byte the sector register is incremented, modulo 256, and the
    next sector is fetched without a new command, so that 1024 reads
    return the two sectors back to back.  The command stops when the
    backend finds no further sector: the read that returns the last
    byte leaves the status register at 0, BUSY included. *)
Theorem read_sectors_multi (w : World) (cmd : byte) (t : EmuTime)
  (s1 s2 s3 : nat) (late : list nat) (times1 times2 : list EmuTime)
  (d1 d2 d3 : D) (buf1 buf2 buf3 : list byte) (i1 i2 : SectorInfo) :
  Z.land cmd 0xF0 = 0x90 ->
  one_fsm w ->
  isDiskInserted (drive w) = true ->
  read (sectorReg (chip w)) (dataBuffer (chip w))
    (setHeadLoaded true t (drive w)) = (d1, buf1, Some i1) ->
  onDiskTrack i1 = trackReg (chip w) -> onDiskSize i1 = 512 ->
  read (wrap8 (sectorReg (chip w) + 1)) buf1 d1 = (d2, buf2, Some i2) ->
  onDiskTrack i2 = trackReg (chip w) -> onDiskSize i2 = 512 ->
  read (wrap8 (wrap8 (sectorReg (chip w) + 1) + 1)) buf2 d2 = (d3, buf3, None) ->
  (512 <= length buf1)%nat -> (512 <= length buf2)%nat ->
  length times1 = 512%nat -> length times2 = 512%nat ->
  exists w',
    (setCommandReg cmd t ;; settle (s1 :: s2 :: s3 :: late) ;;
     readData (times1 ++ times2)) w
      = (Done (firstn 512 buf1 ++ firstn 512 buf2), w') /\
    sectorReg (chip w') = wrap8 (wrap8 (sectorReg (chip w) + 1) + 1) /\
    statusReg (chip w') = 0 /\
    transferring (chip w') = false /\
    drive w' = d3.
Proof.
  intros Hcmd Hone Hins Hr1 Ht1 Hz1 Hr2 Ht2 Hz2 Hr3 Hb1 Hb2 Hl1 Hl2.
  assert (Hc0 : Z.land cmd 0xC0 = 0x80)
    by (rewrite (land_narrow cmd 0xF0 0xC0 0x90 Hcmd); reflexivity).
  assert (He0 : Z.land cmd 0xE0 = 0x80)
    by (rewrite (land_narrow cmd 0xF0 0xE0 0x90 Hcmd); reflexivity).
  assert (Hm : test cmd M_FLAG = true).
  { unfold test, M_FLAG. rewrite (land_narrow cmd 0xF0 0x10 0x90 Hcmd); reflexivity. }
  set (v := type2_status (statusReg (chip w))).
  set (tr := trackReg (chip w)) in *.
  set (sec := sectorReg (chip w)) in *.
  assert (Hne1 : times1 <> []) by (intro H; rewrite H in Hl1; discriminate).
  assert (Hne2 : times2 <> []) by (intro H; rewrite H in Hl2; discriminate).
  assert (Hpost :
    post (setCommandReg cmd t ;; settle (s1 :: s2 :: s3 :: late) ;;
          readData (times1 ++ times2)) w
      (fun bytes w' =>
         bytes = firstn 512 buf1 ++ firstn 512 buf2 /\
         statusReg (chip w') = 0 /\ transferring (chip w') = false /\
         sectorReg (chip w') = wrap8 (wrap8 (sec + 1) + 1) /\ drive w' = d3)
      never).
  { apply post_bind.
    eapply post_weaken; [ apply (start_type2S w cmd t Hc0 Hins Hone) | | auto ].
    intros u w1 H1. cbn beta in H1. fold v tr sec in H1. apply post_bind.
    assert (Hs : post (settle (s1 :: s2 :: s3 :: late)) w1
              (fun _ w' => TransferS v false cmd tr sec buf1 d1 0 512 w') never).
    { apply (settle_type2S _ v cmd tr sec (dataBuffer (chip w))
               (setHeadLoaded true t (drive w)) t s1 s2 s3 late w1 Hc0).
      - rewrite He0. reflexivity.
      - apply TransferS_stable.
      - apply TransferS_idle.
      - intros t2 w2.
        apply (exec_rotated_readS v cmd tr sec _ _ t2 d1 buf1 i1); assumption.
      - exact H1. }
    eapply post_weaken; [ exact Hs | | auto ].
    intros u' w2 H2. cbn beta in H2.
    apply readData_app.
    eapply post_weaken;
      [ apply (readData_sector
                 (fun w' => TransferS v false cmd tr (wrap8 (sec + 1)) buf2 d2 0 512 w')
                 v cmd tr sec buf1 d1 He0) with (cur := 0) (drq := false)
      | | auto ].
    - intros drq cur b t0 w0 Hcur Hb H0.
      apply (getDataReg_next v drq cmd tr sec buf1 d1 cur b t0 d2 buf2 i2); assumption.
    - exact Hne1.
    - lia.
    - lia.
    - rewrite Hl1. exact H2.
    - intros xs w3 [-> H3]. cbn beta.
      eapply post_weaken;
        [ apply (readData_sector
                   (fun w' =>
                      statusReg (chip w') = 0 /\ transferring (chip w') = false /\
                      sectorReg (chip w') = wrap8 (wrap8 (sec + 1) + 1) /\
                      drive w' = d3)
                   v cmd tr (wrap8 (sec + 1)) buf2 d2 He0) with (cur := 0) (drq := false)
        | | auto ].
      + intros drq cur b t0 w0 Hcur Hb H0.
        eapply post_weaken;
          [ apply (getDataReg_stop v drq cmd tr (wrap8 (sec + 1)) buf2 d2 cur b t0
                     d3 buf3); assumption
          | | auto ].
        intros r w' (-> & Hst & Htf & _ & Hsr & Hd & _).
        repeat split; assumption.
      + exact Hne2.
      + lia.
      + lia.
      + rewrite Hl2. exact H3.
      + intros ys w4 [-> H4]. split; [ | exact H4 ].
        rewrite Hl1, Hl2. reflexivity. }
  destruct (post_done _ _ _ Hpost) as (bytes & w' & Hrun & -> & Hst & Htf & Hsr & Hd).
  exists w'. repeat split; assumption.
Qed.

End Type2S.

(** ** Type III commands *)

Section Type3.
Context {D : Type} {drv : DiskDrive D} {clk : Clocks}.
Abbreviation M := (M D).
Abbreviation World := (World D).

Lemma type23_nibble (cmd : Z) :
  0 <= cmd < 256 -> Z.land cmd 0x80 <> 0 -> Z.land cmd 0xF0 <> 0xD0 ->
  In (Z.land cmd 0xF0) [0x80; 0x90; 0xA0; 0xB0; 0xC0; 0xE0; 0xF0].
Proof.
  intros H H80 Hd0.
  pose (l := [0x80; 0x90; 0xA0; 0xB0; 0xC0; 0xE0; 0xF0]).
  pose (p := fun c => (Z.land c 0x80 =? 0) || (Z.land c 0xF0 =? 0xD0)
                      || existsb (Z.eqb (Z.land c 0xF0)) l).
  assert (Hp : p cmd = true)
    by (apply (byte_forall p); [ vm_compute; reflexivity | exact H ]).
  unfold p in Hp. apply Z.eqb_neq in H80, Hd0.
  rewrite H80, Hd0 in Hp. cbn [negb orb] in Hp.
  apply existsb_exists in Hp. destruct Hp as [x [Hin Hx]].
  apply Z.eqb_eq in Hx. rewrite Hx. exact Hin.
Qed.

Lemma no_disk_start (w : World) (cmd hi : byte) (t : EmuTime) :
  Z.land cmd 0xF0 = hi ->
  In hi [0x80; 0x90; 0xA0; 0xB0; 0xC0; 0xE0; 0xF0] ->
  isDiskInserted (drive w) = false ->
  post (setCommandReg cmd t) w
    (fun _ w' =>
       test (statusReg (chip w')) BUSY = false /\
       INTRQ (chip w') = true /\
       DRQ (chip w') = false /\
       transferring (chip w') = false /\
       commandReg (chip w') = cmd /\
       drive w' = drive w /\
       syncPoints w' = remove_tag SCHED_FSM (syncPoints w))
    never.
Proof.
  intros Hhi Hin Hins. simpl in Hin.
  repeat (destruct Hin as [Hin|Hin]; [ rewrite <- Hin in *; clear Hin | ]);
    try contradiction.
  all: unfold setCommandReg, resetIRQ, startType2Cmd, startType3Cmd, setDRQ,
         endCmd, setIRQ.
  all: wp_with ltac:(rewrite ?Hhi, ?Hins in *; flags).
  all: try discriminate.
  all: rewrite busy_clear; repeat split; reflexivity.
Qed.

(** X8.  A read, write or track command (types II and III) issued with no
    disk in the drive ends inside the write to the command register:
    the interrupt is raised, BUSY is clear, nothing is scheduled and the
    drive is not touched, not even to load the head; the next status
    read reports not-ready. *)
Theorem command_without_disk (w : World) (cmd : byte) (t t' : EmuTime) :
  0 <= cmd < 256 ->
  Z.land cmd 0x80 <> 0 ->
  Z.land cmd 0xF0 <> 0xD0 ->
  isDiskInserted (drive w) = false ->
  exists w',
    setCommandReg cmd t w = (Done tt, w') /\
    test (statusReg (chip w')) BUSY = false /\
    INTRQ (chip w') = true /\
    transferring (chip w') = false /\
    drive w' = drive w /\
    syncPoints w' = remove_tag SCHED_FSM (syncPoints w) /\
    exists st w'',
      getStatusReg t' w' = (Done st, w'') /\
      test st NOT_READY = true /\
      test st BUSY = false /\
      test st S_DRQ = false.
Proof.
  intros Hcmd H80 Hd0 Hins.
  pose proof (type23_nibble cmd Hcmd H80 Hd0) as Hin.
  destruct (post_done _ _ _ (no_disk_start w cmd _ t eq_refl Hin Hins))
    as ([] & w' & Hrun & Hb & Hi & Hdrq & Htf & Hc & Hd & Hsp).
  exists w'. repeat (split; [ assumption | ]).
  assert (Hpost : post (getStatusReg t') w'
            (fun st _ => test st NOT_READY = true /\ test st BUSY = false
                         /\ test st S_DRQ = false) never).
  { apply Z.eqb_neq in H80, Hd0.
    unfold getStatusReg, getDTRQ, resetIRQ.
    wp_with ltac:(rewrite ?Hc, ?H80, ?Hd0, ?Hb, ?Hd, ?Hins, ?Hdrq, ?andb_false_r in *;
                  flags; try discriminate).
    split; [ flag_bit 7 | split; [ | flag_bit 1 ] ].
    flag_bit 0. rewrite <- (test_bit _ BUSY 0) by (first [ lia | reflexivity ]).
    exact Hb. }
  destruct (post_done _ _ _ Hpost) as (st & w'' & Hrun' & H).
  exists st, w''. split; assumption.
Qed.

Lemma Type3Wait_stable v cmd buf (d : D) st t :
  idx_stable (Type3Wait v cmd buf d st t).
Proof.
  intros w sp Hsp H. unfold Type3Wait in *. norm.
  rewrite remove_one_other by exact Hsp. exact H.
Qed.

Lemma Type3Wait_pending v cmd buf (d : D) st t (w : World) :
  Type3Wait v cmd buf d st t w -> filter is_fsm (syncPoints w) = [fsm_at t].
Proof. intro H. apply H. Qed.

Lemma Formatting_stable v cmd start buf (d : D) cur :
  idx_stable (Formatting v cmd start buf d cur).
Proof.
  intros w sp Hsp H. unfold Formatting in *. norm.
  rewrite remove_one_other by exact Hsp. exact H.
Qed.

Lemma Formatting_idle v cmd start buf (d : D) cur (w : World) :
  Formatting v cmd start buf d cur w -> filter is_fsm (syncPoints w) = [].
Proof. intro H. apply H. Qed.

Lemma start_type3 (w : World) (cmd hi : byte) (t : EmuTime) :
  Z.land cmd 0xF0 = hi ->
  In hi [0xC0; 0xE0; 0xF0] ->
  isDiskInserted (drive w) = true ->
  one_fsm w ->
  post (setCommandReg cmd t) w
    (fun _ w' =>
       Type3Wait (type3_status (statusReg (chip w))) cmd (dataBuffer (chip w))
         (setHeadLoaded true t (drive w))
         (if test cmd E_FLAG then FSM_TYPE3_WAIT_LOAD else FSM_TYPE3_LOADED)
         (if test cmd E_FLAG then plus_ms t 30 else plus_ms t 1) w')
    never.
Proof.
  intros Hhi Hin Hins Hone. apply one_fsm_removed in Hone. simpl in Hin.
  repeat (destruct Hin as [Hin|Hin]; [ rewrite <- Hin in *; clear Hin | ]);
    try contradiction.
  all: unfold setCommandReg, resetIRQ, startType3Cmd, setDRQ, type3WaitLoad.
  all: wp_with ltac:(rewrite ?Hhi, ?Hins in *; flags).
  all: try discriminate.
  all: apply schedule_post; norm; [ exact Hone | ].
  all: unfold Type3Wait, type3_status; norm; rewrite filter_fsm_app by exact Hone.
  all: repeat split; reflexivity.
Qed.

Lemma type3_guard (cmd hi : byte) :
  Z.land cmd 0xF0 = hi -> In hi [0xC0; 0xE0; 0xF0] ->
  Z.land cmd 0xC0 = 0xC0 /\ (Z.land cmd 0xF0 =? 0xD0) = false.
Proof.
  intros Hhi Hin.
  assert (Hc0 : Z.land cmd 0xC0 = Z.land hi 0xC0)
    by (rewrite <- Hhi, <- Z.land_assoc; reflexivity).
  rewrite Hc0, Hhi. simpl in Hin.
  repeat (destruct Hin as [Hin|Hin]; [ rewrite <- Hin; split; reflexivity | ]).
  contradiction.
Qed.

Lemma exec_wait_load3 v cmd hi buf (d : D) t (w : World) :
  Z.land cmd 0xF0 = hi -> In hi [0xC0; 0xE0; 0xF0] ->
  Type3Wait v cmd buf d FSM_TYPE3_WAIT_LOAD t w ->
  post (executeUntil t SCHED_FSM) (fired w t)
    (fun _ w' => Type3Wait v cmd buf d FSM_TYPE3_LOADED (plus_ms t 1) w')
    never.
Proof.
  intros Hhi Hin (Hc & Hst & Hs & Hbuf & Hdrq & Htf & Hd & Hsp).
  pose proof (type3_guard cmd hi Hhi Hin) as [Hg Hg'].
  apply remove_one_fsm in Hsp.
  unfold executeUntil, type3WaitLoad.
  wp_with ltac:(rewrite ?Hs, ?Hc, ?Hg, ?Hg' in *; flags).
  apply schedule_post; norm; [ exact Hsp | ].
  unfold Type3Wait; norm. rewrite filter_fsm_app by exact Hsp.
  repeat split; assumption.
Qed.

(** Read Address and Read Track are not implemented: the callback ends
    the command. *)
Lemma exec_loaded_read3 v cmd hi buf (d : D) t (w : World) :
  Z.land cmd 0xF0 = hi -> In hi [0xC0; 0xE0] ->
  Type3Wait v cmd buf d FSM_TYPE3_LOADED t w ->
  post (executeUntil t SCHED_FSM) (fired w t)
    (fun _ w' =>
       Finished (clear v BUSY) d w' /\ dataBuffer (chip w') = buf /\
       DRQ (chip w') = false)
    never.
Proof.
  intros Hhi Hin (Hc & Hst & Hs & Hbuf & Hdrq & Htf & Hd & Hsp).
  assert (Hin' : In hi [0xC0; 0xE0; 0xF0]) by (simpl in *; tauto).
  pose proof (type3_guard cmd hi Hhi Hin') as [Hg Hg'].
  apply remove_one_fsm in Hsp. simpl in Hin.
  repeat (destruct Hin as [Hin|Hin]; [ rewrite <- Hin in *; clear Hin | ]);
    try contradiction.
  all: unfold executeUntil, type3Loaded, readAddressCmd, readTrackCmd, endCmd, setIRQ.
  all: wp_with ltac:(rewrite ?Hs, ?Hc, ?Hg, ?Hg', ?Hhi in *; flags).
  all: unfold Finished; norm; rewrite Hst; repeat split; assumption.
Qed.

Lemma exec_loaded_format v cmd buf (d : D) t (w : World) :
  Z.land cmd 0xF0 = 0xF0 ->
  isWriteProtected d = false ->
  Type3Wait v cmd buf d FSM_TYPE3_LOADED t w ->
  post (executeUntil t SCHED_FSM) (fired w t)
    (fun _ w' =>
       Formatting v cmd t (zero_prefix RAWTRACK_SIZE buf) d 0 w' /\
       DRQ (chip w') = true)
    never.
Proof.
  intros Hhi Hwp (Hc & Hst & Hs & Hbuf & Hdrq & Htf & Hd & Hsp).
  pose proof (type3_guard cmd _ Hhi ltac:(simpl; tauto)) as [Hg Hg'].
  apply remove_one_fsm in Hsp.
  unfold executeUntil, type3Loaded, writeTrackCmd, setDRQ.
  wp_with ltac:(rewrite ?Hs, ?Hc, ?Hg, ?Hg', ?Hhi, ?Hd, ?Hwp in *; flags).
  unfold Formatting; norm. rewrite Hbuf. repeat split; assumption.
Qed.

Lemma exec_loaded_format_protected v cmd buf (d : D) t (w : World) :
  Z.land cmd 0xF0 = 0xF0 ->
  isWriteProtected d = true ->
  Type3Wait v cmd buf d FSM_TYPE3_LOADED t w ->
  post (executeUntil t SCHED_FSM) (fired w t)
    (fun _ w' =>
       Finished (clear (set v WRITE_PROTECTED) BUSY) d w' /\
       dataBuffer (chip w') = buf /\ DRQ (chip w') = false)
    never.
Proof.
  intros Hhi Hwp (Hc & Hst & Hs & Hbuf & Hdrq & Htf & Hd & Hsp).
  pose proof (type3_guard cmd _ Hhi ltac:(simpl; tauto)) as [Hg Hg'].
  apply remove_one_fsm in Hsp.
  unfold executeUntil, type3Loaded, writeTrackCmd, setDRQ, endCmd, setIRQ.
  wp_with ltac:(rewrite ?Hs, ?Hc, ?Hg, ?Hg', ?Hhi, ?Hd, ?Hwp in *; flags).
  unfold Finished; norm. rewrite Hst. repeat split; assumption.
Qed.

(** From the dispatch of a type III command to the callback that runs
    it, at [loaded_time]. *)
Lemma settle_type3 (Q : World -> Prop) v cmd hi buf (d : D) t
  (s1 s2 : nat) (late : list nat) (w : World) :
  Z.land cmd 0xF0 = hi -> In hi [0xC0; 0xE0; 0xF0] ->
  idx_stable Q ->
  (forall w', Q w' -> filter is_fsm (syncPoints w') = []) ->
  (forall w1,
     Type3Wait v cmd buf d FSM_TYPE3_LOADED (loaded_time cmd t) w1 ->
     post (executeUntil (loaded_time cmd t) SCHED_FSM) (fired w1 (loaded_time cmd t))
       (fun _ w' => Q w') never) ->
  Type3Wait v cmd buf d
    (if test cmd E_FLAG then FSM_TYPE3_WAIT_LOAD else FSM_TYPE3_LOADED)
    (if test cmd E_FLAG then plus_ms t 30 else plus_ms t 1) w ->
  post (settle (s1 :: s2 :: late)) w (fun _ w' => Q w') never.
Proof.
  intros Hhi Hin HQ Hidle Hexec Hstart.
  assert (Hload : forall s late w1,
            Type3Wait v cmd buf d FSM_TYPE3_LOADED (loaded_time cmd t) w1 ->
            post (settle (s :: late)) w1 (fun _ w' => Q w') never).
  { intros s late' w1 H1.
    apply (settle_step (Type3Wait v cmd buf d FSM_TYPE3_LOADED (loaded_time cmd t))
             Q _ (loaded_time cmd t) s late' w1).
    - apply Type3Wait_stable.
    - exact HQ.
    - apply Type3Wait_pending.
    - intros w2. apply Hexec.
    - intros w2 H2. apply (settle_done _ late' w2 Hidle H2).
    - exact H1. }
  unfold loaded_time in *. destruct (test cmd E_FLAG).
  - apply (settle_step (Type3Wait v cmd buf d FSM_TYPE3_WAIT_LOAD (plus_ms t 30))
             (Type3Wait v cmd buf d FSM_TYPE3_LOADED (plus_ms (plus_ms t 30) 1))
             _ (plus_ms t 30) s1 (s2 :: late) w).
    + apply Type3Wait_stable.
    + apply Type3Wait_stable.
    + apply Type3Wait_pending.
    + intros w1. apply (exec_wait_load3 v cmd hi); assumption.
    + intros w1 H1. apply (Hload s2 late w1 H1).
    + exact Hstart.
  - apply (Hload s1 (s2 :: late) w Hstart).
Qed.

(** X9.  Read Address (0xCX) and Read Track (0xEX) transfer nothing: once
    the head has loaded the command ends with the interrupt raised, no
    data request, the buffer and the drive as they were. *)
Theorem read_address_and_track_end_at_once (w : World) (cmd : byte) (t : EmuTime)
  (s1 s2 : nat) (late : list nat) :
  Z.land cmd 0xF0 = 0xC0 \/ Z.land cmd 0xF0 = 0xE0 ->
  one_fsm w ->
  isDiskInserted (drive w) = true ->
  exists w',
    (setCommandReg cmd t ;; settle (s1 :: s2 :: late)) w = (Done tt, w') /\
    test (statusReg (chip w')) BUSY = false /\
    INTRQ (chip w') = true /\
    DRQ (chip w') = false /\
    transferring (chip w') = false /\
    pending SCHED_FSM (syncPoints w') = false /\
    dataBuffer (chip w') = dataBuffer (chip w) /\
    drive w' = setHeadLoaded true t (drive w).
Proof.
  intros Hhi Hone Hins.
  set (v := type3_status (statusReg (chip w))).
  set (d0 := setHeadLoaded true t (drive w)).
  assert (Hin : In (Z.land cmd 0xF0) [0xC0; 0xE0])
    by (destruct Hhi as [-> | ->]; simpl; tauto).
  assert (Hin' : In (Z.land cmd 0xF0) [0xC0; 0xE0; 0xF0]) by (simpl in *; tauto).
  assert (Hpost :
    post (setCommandReg cmd t ;; settle (s1 :: s2 :: late)) w
      (fun _ w' => Finished (clear v BUSY) d0 w' /\
                   dataBuffer (chip w') = dataBuffer (chip w) /\
                   DRQ (chip w') = false) never).
  { apply post_bind.
    eapply post_weaken; [ apply (start_type3 w cmd _ t eq_refl Hin' Hins Hone) | | auto ].
    intros u w1 H1. cbn beta in H1. fold v d0 in H1.
    apply (settle_type3
             (fun w' => Finished (clear v BUSY) d0 w' /\
                        dataBuffer (chip w') = dataBuffer (chip w) /\
                        DRQ (chip w') = false)
             v cmd _ (dataBuffer (chip w)) d0 t s1 s2 late w1 eq_refl Hin').
    - intros w0 sp Hsp (H0 & H0' & H0''). split; [ apply Finished_stable; assumption | ].
      split; assumption.
    - intros w0 [H0 _]. apply (Finished_idle _ _ _ H0).
    - intros w2. apply (exec_loaded_read3 v cmd _ _ _ _ w2 eq_refl Hin).
    - exact H1. }
  destruct (post_done _ _ _ Hpost)
    as ([] & w' & Hrun & (Hst & Hd & Hi & Htf & Hsp) & Hbuf & Hdrq).
  exists w'. split; [ exact Hrun | ].
  split; [ rewrite Hst; apply busy_clear | ].
  repeat split; try assumption. apply pending_fsm_filter. exact Hsp.
Qed.

(** *** Write track *)

Ltac open_format H :=
  destruct H as (Hc & Hst & Hcs & Hfm & Hbuf & Hdc & Htf & Hd & Hsp).

Lemma setDataReg_format_early v cmd start buf (d : D) cur x t (w : World) :
  Z.land cmd 0xF0 = 0xF0 ->
  test v BUSY = true ->
  indexPulseCount d start t = 0 ->
  Formatting v cmd start buf d cur w ->
  post (setDataReg x t) w (fun _ w' => Formatting v cmd start buf d cur w') never.
Proof.
  intros Hhi Hb Hn H. open_format H.
  assert (He0 : Z.land cmd 0xE0 = 0xE0)
    by (rewrite (land_narrow cmd 0xF0 0xE0 0xF0 Hhi); reflexivity).
  unfold setDataReg, setDRQ.
  wp_with ltac:(rewrite ?Hc, ?He0, ?Hhi, ?Hst, ?Hb, ?Hfm, ?Hcs, ?Hd, ?Hn in *; flags).
  unfold Formatting; norm. repeat split; assumption.
Qed.

Lemma setDataReg_format_store v cmd start buf (d : D) cur x t (w : World) :
  Z.land cmd 0xF0 = 0xF0 ->
  test v BUSY = true ->
  indexPulseCount d start t = 1 ->
  0 <= cur < RAWTRACK_SIZE ->
  cur < Z.of_nat (length buf) ->
  Formatting v cmd start buf d cur w ->
  post (setDataReg x t) w
    (fun _ w' =>
       Formatting v cmd start (list_put (Z.to_nat cur) x buf) d (cur + 1) w')
    never.
Proof.
  intros Hhi Hb Hn Hcur Hlen H. open_format H.
  assert (He0 : Z.land cmd 0xE0 = 0xE0)
    by (rewrite (land_narrow cmd 0xF0 0xE0 0xF0 Hhi); reflexivity).
  assert (Hlt : (cur <? RAWTRACK_SIZE) = true) by (apply Z.ltb_lt; lia).
  unfold setDataReg, setDRQ.
  wp_with ltac:(rewrite ?Hc, ?He0, ?Hhi, ?Hst, ?Hb, ?Hfm, ?Hcs, ?Hd, ?Hn, ?Hdc, ?Hlt,
                  ?Hbuf in *; flags).
  - unfold Formatting; norm. rewrite ?Hbuf. repeat split; try assumption; reflexivity.
  - lia.
Qed.

Lemma setDataReg_format_end v cmd start buf (d : D) cur x t d' r (w : World) :
  Z.land cmd 0xF0 = 0xF0 ->
  test v BUSY = true ->
  indexPulseCount d start t <> 0 ->
  indexPulseCount d start t <> 1 ->
  writeTrackData buf d = (d', r) ->
  Formatting v cmd start buf d cur w ->
  post (setDataReg x t) w
    (fun _ w' =>
       Finished (clear v BUSY) d' w' /\ formatting (chip w') = false /\
       DRQ (chip w') = false /\ dataCurrent (chip w') = 0 /\
       dataAvailable (chip w') = 0)
    never.
Proof.
  intros Hhi Hb Hn0 Hn1 Hwt H. open_format H.
  assert (He0 : Z.land cmd 0xE0 = 0xE0)
    by (rewrite (land_narrow cmd 0xF0 0xE0 0xF0 Hhi); reflexivity).
  apply Z.eqb_neq in Hn0, Hn1.
  unfold setDataReg, setDRQ, endWriteTrackCmd, endCmd, setIRQ.
  wp_with ltac:(rewrite ?Hc, ?He0, ?Hhi, ?Hst, ?Hb, ?Hfm, ?Hcs, ?Hd, ?Hn0, ?Hn1,
                  ?Hbuf in *; flags).
  all: match goal with
       | H : writeTrackData _ _ = _ |- _ => rewrite Hwt in H; inversion H; subst
       end.
  all: unfold Finished; norm; repeat split; try assumption; reflexivity.
Qed.

Lemma writeData_early v cmd start buf (d : D) cur (writes : list (byte * EmuTime)) :
  Z.land cmd 0xF0 = 0xF0 ->
  test v BUSY = true ->
  Forall (fun p => indexPulseCount d start (snd p) = 0) writes ->
  forall w : World,
    Formatting v cmd start buf d cur w ->
    post (writeData writes) w (fun _ w' => Formatting v cmd start buf d cur w') never.
Proof.
  intros Hhi Hb. induction writes as [|[x t] writes IH]; intros Hall w Hw.
  - exact Hw.
  - inversion Hall as [|p l Hp Hl]; subst. simpl writeData. apply post_bind.
    eapply post_weaken;
      [ apply (setDataReg_format_early v cmd start buf d cur x t w Hhi Hb Hp Hw) | | auto ].
    intros u w' Hw'. apply (IH Hl w' Hw').
Qed.

Lemma writeData_store v cmd start (d : D) (writes : list (byte * EmuTime)) :
  Z.land cmd 0xF0 = 0xF0 ->
  test v BUSY = true ->
  Forall (fun p => indexPulseCount d start (snd p) = 1) writes ->
  forall (buf : list byte) (cur : nat) (w : World),
    Z.of_nat (cur + length writes) <= RAWTRACK_SIZE ->
    (cur + length writes <= length buf)%nat ->
    Formatting v cmd start buf d (Z.of_nat cur) w ->
    post (writeData writes) w
      (fun _ w' =>
         Formatting v cmd start
           (firstn cur buf ++ map fst writes ++ skipn (cur + length writes) buf) d
           (Z.of_nat (cur + length writes)) w')
      never.
Proof.
  intros Hhi Hb. induction writes as [|[x t] writes IH]; intros Hall buf cur w Hraw Hlen Hw.
  - simpl. rewrite Nat.add_0_r, firstn_skipn. exact Hw.
  - inversion Hall as [|p l Hp Hl]; subst. simpl length in *. simpl writeData.
    apply post_bind.
    eapply post_weaken;
      [ apply (setDataReg_format_store v cmd start buf d (Z.of_nat cur) x t w Hhi Hb Hp);
        [ lia | lia | exact Hw ]
      | | auto ].
    intros u w' Hw'. cbn beta in Hw'. rewrite Nat2Z.id in Hw'.
    replace (Z.of_nat cur + 1) with (Z.of_nat (S cur)) in Hw' by lia.
    eapply post_weaken;
      [ apply (IH Hl (list_put cur x buf) (S cur) w');
        [ lia | rewrite list_put_length; lia | exact Hw' ]
      | | auto ].
    intros u' w'' Hw''. cbn beta in Hw''.
    rewrite list_put_firstn, list_put_skipn in Hw'' by lia.
    rewrite <- app_assoc in Hw''. simpl app in Hw''. simpl map.
    replace (cur + S (length writes))%nat with (S cur + length writes)%nat by lia.
    exact Hw''.
Qed.

Lemma type3_status_busy (s : byte) : test (type3_status s) BUSY = true.
Proof. unfold type3_status. apply busy_set. Qed.

(** X10.  A write-track command (0xFX) on a writable disk.  Once the head has
    loaded, the buffer is zeroed and the data register takes the track
    image: bytes written before the first index pulse are dropped, bytes
    written during the first revolution are stored in order, and the
    first write after the second index pulse hands the buffer to the
    backend and ends the command with the interrupt raised, whether or
    not the backend accepts the track. *)
Theorem write_track_command (w : World) (cmd : byte) (t : EmuTime)
  (s1 s2 : nat) (late : list nat) (early image : list (byte * EmuTime))
  (x : byte) (tz : EmuTime) (d' : D) (r : option unit) :
  Z.land cmd 0xF0 = 0xF0 ->
  one_fsm w ->
  isDiskInserted (drive w) = true ->
  isWriteProtected (setHeadLoaded true t (drive w)) = false ->
  Forall (fun p => indexPulseCount (setHeadLoaded true t (drive w))
                     (loaded_time cmd t) (snd p) = 0) early ->
  Forall (fun p => indexPulseCount (setHeadLoaded true t (drive w))
                     (loaded_time cmd t) (snd p) = 1) image ->
  indexPulseCount (setHeadLoaded true t (drive w)) (loaded_time cmd t) tz <> 0 ->
  indexPulseCount (setHeadLoaded true t (drive w)) (loaded_time cmd t) tz <> 1 ->
  Z.of_nat (length image) <= RAWTRACK_SIZE ->
  (length image <= length (dataBuffer (chip w)))%nat ->
  writeTrackData
    (map fst image
       ++ skipn (length image) (zero_prefix RAWTRACK_SIZE (dataBuffer (chip w))))
    (setHeadLoaded true t (drive w)) = (d', r) ->
  exists w',
    (setCommandReg cmd t ;; settle (s1 :: s2 :: late) ;;
     writeData early ;; writeData image ;; setDataReg x tz) w = (Done tt, w') /\
    drive w' = d' /\
    test (statusReg (chip w')) BUSY = false /\
    INTRQ (chip w') = true /\
    formatting (chip w') = false /\
    DRQ (chip w') = false /\
    dataCurrent (chip w') = 0 /\
    dataAvailable (chip w') = 0.
Proof.
  intros Hhi Hone Hins Hwp Hearly Himage Hz0 Hz1 Hraw Hlen Hwt.
  set (v := type3_status (statusReg (chip w))).
  set (d0 := setHeadLoaded true t (drive w)) in *.
  set (start := loaded_time cmd t) in *.
  set (buf0 := zero_prefix RAWTRACK_SIZE (dataBuffer (chip w))) in *.
  assert (Hb : test v BUSY = true) by apply type3_status_busy.
  assert (Hin : In (Z.land cmd 0xF0) [0xC0; 0xE0; 0xF0]) by (rewrite Hhi; simpl; tauto).
  assert (Hlen0 : (length image <= length buf0)%nat).
  { unfold buf0, zero_prefix. rewrite length_app, repeat_length, length_skipn. lia. }
  assert (Hpost :
    post (setCommandReg cmd t ;; settle (s1 :: s2 :: late) ;;
          writeData early ;; writeData image ;; setDataReg x tz) w
      (fun _ w' =>
         Finished (clear v BUSY) d' w' /\ formatting (chip w') = false /\
         DRQ (chip w') = false /\ dataCurrent (chip w') = 0 /\
         dataAvailable (chip w') = 0) never).
  { apply post_bind.
    eapply post_weaken; [ apply (start_type3 w cmd _ t eq_refl Hin Hins Hone) | | auto ].
    intros u w1 H1. cbn beta in H1. fold v d0 in H1. apply post_bind.
    assert (Hs : post (settle (s1 :: s2 :: late)) w1
              (fun _ w' => Formatting v cmd start buf0 d0 0 w') never).
    { apply (settle_type3 _ v cmd _ (dataBuffer (chip w)) d0 t s1 s2 late w1 eq_refl Hin).
      - apply Formatting_stable.
      - apply Formatting_idle.
      - intros w2 H2.
        eapply post_weaken;
          [ apply (exec_loaded_format v cmd _ d0 _ w2 Hhi Hwp H2) | | auto ].
        intros u' w' [H _]. exact H.
      - exact H1. }
    eapply post_weaken; [ exact Hs | | auto ].
    intros u1 w2 H2. cbn beta in H2. apply post_bind.
    eapply post_weaken;
      [ apply (writeData_early v cmd start buf0 d0 0 early Hhi Hb Hearly w2 H2) | | auto ].
    intros u2 w3 H3. cbn beta in H3. apply post_bind.
    eapply post_weaken;
      [ apply (writeData_store v cmd start d0 image Hhi Hb Himage buf0 0%nat w3);
        [ simpl; lia | simpl; lia | exact H3 ]
      | | auto ].
    intros u3 w4 H4. cbn beta in H4. simpl firstn in H4. simpl app in H4.
    simpl Nat.add in H4.
    apply (setDataReg_format_end v cmd start _ d0 _ x tz d' r w4 Hhi Hb Hz0 Hz1 Hwt H4). }
  destruct (post_done _ _ _ Hpost)
    as ([] & w' & Hrun & (Hst & Hd & Hi & Htf & Hsp) & Hfm & Hdrq & Hdc & Hda).
  exists w'. split; [ exact Hrun | ]. split; [ exact Hd | ].
  split; [ rewrite Hst; apply busy_clear | ].
  repeat split; assumption.
Qed.

(** X11.  A write-track command on a write-protected disk ends once the head
    has loaded, with the write-protect flag set and the interrupt
    raised; the buffer is not cleared and the backend is not written. *)
Theorem write_track_protected (w : World) (cmd : byte) (t : EmuTime)
  (s1 s2 : nat) (late : list nat) :
  Z.land cmd 0xF0 = 0xF0 ->
  one_fsm w ->
  isDiskInserted (drive w) = true ->
  isWriteProtected (setHeadLoaded true t (drive w)) = true ->
  exists w',
    (setCommandReg cmd t ;; settle (s1 :: s2 :: late)) w = (Done tt, w') /\
    test (statusReg (chip w')) WRITE_PROTECTED = true /\
    test (statusReg (chip w')) BUSY = false /\
    INTRQ (chip w') = true /\
    DRQ (chip w') = false /\
    dataBuffer (chip w') = dataBuffer (chip w) /\
    drive w' = setHeadLoaded true t (drive w).
Proof.
  intros Hhi Hone Hins Hwp.
  set (v := type3_status (statusReg (chip w))).
  set (d0 := setHeadLoaded true t (drive w)) in *.
  assert (Hin : In (Z.land cmd 0xF0) [0xC0; 0xE0; 0xF0]) by (rewrite Hhi; simpl; tauto).
  assert (Hpost :
    post (setCommandReg cmd t ;; settle (s1 :: s2 :: late)) w
      (fun _ w' => Finished (clear (set v WRITE_PROTECTED) BUSY) d0 w' /\
                   dataBuffer (chip w') = dataBuffer (chip w) /\
                   DRQ (chip w') = false) never).
  { apply post_bind.
    eapply post_weaken; [ apply (start_type3 w cmd _ t eq_refl Hin Hins Hone) | | auto ].
    intros u w1 H1. cbn beta in H1. fold v d0 in H1.
    apply (settle_type3
             (fun w' => Finished (clear (set v WRITE_PROTECTED) BUSY) d0 w' /\
                        dataBuffer (chip w') = dataBuffer (chip w) /\
                        DRQ (chip w') = false)
             v cmd _ (dataBuffer (chip w)) d0 t s1 s2 late w1 eq_refl Hin).
    - intros w0 sp Hsp (H0 & H0' & H0''). split; [ apply Finished_stable; assumption | ].
      split; assumption.
    - intros w0 [H0 _]. apply (Finished_idle _ _ _ H0).
    - intros w2 H2.
      eapply post_weaken;
        [ apply (exec_loaded_format_protected v cmd _ d0 _ w2 Hhi Hwp H2) | | auto ].
      cbn beta. intros u' w' H. exact H.
    - exact H1. }
  destruct (post_done _ _ _ Hpost)
    as ([] & w' & Hrun & (Hst & Hd & Hi & Htf & Hsp) & Hbuf & Hdrq).
  exists w'. rewrite Hst. split; [ exact Hrun | ].
  split; [ flag_bit 6 | ].
  split; [ apply busy_clear | ].
  repeat split; assumption.
Qed.

End Type3.

(** ** The status register as the host reads it *)

Section Status.
Context {D : Type} {drv : DiskDrive D} {clk : Clocks}.
Abbreviation M := (M D).
Abbreviation World := (World D).

Lemma test_testbit (x m k : Z) :
  0 <= k -> m = 2 ^ k -> test x m = Z.testbit x k.
Proof. apply test_bit. Qed.

(** X12.  After a type I or type IV command the status register reports the
    drive: a read of it returns the index pulse, the track-0 sensor, the
    head-load state and the write-protect tab as the drive has them at
    that time, not-ready when no disk is inserted, and bits 0, 3 and 4
    as the command left them; the value returned is the value stored. *)
Theorem status_after_type1 (w : World) (time : EmuTime) :
  Z.land (commandReg (chip w)) 0x80 = 0 \/ Z.land (commandReg (chip w)) 0xF0 = 0xD0 ->
  exists st w',
    getStatusReg time w = (Done st, w') /\
    statusReg (chip w') = st /\
    drive w' = drive w /\
    test st INDEX = indexPulse (drive w) time /\
    test st TRACK00 = isTrack00 (drive w) /\
    test st HEAD_LOADED = headLoaded (drive w) time /\
    test st WRITE_PROTECTED = isWriteProtected (drive w) /\
    test st NOT_READY = negb (isDiskInserted (drive w)) /\
    test st BUSY = test (statusReg (chip w)) BUSY /\
    test st CRC_ERROR = test (statusReg (chip w)) CRC_ERROR /\
    test st SEEK_ERROR = test (statusReg (chip w)) SEEK_ERROR.
Proof.
  intro Hcmd.
  assert (Hc : (Z.land (commandReg (chip w)) 0x80 =? 0)
               || (Z.land (commandReg (chip w)) 0xF0 =? 0xD0) = true).
  { destruct Hcmd as [H|H]; rewrite H; [ reflexivity | apply orb_true_r ]. }
  apply post_done.
  unfold getStatusReg, resetIRQ.
  wp_with ltac:(rewrite ?Hc in *).
  all: split; [ reflexivity | split; [ reflexivity | ] ].
  all: repeat split.
  all: match goal with
       | |- test _ INDEX = _ => flag_bit 1
       | |- test _ TRACK00 = _ => flag_bit 2
       | |- test _ HEAD_LOADED = _ => flag_bit 5
       | |- test _ WRITE_PROTECTED = _ => flag_bit 6
       | |- test _ NOT_READY = _ => flag_bit 7
       | |- test _ BUSY = _ => flag_bit 0
       | |- test _ CRC_ERROR = _ => flag_bit 3
       | |- test _ SEEK_ERROR = _ => flag_bit 4
       end.
Qed.

Lemma getDTRQ_returns (time : EmuTime) (w : World) :
  post (getDTRQ time) w (fun drq w' => DRQ (chip w') = drq) never.
Proof.
  unfold getDTRQ, endWriteTrackCmd, endCmd, setIRQ. wp. all: reflexivity.
Qed.

(** X13.  During and after a type II or type III command, bit 1 of the
    status register is the data request line as [getDTRQ] derives it at
    the time of the read; bit 7 is not-ready; the other bits are
    returned as stored, and the interrupt is acknowledged. *)
Theorem status_after_type2 (w : World) (time : EmuTime) :
  Z.land (commandReg (chip w)) 0x80 <> 0 ->
  Z.land (commandReg (chip w)) 0xF0 <> 0xD0 ->
  exists drq w1 st w',
    getDTRQ time w = (Done drq, w1) /\
    getStatusReg time w = (Done st, w') /\
    statusReg (chip w') = st /\
    drive w' = drive w1 /\
    INTRQ (chip w') = false /\
    test st S_DRQ = drq /\
    test st NOT_READY = negb (isDiskInserted (drive w1)) /\
    test st BUSY = test (statusReg (chip w1)) BUSY /\
    test st LOST_DATA = test (statusReg (chip w1)) LOST_DATA /\
    test st CRC_ERROR = test (statusReg (chip w1)) CRC_ERROR /\
    test st RECORD_NOT_FOUND = test (statusReg (chip w1)) RECORD_NOT_FOUND /\
    test st RECORD_TYPE = test (statusReg (chip w1)) RECORD_TYPE /\
    test st WRITE_PROTECTED = test (statusReg (chip w1)) WRITE_PROTECTED.
Proof.
  intros H80 Hd0.
  assert (Hc : (Z.land (commandReg (chip w)) 0x80 =? 0)
               || (Z.land (commandReg (chip w)) 0xF0 =? 0xD0) = false).
  { apply Z.eqb_neq in H80, Hd0. rewrite H80, Hd0. reflexivity. }
  destruct (post_done _ _ _ (getDTRQ_returns time w)) as (drq & w1 & Hrun & Hdrq).
  assert (Hpost : post (getStatusReg time) w
            (fun st w' =>
               statusReg (chip w') = st /\
               drive w' = drive w1 /\
               INTRQ (chip w') = false /\
               test st S_DRQ = drq /\
               test st NOT_READY = negb (isDiskInserted (drive w1)) /\
               test st BUSY = test (statusReg (chip w1)) BUSY /\
               test st LOST_DATA = test (statusReg (chip w1)) LOST_DATA /\
               test st CRC_ERROR = test (statusReg (chip w1)) CRC_ERROR /\
               test st RECORD_NOT_FOUND = test (statusReg (chip w1)) RECORD_NOT_FOUND /\
               test st RECORD_TYPE = test (statusReg (chip w1)) RECORD_TYPE /\
               test st WRITE_PROTECTED = test (statusReg (chip w1)) WRITE_PROTECTED)
            never).
  { unfold getStatusReg, resetIRQ.
    apply post_bind, post_get. cbn beta. rewrite Hc.
    apply post_bind, post_bind. unfold post at 1. rewrite Hrun.
    wp.
    all: split; [ reflexivity | split; [ reflexivity | split; [ reflexivity | ] ] ].
    all: repeat split.
    all: match goal with
       | |- test _ S_DRQ = _ => flag_bit 1
       | |- test _ NOT_READY = _ => flag_bit 7
       | |- test _ BUSY = _ => flag_bit 0
       | |- test _ LOST_DATA = _ => flag_bit 2
       | |- test _ CRC_ERROR = _ => flag_bit 3
       | |- test _ RECORD_NOT_FOUND = _ => flag_bit 4
       | |- test _ RECORD_TYPE = _ => flag_bit 5
       | |- test _ WRITE_PROTECTED = _ => flag_bit 6
       end. }
  destruct (post_done _ _ _ Hpost) as (st & w' & Hrun' & H).
  exists drq, w1, st, w'. split; [ exact Hrun | ]. split; [ exact Hrun' | exact H ].
Qed.

(** X14.  The data request line during a sector transfer: an access to the
    data register withdraws the request and restarts the DRQ timer, and
    [getDTRQ] raises it again once 15 ticks of that timer have passed,
    for reads and for writes alike. *)
Theorem data_request_after_byte (w : World) (t0 t1 : EmuTime) (x : byte) :
  test (statusReg (chip w)) BUSY = true ->
  transferring (chip w) = true ->
  dataAvailable (chip w) <> 1 ->
  0 <= dataCurrent (chip w) < Z.of_nat (length (dataBuffer (chip w))) ->
  (Z.land (commandReg (chip w)) 0xE0 = 0x80 ->
   fst ((getDataReg t0 ;; getDTRQ t1) w)
   = Done (15 <=? getTicksTill (advance (DRQTimer (chip w)) t0) t1)) /\
  (Z.land (commandReg (chip w)) 0xE0 = 0xA0 ->
   fst ((setDataReg x t0 ;; getDTRQ t1) w)
   = Done (15 <=? getTicksTill (advance (DRQTimer (chip w)) t0) t1)).
Proof.
  intros Hb Htf Hda Hcur.
  assert (Hne : (dataAvailable (chip w) - 1 =? 0) = false) by (apply Z.eqb_neq; lia).
  split; intro Hcmd.
  - assert (Hc0 : Z.land (commandReg (chip w)) 0xC0 = 0x80)
      by (rewrite (land_narrow _ 0xE0 0xC0 0x80 Hcmd); reflexivity).
    assert (Hpost : post (getDataReg t0 ;; getDTRQ t1) w
              (fun r _ => r = (15 <=? getTicksTill (advance (DRQTimer (chip w)) t0) t1))
              never).
    { unfold getDataReg, getDTRQ, setDRQ.
      wp_with ltac:(rewrite ?Hcmd, ?Hc0, ?Hb, ?Htf, ?Hne in *; flags).
      all: try reflexivity.
      all: try congruence.
      match goal with
      | H : _ \/ _ |- _ => destruct H as [H|H]; [ lia | apply nth_error_None in H; lia ]
      end. }
    destruct (post_done _ _ _ Hpost) as (r & w' & Hrun & ->). rewrite Hrun. reflexivity.
  - assert (Hc0 : Z.land (commandReg (chip w)) 0xC0 = 0x80)
      by (rewrite (land_narrow _ 0xE0 0xC0 0xA0 Hcmd); reflexivity).
    assert (Hpost : post (setDataReg x t0 ;; getDTRQ t1) w
              (fun r _ => r = (15 <=? getTicksTill (advance (DRQTimer (chip w)) t0) t1))
              never).
    { unfold setDataReg, getDTRQ, setDRQ.
      wp_with ltac:(rewrite ?Hcmd, ?Hc0, ?Hb, ?Htf, ?Hne in *; flags).
      all: try reflexivity.
      all: try congruence.
      all: lia. }
    destruct (post_done _ _ _ Hpost) as (r & w' & Hrun & ->). rewrite Hrun. reflexivity.
Qed.

End Status.

(** ** Interrupt on the index pulse *)


Section IndexPulse.
Context {D : Type} {drv : DiskDrive D} {clk : Clocks}.
Abbreviation M := (M D).
Abbreviation World := (World D).



End IndexPulse.

(** ** The immediate interrupt *)

Section ImmediateIRQ.
Context {D : Type} {drv : DiskDrive D} {clk : Clocks}.
Abbreviation M := (M D).
Abbreviation World := (World D).

Abbreviation whatever := (fun (_ : Fault) (_ : World) => True).
Abbreviation same_imm w0 := (fun (_ : unit) (w' : World) =>
                               immediateIRQ (chip w') = immediateIRQ (chip w0)).

Ltac imm_done := first [ exact I | reflexivity | assumption | discriminate ].

Lemma executeUntil_imm (t : EmuTime) (tag : SyncPointType) (w : World) :
  post (executeUntil t tag) w (same_imm w) whatever.
Proof.
  unfold executeUntil, seekNext, seek, step, endType1Cmd, type2WaitLoad,
    type2Loaded, type2Rotated, tryToReadSector, type3WaitLoad, type3Loaded,
    readAddressCmd, readTrackCmd, writeTrackCmd, schedule, setDRQ, endCmd, setIRQ.
  destruct tag; wp. all: imm_done.
Qed.

Lemma fire_all_imm (q : list SyncPoint) (w : World) :
  post (fire_all q) w (same_imm w) whatever.
Proof.
  revert w. induction q as [|sp q IH]; intro w; simpl fire_all.
  - reflexivity.
  - apply post_bind. unfold post at 1, fire.
    destruct (existsb (SyncPoint_eqb sp) (syncPoints w)).
    + pose proof (executeUntil_imm (sp_time sp) (sp_tag sp)
                    (mkWorld (chip w) (drive w) (remove_one sp (syncPoints w)))) as H.
      unfold post in H.
      destruct (executeUntil (sp_time sp) (sp_tag sp) _) as [[u|f] w'];
        [ | exact I ].
      cbn [chip] in H. rewrite <- H. apply IH.
    + apply IH.
Qed.

Lemma setCommandReg_imm (v : byte) (t : EmuTime) (w : World) :
  Z.land v 0xF0 <> 0xD0 ->
  post (setCommandReg v t) w (same_imm w) whatever.
Proof.
  intro Hv. apply Z.eqb_neq in Hv.
  unfold setCommandReg, resetIRQ, startType1Cmd, startType2Cmd, startType3Cmd,
    seek, step, endType1Cmd, type2WaitLoad, type3WaitLoad,
    schedule, setDRQ, endCmd, setIRQ.
  wp_with ltac:(rewrite ?Hv in *). all: imm_done.
Qed.

Lemma ignore_imm {A} (c : M A) (w : World) :
  post c w (fun _ w' => immediateIRQ (chip w') = immediateIRQ (chip w)) whatever ->
  post (ignore c) w (same_imm w) whatever.
Proof.
  intro H. unfold ignore. apply post_bind.
  eapply post_weaken; [ exact H | | auto ].
  intros a w' Hq. exact Hq.
Qed.

(** X16.  The immediate-interrupt latch is changed by nothing but a reset
    and a force-interrupt command: no other command, register access or
    callback sets or clears it, so an interrupt forced with the
    immediate flag stays asserted through status reads. *)
Theorem immediate_irq_latched (op : Op) (w w' : World) :
  perform op w = (Done tt, w') ->
  immediateIRQ (chip w') <> immediateIRQ (chip w) ->
  (exists t, op = OpReset t) \/
  (exists v t, op = OpSetCommandReg v t /\ Z.land v 0xF0 = 0xD0).
Proof.
  intros Hrun Hne.
  assert (Hframe :
    (exists t, op = OpReset t) \/
    (exists v t, op = OpSetCommandReg v t /\ Z.land v 0xF0 = 0xD0) \/
    post (perform op) w (same_imm w) whatever).
  { destruct op; cbn [perform].
    - left. eauto.
    - destruct (Z.eq_dec (Z.land value 0xF0) 0xD0) as [Hv|Hv].
      + right. left. eauto.
      + right. right. apply setCommandReg_imm. exact Hv.
    - right. right. reflexivity.
    - right. right. reflexivity.
    - right. right.
      unfold setDataReg, endWriteTrackCmd, setDRQ, endCmd, setIRQ. wp. all: imm_done.
    - right. right. apply ignore_imm.
      unfold getStatusReg, getDTRQ, endWriteTrackCmd, resetIRQ, endCmd, setIRQ.
      wp. all: imm_done.
    - right. right. reflexivity.
    - right. right. reflexivity.
    - right. right. apply ignore_imm.
      unfold getDataReg, tryToReadSector, setDRQ, endCmd, setIRQ. wp. all: imm_done.
    - right. right. apply ignore_imm.
      unfold getDTRQ, endWriteTrackCmd, endCmd, setIRQ. wp. all: imm_done.
    - right. right. reflexivity.
    - right. right. apply ignore_imm.
      unfold peekStatusReg, getStatusReg, getDTRQ, endWriteTrackCmd, resetIRQ,
        endCmd, setIRQ.
      wp. all: imm_done.
    - right. right. reflexivity.
    - right. right. reflexivity.
    - right. right. apply ignore_imm. unfold peekDataReg. wp. all: imm_done.
    - right. right. reflexivity.
    - right. right. reflexivity.
    - right. right. apply fire_all_imm. }
  destruct Hframe as [H|[H|H]]; [ left; exact H | right; exact H | ].
  exfalso. apply Hne. unfold post in H. rewrite Hrun in H. exact H.
Qed.

End ImmediateIRQ.

(** ** The FSM state of a pending callback *)

Lemma fsm_count_remove_hit (sp : SyncPoint) (l : list SyncPoint) :
  is_fsm sp = true ->
  existsb (SyncPoint_eqb sp) l = true ->
  fsm_count (remove_one sp l) = pred (fsm_count l).
Proof.
  intros Hsp. unfold fsm_count. induction l as [|x l IH]; simpl; intro H.
  - discriminate.
  - destruct (SyncPoint_eqb x sp) eqn:Hx.
    + apply SyncPoint_eqb_eq in Hx. subst x. rewrite Hsp. reflexivity.
    + assert (Hx' : SyncPoint_eqb sp x = false).
      { destruct (SyncPoint_eqb sp x) eqn:Hy; [ | reflexivity ].
        apply SyncPoint_eqb_eq in Hy. subst x.
        rewrite (proj2 (SyncPoint_eqb_eq sp sp) eq_refl) in Hx. discriminate. }
      rewrite Hx' in H. simpl in H. specialize (IH H).
      simpl. destruct (is_fsm x); simpl; [ | exact IH ].
      rewrite IH.
      assert (Hpos : filter is_fsm l <> []).
      { clear - Hsp H. induction l as [|y l IH]; simpl in *; [ discriminate | ].
        destruct (SyncPoint_eqb sp y) eqn:Hy.
        - apply SyncPoint_eqb_eq in Hy. subst y. rewrite Hsp. discriminate.
        - simpl in H. destruct (is_fsm y); [ discriminate | apply IH; exact H ]. }
      destruct (filter is_fsm l); [ contradiction | reflexivity ].
Qed.

Lemma fsm_count_remove_miss (sp : SyncPoint) (l : list SyncPoint) :
  is_fsm sp = false -> fsm_count (remove_one sp l) = fsm_count l.
Proof. intro H. unfold fsm_count. rewrite remove_one_other by exact H. reflexivity. Qed.

Lemma fsm_count_present (sp : SyncPoint) (l : list SyncPoint) :
  is_fsm sp = true -> existsb (SyncPoint_eqb sp) l = true ->
  (1 <= fsm_count l)%nat.
Proof.
  intros Hsp. unfold fsm_count. induction l as [|y l IH]; simpl; intro H.
  - discriminate.
  - destruct (SyncPoint_eqb sp y) eqn:Hy.
    + apply SyncPoint_eqb_eq in Hy. subst y. rewrite Hsp. simpl. lia.
    + simpl in H. specialize (IH H). destruct (is_fsm y); simpl; lia.
Qed.

Section Unreachable.
Context {D : Type} {drv : DiskDrive D} {clk : Clocks}.
Abbreviation M := (M D).
Abbreviation World := (World D).

Abbreviation reached := (fun (f : Fault) (_ : World) => f <> UnreachableReached).
Abbreviation keeps := (fun (_ : unit) (w' : World) => FsmInv w').

Ltac state_done :=
  try discriminate;
  unfold FsmInv in *; norm; intros;
  repeat match goal with
         | H : negb (pending SCHED_FSM _) = true |- _ =>
             apply negb_true_iff, fsm_count_pending in H
         | H : pending SCHED_FSM _ = false |- _ => apply fsm_count_pending in H
         | H : _ /\ _ |- _ => destruct H
         end;
  rewrite ?fsm_count_app, ?fsm_count_remove_idx, ?fsm_count_remove_fsm in *;
  cbn [is_fsm SyncPointType_eqb sp_tag Nat.add handled] in *;
  try (split; [ lia | intros; first [ reflexivity | lia | auto ] ]).

Lemma setCommandReg_state (v : byte) (t : EmuTime) (w : World) :
  FsmInv w -> post (setCommandReg v t) w keeps reached.
Proof.
  intro Hinv.
  unfold setCommandReg, resetIRQ, startType1Cmd, startType2Cmd, startType3Cmd,
    startType4Cmd, seek, step, endType1Cmd, type2WaitLoad, type3WaitLoad,
    schedule, setDRQ, endCmd, setIRQ.
  wp. all: state_done.
Qed.

Lemma reset_state (t : EmuTime) (w : World) :
  FsmInv w -> post (reset t) w keeps reached.
Proof.
  intro Hinv. unfold reset, setDRQ, resetIRQ. wp.
  apply setCommandReg_state. state_done.
Qed.

Lemma getDataReg_state (t : EmuTime) (w : World) :
  FsmInv w -> post (getDataReg t) w (fun _ w' => FsmInv w') reached.
Proof.
  intro Hinv. unfold getDataReg, tryToReadSector, setDRQ, endCmd, setIRQ.
  wp. all: first [ exact Hinv | discriminate ].
Qed.

Lemma setDataReg_state (v : byte) (t : EmuTime) (w : World) :
  FsmInv w -> post (setDataReg v t) w keeps reached.
Proof.
  intro Hinv. unfold setDataReg, endWriteTrackCmd, setDRQ, endCmd, setIRQ.
  wp. all: first [ exact Hinv | discriminate ].
Qed.

Lemma getDTRQ_state (t : EmuTime) (w : World) :
  FsmInv w -> post (getDTRQ t) w (fun _ w' => FsmInv w') reached.
Proof.
  intro Hinv. unfold getDTRQ, endWriteTrackCmd, endCmd, setIRQ.
  wp. all: first [ exact Hinv | discriminate ].
Qed.

Lemma getStatusReg_state (t : EmuTime) (w : World) :
  FsmInv w -> post (getStatusReg t) w (fun _ w' => FsmInv w') reached.
Proof.
  intro Hinv. unfold getStatusReg, getDTRQ, endWriteTrackCmd, resetIRQ, endCmd, setIRQ.
  wp. all: first [ exact Hinv | discriminate ].
Qed.

(** The callback runs with its sync point taken off the queue. *)
Lemma executeUntil_fsm_state (t : EmuTime) (w : World) :
  fsm_count (syncPoints w) = 0%nat ->
  handled (fsmState (chip w)) = true ->
  post (executeUntil t SCHED_FSM) w keeps reached.
Proof.
  intros Hcount Hst.
  unfold executeUntil, seekNext, seek, step, endType1Cmd, type2WaitLoad,
    type2Loaded, type2Rotated, tryToReadSector, type3WaitLoad, type3Loaded,
    readAddressCmd, readTrackCmd, writeTrackCmd, schedule, setDRQ, endCmd, setIRQ.
  wp.
  all: try match goal with
           | H : fsmState _ = _ |- _ => rewrite H in Hst; try discriminate Hst
           end.
  all: state_done.
  all: try (rewrite Hcount; simpl; split; [ lia | intros; first [ reflexivity | lia ] ]).
Qed.

Lemma fire_state (sp : SyncPoint) (w : World) :
  FsmInv w -> post (fire sp) w keeps reached.
Proof.
  intros [Hle Hst]. unfold post, fire.
  destruct (existsb (SyncPoint_eqb sp) (syncPoints w)) eqn:Hin; [ | split; assumption ].
  destruct sp as [t [|]]; cbn [sp_time sp_tag].
  - pose proof (fsm_count_present (mkSyncPoint t SCHED_FSM) _ eq_refl Hin) as H1.
    pose proof (fsm_count_remove_hit (mkSyncPoint t SCHED_FSM) _ eq_refl Hin) as H0.
    apply (executeUntil_fsm_state t
             (mkWorld (chip w) (drive w)
                (remove_one (mkSyncPoint t SCHED_FSM) (syncPoints w)))).
    + cbn [syncPoints]. lia.
    + cbn [chip]. apply Hst. lia.
  - simpl. unfold FsmInv. cbn [chip syncPoints fsmState set_INTRQ].
    rewrite fsm_count_remove_miss by reflexivity. split; assumption.
Qed.

Lemma fire_all_state (q : list SyncPoint) (w : World) :
  FsmInv w -> post (fire_all q) w keeps reached.
Proof.
  revert w. induction q as [|sp q IH]; intros w Hinv; simpl fire_all.
  - exact Hinv.
  - apply post_bind.
    eapply post_weaken; [ apply (fire_state sp w Hinv) | | auto ].
    intros u w' H. apply IH. exact H.
Qed.

Lemma ignore_state {A} (c : M A) (w : World) :
  post c w (fun _ w' => FsmInv w') reached ->
  post (ignore c) w keeps reached.
Proof.
  intro H. unfold ignore. apply post_bind.
  eapply post_weaken; [ exact H | | auto ].
  intros a w' Hq. exact Hq.
Qed.

Lemma perform_state (op : Op) (w : World) :
  FsmInv w -> post (perform op) w keeps reached.
Proof.
  intro Hinv. destruct op; cbn [perform].
  - apply reset_state. exact Hinv.
  - apply setCommandReg_state. exact Hinv.
  - exact Hinv.
  - exact Hinv.
  - apply setDataReg_state. exact Hinv.
  - apply ignore_state, getStatusReg_state. exact Hinv.
  - apply ignore_state. exact Hinv.
  - apply ignore_state. exact Hinv.
  - apply ignore_state, getDataReg_state. exact Hinv.
  - apply ignore_state, getDTRQ_state. exact Hinv.
  - apply ignore_state. exact Hinv.
  - apply ignore_state, getStatusReg_state. exact Hinv.
  - apply ignore_state. exact Hinv.
  - apply ignore_state. exact Hinv.
  - apply ignore_state. unfold peekDataReg. wp; first [ exact Hinv | discriminate ].
  - apply ignore_state. exact Hinv.
  - apply ignore_state. exact Hinv.
  - apply fire_all_state. exact Hinv.
Qed.

Lemma reachable_state (w : World) : reachable w -> FsmInv w.
Proof.
  induction 1 as [d t w Hnew|op w w' Hw IH Hop|w d Hw IH].
  - assert (H0 : FsmInv (members d t)).
    { unfold FsmInv, members, fsm_count; simpl. split; [ lia | discriminate ]. }
    exact (post_eq (reset t) (members d t) w tt (fun _ w' => FsmInv w')
             (fun f _ => f <> UnreachableReached) (reset_state t (members d t) H0) Hnew).
  - exact (post_eq (perform op) w w' tt (fun _ w' => FsmInv w')
             (fun f _ => f <> UnreachableReached) (perform_state op w IH) Hop).
  - exact IH.
Qed.

(** X17.  The scheduler never has two FSM callbacks of the controller at a
    time, a pending one always comes with the [fsmState] of a step
    [executeUntil] handles, and so no operation on a running controller
    ends in the [UNREACHABLE] of [executeUntil]. *)
Theorem callback_state_handled (w : World) :
  reachable w ->
  (fsm_count (syncPoints w) <= 1)%nat /\
  (pending SCHED_FSM (syncPoints w) = true -> handled (fsmState (chip w)) = true) /\
  forall op, fst (perform op w) <> Thrown UnreachableReached.
Proof.
  intro Hw. pose proof (reachable_state w Hw) as Hinv.
  split; [ apply Hinv | ]. split.
  - intro Hp. apply Hinv. destruct Hinv as [Hle _].
    destruct (fsm_count (syncPoints w)) as [|[|n]] eqn:Hc; [ | reflexivity | lia ].
    unfold fsm_count in Hc. apply length_zero_iff_nil in Hc.
    apply pending_fsm_filter in Hc. congruence.
  - intro op. pose proof (perform_state op w Hinv) as H. unfold post in H.
    destruct (perform op w) as [[u|f] w']; cbn [fst]; [ discriminate | ].
    intro Hf. injection Hf as ->. apply H. reflexivity.
Qed.

End Unreachable.

(** ** The buffer cursor *)

Section Cursor.
Context {D : Type} {drv : DiskDrive D} {clk : Clocks}.
Abbreviation M := (M D).
Abbreviation World := (World D).

Abbreviation whatever := (fun (_ : Fault) (_ : World) => True).

Ltac booleans :=
  repeat match goal with
         | H : _ && _ = true |- _ => apply andb_true_iff in H; destruct H
         | H : (_ =? _) = true |- _ => apply Z.eqb_eq in H
         | H : (_ =? _) = false |- _ => apply Z.eqb_neq in H
         | H : negb _ = true |- _ => apply negb_true_iff in H
         | H : negb _ = false |- _ => apply negb_false_iff in H
         end.

Ltac cursor_done :=
  try exact I;
  unfold CursorInv in *; norm; intros;
  try discriminate;
  booleans;
  try match goal with
      | H : ?a = true -> _, H' : ?a = true |- _ =>
          specialize (H H'); destruct H as (? & ? & ? & ?)
      end;
  try (exfalso; eauto using type3_not_type2; fail);
  try (repeat split; first [ lia | eauto using read_is_type2, write_is_type2 ]).

Lemma getDataReg_cursor (t : EmuTime) (w : World) :
  CursorInv w -> post (getDataReg t) w (fun _ w' => CursorInv w') whatever.
Proof.
  intro Hinv. unfold getDataReg, tryToReadSector, setDRQ, endCmd, setIRQ.
  wp. all: cursor_done.
Qed.

Lemma setDataReg_cursor (v : byte) (t : EmuTime) (w : World) :
  CursorInv w -> post (setDataReg v t) w (fun _ w' => CursorInv w') whatever.
Proof.
  intro Hinv. unfold setDataReg, endWriteTrackCmd, setDRQ, endCmd, setIRQ.
  wp. all: cursor_done.
Qed.

Lemma getDTRQ_cursor (t : EmuTime) (w : World) :
  CursorInv w -> post (getDTRQ t) w (fun _ w' => CursorInv w') whatever.
Proof.
  intro Hinv. unfold getDTRQ, endWriteTrackCmd, endCmd, setIRQ.
  wp. all: cursor_done.
Qed.

Lemma getStatusReg_cursor (t : EmuTime) (w : World) :
  CursorInv w -> post (getStatusReg t) w (fun _ w' => CursorInv w') whatever.
Proof.
  intro Hinv. unfold getStatusReg, getDTRQ, endWriteTrackCmd, resetIRQ, endCmd, setIRQ.
  wp. all: cursor_done.
Qed.

Lemma setCommandReg_cursor (v : byte) (t : EmuTime) (w : World) :
  post (setCommandReg v t) w (fun _ w' => CursorInv w') whatever.
Proof.
  unfold setCommandReg, resetIRQ, startType1Cmd, startType2Cmd, startType3Cmd,
    startType4Cmd, seek, step, endType1Cmd, type2WaitLoad, type3WaitLoad,
    schedule, setDRQ, endCmd, setIRQ.
  wp. all: cursor_done.
Qed.

Lemma reset_cursor (t : EmuTime) (w : World) :
  post (reset t) w (fun _ w' => CursorInv w') whatever.
Proof.
  unfold reset, setDRQ, resetIRQ. wp. apply setCommandReg_cursor.
Qed.

Lemma executeUntil_cursor (t : EmuTime) (tag : SyncPointType) (w : World) :
  CursorInv w -> post (executeUntil t tag) w (fun _ w' => CursorInv w') whatever.
Proof.
  intro Hinv.
  unfold executeUntil, seekNext, seek, step, endType1Cmd, type2WaitLoad,
    type2Loaded, type2Rotated, tryToReadSector, type3WaitLoad, type3Loaded,
    readAddressCmd, readTrackCmd, writeTrackCmd, schedule, setDRQ, endCmd, setIRQ.
  destruct tag; wp. all: cursor_done.
Qed.

Lemma fire_all_cursor (q : list SyncPoint) (w : World) :
  CursorInv w -> post (fire_all q) w (fun _ w' => CursorInv w') whatever.
Proof.
  revert w. induction q as [|sp q IH]; intros w Hinv; simpl fire_all.
  - exact Hinv.
  - apply post_bind. unfold post at 1, fire.
    destruct (existsb (SyncPoint_eqb sp) (syncPoints w)).
    + pose proof (executeUntil_cursor (sp_time sp) (sp_tag sp)
                    (mkWorld (chip w) (drive w) (remove_one sp (syncPoints w)))
                    Hinv) as H.
      unfold post in H.
      destruct (executeUntil (sp_time sp) (sp_tag sp) _) as [[u|f] w'];
        [ apply IH; exact H | exact I ].
    + apply IH. exact Hinv.
Qed.

Lemma perform_cursor (op : Op) (w : World) :
  CursorInv w -> post (perform op) w (fun _ w' => CursorInv w') whatever.
Proof.
  intro Hinv. destruct op; cbn [perform].
  - apply reset_cursor.
  - apply setCommandReg_cursor.
  - exact Hinv.
  - exact Hinv.
  - apply setDataReg_cursor. exact Hinv.
  - apply ignore_post, getStatusReg_cursor. exact Hinv.
  - apply ignore_post. exact Hinv.
  - apply ignore_post. exact Hinv.
  - apply ignore_post, getDataReg_cursor. exact Hinv.
  - apply ignore_post, getDTRQ_cursor. exact Hinv.
  - apply ignore_post. exact Hinv.
  - apply ignore_post, getStatusReg_cursor. exact Hinv.
  - apply ignore_post. exact Hinv.
  - apply ignore_post. exact Hinv.
  - apply ignore_post. unfold peekDataReg. wp; first [ exact Hinv | exact I ].
  - apply ignore_post. exact Hinv.
  - apply ignore_post. exact Hinv.
  - apply fire_all_cursor. exact Hinv.
Qed.

(** X18.  In every state of a running controller with a transfer under way,
    the buffer cursor and the byte counter add up to the sector size:
    [dataCurrent + dataAvailable = 512], so the cursor stays within the
    first 512 bytes of the buffer, and the command in the command
    register is a sector read or write. *)
Theorem transfer_cursor (w : World) :
  reachable w ->
  transferring (chip w) = true ->
  dataCurrent (chip w) + dataAvailable (chip w) = 512 /\
  0 <= dataCurrent (chip w) < 512 /\
  Z.land (commandReg (chip w)) 0xC0 = 0x80.
Proof.
  intros Hw Ht.
  assert (Hinv : CursorInv w).
  { clear Ht. induction Hw as [d t w Hnew|op w w' Hw IH Hop|w d Hw IH].
    - exact (post_eq (reset t) (members d t) w tt (fun _ w' => CursorInv w')
               (fun _ _ => True) (reset_cursor t (members d t)) Hnew).
    - exact (post_eq (perform op) w w' tt (fun _ w' => CursorInv w')
               (fun _ _ => True) (perform_cursor op w IH) Hop).
    - exact IH. }
  destruct (Hinv Ht) as (H1 & H2 & H3 & H4).
  repeat split; [ exact H1 | exact H2 | lia | exact H4 ].
Qed.

End Cursor.

(** * Runs on the concrete backend *)

Import Sim.

(** ** The states used below are reachable *)

Lemma reachable_fresh : reachable fresh.
Proof. apply (reach_new drive0 0). vm_compute. reflexivity. Qed.

Lemma reachable_idle : reachable idle.
Proof.
  apply (reachable_settle (repeat 0%nat 255) fresh idle reachable_fresh).
  vm_compute. reflexivity.
Qed.

Lemma reachable_reading : reachable reading.
Proof.
  apply (reachable_settle [0; 0; 0]%nat (snd (setCommandReg 0x80 100000 idle)) reading).
  - apply (reach_op (OpSetCommandReg 0x80 100000) idle _ reachable_idle).
    vm_compute. reflexivity.
  - vm_compute. reflexivity.
Qed.

Lemma reachable_seeking : reachable seeking.
Proof.
  apply (reach_op (OpSetCommandReg 0x10 200000) (snd (setDataReg 5 200000 idle))).
  - apply (reach_op (OpSetDataReg 5 200000) idle _ reachable_idle).
    vm_compute. reflexivity.
  - vm_compute. reflexivity.
Qed.


Lemma reachable_rotating_bad : reachable rotating_bad.
Proof.
  apply (reachable_settle [0%nat] (snd (setCommandReg 0x80 100000 idle_bad)) rotating_bad).
  - apply (reach_op (OpSetCommandReg 0x80 100000) idle_bad).
    + apply (reachable_settle (repeat 0%nat 255) (snd (WD2793_new drive_bad 0)) idle_bad).
      * apply (reach_new drive_bad 0). vm_compute. reflexivity.
      * vm_compute. reflexivity.
    + vm_compute. reflexivity.
  - vm_compute. reflexivity.
Qed.


(** ** Where the code parts from the specification *)

(** C2, at a failing input.  The Restore issued by the constructor has
    completed, so the interrupt is pending; a peek of the status
    register clears it and rewrites the register. *)
Theorem peekStatusReg_mutates :
  reachable idle /\
  INTRQ (chip idle) = true /\
  statusReg (chip idle) = 0 /\
  fst (peekIRQ 300000 idle) = Done true /\
  exists w',
    peekStatusReg 300000 idle = (Done 6, w') /\
    INTRQ (chip w') = false /\
    statusReg (chip w') = 6 /\
    fst (peekIRQ 300000 w') = Done false.
Proof.
  split; [ exact reachable_idle | ].
  split; [ reflexivity | ]. split; [ reflexivity | ]. split; [ reflexivity | ].
  eexists. split; [ vm_compute; reflexivity | ].
  repeat split; reflexivity.
Qed.

(** C3, at a failing input.  A sector read is in its transfer phase and
    the DRQ timer has run for more than 15 ticks: [getDTRQ] reports the
    data request, [peekDTRQ] still returns the stored flag. *)
Theorem peekDTRQ_stale :
  reachable reading /\
  fst (peekDTRQ 200000 reading) = Done false /\
  fst (getDTRQ 200000 reading) = Done true.
Proof.
  split; [ exact reachable_reading | ]. split; vm_compute; reflexivity.
Qed.

(** C4, at a failing input.  Two force-interrupt commands with the
    index-pulse flag in a row: the second calls [setSyncPoint] for
    [SCHED_IDX_IRQ] while the first one's sync point is pending. *)
Theorem force_interrupt_registers_twice :
  reachable idle /\
  exists w1,
    setCommandReg 0xD4 300000 idle = (Done tt, w1) /\
    pending SCHED_IDX_IRQ (syncPoints w1) = true /\
    fst (setCommandReg 0xD4 300010 w1) = Thrown SyncPointClash.
Proof.
  split; [ exact reachable_idle | ].
  eexists. split; [ vm_compute; reflexivity | ].
  split; vm_compute; reflexivity.
Qed.

(** C5, at a failing input.  A read-sector command is BUSY on a disk
    the backend cannot read, its rotational wait over.  The callback
    calls [drive.read], which throws; the catch block of
    [tryToReadSector] returns with the status register 0, so no error
    bit is set, and without [endCmd]: no interrupt is raised, now or on
    a later query, and nothing stays scheduled that could raise one.
    The host sees a command that stopped being BUSY with a clean
    status. *)
Theorem read_fault_unreported :
  reachable rotating_bad /\
  snd (read (sectorReg (chip rotating_bad)) (dataBuffer (chip rotating_bad))
         (drive rotating_bad)) = None /\
  test (statusReg (chip rotating_bad)) BUSY = true /\
  exists w',
    settle [5%nat] rotating_bad = (Done tt, w') /\
    statusReg (chip w') = 0 /\
    test (statusReg (chip w')) RECORD_NOT_FOUND = false /\
    test (statusReg (chip w')) CRC_ERROR = false /\
    test (statusReg (chip w')) LOST_DATA = false /\
    INTRQ (chip w') = false /\
    immediateIRQ (chip w') = false /\
    syncPoints w' = [] /\
    fst (getIRQ 200000 w') = Done false.
Proof.
  split; [ exact reachable_rotating_bad | ].
  split; [ reflexivity | ]. split; [ reflexivity | ].
  eexists. split; [ vm_compute; reflexivity | ].
  repeat split; reflexivity.
Qed.



(** C9, at a failing input.  A read-sector command has been dispatched
    and the data register is read before the callbacks have started the
    transfer: [getDataReg] tests the opcode and BUSY only, so it counts
    the access although [transferring] is clear and no byte is
    available.  The state is reachable and [dataAvailable] is -1. *)
Theorem dataAvailable_underflow :
  reachable underflow /\
  transferring (chip (snd (setCommandReg 0x80 100000 idle))) = false /\
  dataAvailable (chip (snd (setCommandReg 0x80 100000 idle))) = 0 /\
  transferring (chip underflow) = false /\
  dataAvailable (chip underflow) = -1.
Proof.
  split; [ | repeat split; reflexivity ].
  apply (reach_op (OpGetDataReg 100001) (snd (setCommandReg 0x80 100000 idle))).
  - apply (reach_op (OpSetCommandReg 0x80 100000) idle _ reachable_idle).
    vm_compute. reflexivity.
  - vm_compute. reflexivity.
Qed.

(** ** The theorems at concrete inputs *)

(** C1 on the sample disk: the 512 reads return the sector. *)
Lemma read_sector_command_witness :
  exists w',
    (setCommandReg 0x80 100000 ;; settle [0; 40; 3]%nat ;; readData read_times) idle
      = (Done sector_bytes, w') /\
    test (statusReg (chip w')) BUSY = false /\
    INTRQ (chip w') = true /\
    fst (getIRQ 100000 w') = Done true.
Proof.
  edestruct (read_sector_command idle 0x80 100000 0 40 3 read_times)
    as (w' & Hrun & Hrest).
  - reflexivity.
  - exact (reachable_one_fsm idle reachable_idle).
  - reflexivity.
  - vm_compute. reflexivity.
  - reflexivity.
  - reflexivity.
  - vm_compute. lia.
  - vm_compute. reflexivity.
  - exists w'. split; [ | exact Hrest ].
    rewrite Hrun. vm_compute. reflexivity.
Defined.


(** C7 issued while a Seek is stepping, the head on cylinder 1. *)
Lemma restore_command_witness :
  exists w',
    (setCommandReg 0x0B 300000 ;; settle (repeat 1%nat 255)) seeking = (Done tt, w') /\
    trackReg (chip w') = 0 /\
    test (statusReg (chip w')) BUSY = false /\
    pending SCHED_FSM (syncPoints w') = false /\
    INTRQ (chip w') = true /\
    exists k : nat,
      (k <= 255)%nat /\
      drive w' = stepped false (step_delay 0x0B) k 300000
                   (setHeadLoaded (test 0x0B H_FLAG) 300000 (drive seeking)) /\
      (forall j : nat, (j < k)%nat ->
         isTrack00 (stepped false (step_delay 0x0B) j 300000
                      (setHeadLoaded (test 0x0B H_FLAG) 300000 (drive seeking))) = false) /\
      (isTrack00 (drive w') = true \/ k = 255%nat).
Proof.
  apply (restore_command seeking 0x0B 300000 (repeat 1%nat 255)).
  - reflexivity.
  - exact (reachable_one_fsm seeking reachable_seeking).
  - vm_compute. lia.
Defined.


(** A backend exception on the unreadable disk. *)
Lemma media_faults_contained_witness :
  fst (executeUntil 101010 SCHED_FSM rotating_bad) <> Thrown MSXException /\
  exists w',
    tryToReadSector rotating_bad = (Done tt, w') /\
    statusReg (chip w') = 0 /\
    test (statusReg (chip w')) BUSY = false /\
    INTRQ (chip w') = INTRQ (chip rotating_bad).
Proof.
  split.
  - apply (proj1 (proj2 (proj2 (proj2 (proj2 (proj2 (proj2
             (proj1 media_faults_contained)))))))).
  - eapply (proj1 (proj2 media_faults_contained) rotating_bad).
    vm_compute. reflexivity.
Defined.


(** A Seek from track 0 to track 5: five steps in. *)
Lemma seek_inward_witness :
  exists w',
    (setCommandReg 0x10 200000 ;; settle (repeat 0%nat 5)) aimed = (Done tt, w') /\
    drive w' = stepped true (step_delay 0x10) 5 200000
                 (setHeadLoaded (test 0x10 H_FLAG) 200000 (drive aimed)) /\
    trackReg (chip w') = 5 /\
    test (statusReg (chip w')) BUSY = false /\
    INTRQ (chip w') = true.
Proof.
  apply (seek_inward aimed 0x10 200000 (repeat 0%nat 5)).
  - reflexivity.
  - vm_compute. reflexivity.
  - vm_compute. split; [ discriminate | reflexivity ].
  - vm_compute. reflexivity.
  - vm_compute. discriminate.
Defined.

(** A Seek out from a track register of 9 to track 3 with the head on
    cylinder 0: the drive reports track 0 at once and the track register
    ends at 0, not 3. *)
Lemma seek_command_witness :
  exists w',
    (setCommandReg 0x10 200000 ;; settle (repeat 0%nat 6)) detuned = (Done tt, w') /\
    drive w' = setHeadLoaded false 200000 (drive detuned) /\
    trackReg (chip w') = 0 /\
    dataReg (chip w') = 3.
Proof.
  destruct (seek_command detuned 0x10 200000 (repeat 0%nat 6))
    as (w' & Hrun & (Hd & Ht) & Hdr & _).
  - reflexivity.
  - vm_compute. reflexivity.
  - vm_compute. split; [ discriminate | reflexivity ].
  - vm_compute. split; [ discriminate | reflexivity ].
  - vm_compute. discriminate.
  - exists w'. split; [ exact Hrun | ].
    split; [ exact Hd | ]. split; [ exact Ht | exact Hdr ].
Defined.

(** A Step-in with the T flag from track 0. *)
Lemma step_command_witness :
  exists w',
    (setCommandReg 0x50 200000 ;; settle [3%nat]) idle = (Done tt, w') /\
    directionIn (chip w') = true /\
    drive w' = drive_step true 200000 (setHeadLoaded false 200000 (drive idle)) /\
    trackReg (chip w') = 1.
Proof.
  destruct (step_command idle 0x50 200000 3 [])
    as (w' & Hrun & (Hdir & Hd & Ht) & _).
  - lia.
  - reflexivity.
  - vm_compute. discriminate.
  - vm_compute. reflexivity.
  - exists w'. split; [ exact Hrun | ].
    split; [ exact Hdir | ]. split; [ exact Hd | exact Ht ].
Defined.

(** A sector write on the sample disk. *)
Lemma write_sector_command_witness :
  exists w',
    (setCommandReg 0xA0 100000 ;; settle [2; 0; 9]%nat ;; writeData write_bytes) idle
      = (Done tt, w') /\
    drive w' = sim_store (map fst write_bytes) (sim_setHeadLoaded true (drive idle)) /\
    test (statusReg (chip w')) BUSY = false /\
    test (statusReg (chip w')) RECORD_NOT_FOUND = false /\
    test (statusReg (chip w')) WRITE_PROTECTED = false /\
    test (statusReg (chip w')) LOST_DATA = false /\
    INTRQ (chip w') = true /\
    DRQ (chip w') = false /\
    transferring (chip w') = false.
Proof.
  eapply (write_sector_command idle 0xA0 100000 2 0 9 [] write_bytes
            (sim_store (map fst write_bytes) (sim_setHeadLoaded true (drive idle)))
            (mkSectorInfo 0 1 0 512)).
  - reflexivity.
  - vm_compute. reflexivity.
  - reflexivity.
  - reflexivity.
  - vm_compute. reflexivity.
  - vm_compute. lia.
  - vm_compute. reflexivity.
  - vm_compute. reflexivity.
  - reflexivity.
Defined.


(** A sector read on the disk whose headers name track 7. *)
Lemma read_sector_track_mismatch_witness :
  exists w',
    (setCommandReg 0x80 100000 ;; settle [0; 40; 3]%nat) idle_far = (Done tt, w') /\
    test (statusReg (chip w')) RECORD_NOT_FOUND = true /\
    test (statusReg (chip w')) BUSY = false /\
    INTRQ (chip w') = true /\
    transferring (chip w') = false /\
    forall t', getDataReg t' w' = (Done (dataReg (chip w')), w').
Proof.
  eapply (read_sector_track_mismatch idle_far 0x80 100000 0 40 3 []).
  - reflexivity.
  - vm_compute. reflexivity.
  - reflexivity.
  - vm_compute. reflexivity.
  - vm_compute. discriminate.
Defined.

(** A multi-sector read from sector 1 of a track of two sectors. *)
Lemma read_sectors_multi_witness :
  exists w',
    (setCommandReg 0x90 100000 ;; settle [0; 40; 3]%nat ;;
     readData (read_times ++ read_times)) idle_reel
      = (Done (reel_sector 1 ++ reel_sector 2), w') /\
    sectorReg (chip w') = 3 /\
    statusReg (chip w') = 0 /\
    transferring (chip w') = false.
Proof.
  destruct (read_sectors_multi idle_reel 0x90 100000 0 40 3 [] read_times read_times
              (drive idle_reel) (drive idle_reel) (drive idle_reel)
              (reel_sector 1 ++ skipn 512 (dataBuffer (chip idle_reel)))
              (reel_sector 2 ++ skipn 512 (dataBuffer (chip idle_reel)))
              (reel_sector 2 ++ skipn 512 (dataBuffer (chip idle_reel)))
              (mkSectorInfo 0 1 0 512) (mkSectorInfo 0 2 0 512))
    as (w' & Hrun & Hsec & Hst & Htr & _).
  - reflexivity.
  - vm_compute. reflexivity.
  - reflexivity.
  - vm_compute. reflexivity.
  - vm_compute. reflexivity.
  - reflexivity.
  - vm_compute. reflexivity.
  - vm_compute. reflexivity.
  - reflexivity.
  - vm_compute. reflexivity.
  - vm_compute. lia.
  - vm_compute. lia.
  - vm_compute. reflexivity.
  - vm_compute. reflexivity.
  - exists w'. split; [ rewrite Hrun; vm_compute; reflexivity | ].
    split; [ rewrite Hsec; vm_compute; reflexivity | ].
    split; [ exact Hst | exact Htr ].
Defined.

(** A read-sector command with no disk in the drive. *)
Lemma command_without_disk_witness :
  exists w',
    setCommandReg 0x80 100000 idle_empty = (Done tt, w') /\
    test (statusReg (chip w')) BUSY = false /\
    INTRQ (chip w') = true /\
    transferring (chip w') = false /\
    drive w' = drive idle_empty /\
    syncPoints w' = remove_tag SCHED_FSM (syncPoints idle_empty) /\
    exists st w'',
      getStatusReg 100005 w' = (Done st, w'') /\
      test st NOT_READY = true /\
      test st BUSY = false /\
      test st S_DRQ = false.
Proof.
  apply (command_without_disk idle_empty 0x80 100000 100005).
  - lia.
  - vm_compute. discriminate.
  - vm_compute. discriminate.
  - reflexivity.
Defined.

(** A Read Address command on the sample disk. *)
Lemma read_address_and_track_end_at_once_witness :
  exists w',
    (setCommandReg 0xC0 100000 ;; settle [0; 7]%nat) idle = (Done tt, w') /\
    test (statusReg (chip w')) BUSY = false /\
    INTRQ (chip w') = true /\
    DRQ (chip w') = false /\
    transferring (chip w') = false /\
    pending SCHED_FSM (syncPoints w') = false /\
    dataBuffer (chip w') = dataBuffer (chip idle) /\
    drive w' = setHeadLoaded true 100000 (drive idle).
Proof.
  apply (read_address_and_track_end_at_once idle 0xC0 100000 0 7 []).
  - left. reflexivity.
  - vm_compute. reflexivity.
  - reflexivity.
Defined.

(** A write-track command: two bytes before the index pulse, three
    during the revolution that follows it, one after the next pulse. *)
Lemma write_track_command_witness :
  exists w',
    (setCommandReg 0xF0 100000 ;; settle [0; 7]%nat ;;
     writeData [(0x11, 101100); (0x12, 101150)] ;;
     writeData [(0x4E, 101200); (0x4F, 101250); (0x50, 101399)] ;;
     setDataReg 0x99 101400) idle = (Done tt, w') /\
    drive w' = sim_setHeadLoaded true (drive idle) /\
    test (statusReg (chip w')) BUSY = false /\
    INTRQ (chip w') = true /\
    formatting (chip w') = false /\
    DRQ (chip w') = false /\
    dataCurrent (chip w') = 0 /\
    dataAvailable (chip w') = 0.
Proof.
  eapply (write_track_command idle 0xF0 100000 0 7 []
            [(0x11, 101100); (0x12, 101150)]
            [(0x4E, 101200); (0x4F, 101250); (0x50, 101399)]
            0x99 101400 (sim_setHeadLoaded true (drive idle)) (Some tt)).
  - reflexivity.
  - vm_compute. reflexivity.
  - reflexivity.
  - reflexivity.
  - repeat constructor.
  - repeat constructor.
  - vm_compute. discriminate.
  - vm_compute. discriminate.
  - vm_compute. discriminate.
  - vm_compute. lia.
  - vm_compute. reflexivity.
Defined.

(** A write-track command with the write-protect tab set. *)
Lemma write_track_protected_witness :
  exists w',
    (setCommandReg 0xF0 100000 ;; settle [0; 7]%nat) idle_locked = (Done tt, w') /\
    test (statusReg (chip w')) WRITE_PROTECTED = true /\
    test (statusReg (chip w')) BUSY = false /\
    INTRQ (chip w') = true /\
    DRQ (chip w') = false /\
    dataBuffer (chip w') = dataBuffer (chip idle_locked) /\
    drive w' = setHeadLoaded true 100000 (drive idle_locked).
Proof.
  apply (write_track_protected idle_locked 0xF0 100000 0 7 []).
  - reflexivity.
  - vm_compute. reflexivity.
  - reflexivity.
  - reflexivity.
Defined.

(** The status register after the Restore of the constructor, read on
    an index pulse: index, track 0 and nothing else. *)
Lemma status_after_type1_witness :
  exists w', getStatusReg 300000 idle = (Done 6, w') /\ statusReg (chip w') = 6.
Proof.
  destruct (status_after_type1 idle 300000) as (st & w' & Hrun & Hst & _).
  - left. reflexivity.
  - assert (H : fst (getStatusReg 300000 idle) = Done st) by (rewrite Hrun; reflexivity).
    vm_compute in H. injection H as <-.
    exists w'. split; [ exact Hrun | exact Hst ].
Defined.

(** The status register during a sector read, 100 ms into the
    transfer: BUSY and the data request. *)
Lemma status_after_type2_witness :
  exists st w',
    getStatusReg 200000 reading = (Done st, w') /\
    test st S_DRQ = true /\
    test st BUSY = true /\
    INTRQ (chip w') = false.
Proof.
  destruct (status_after_type2 reading 200000)
    as (drq & w1 & st & w' & Hd & Hrun & _ & _ & Hi & Hdrq & _ & Hb & _).
  - vm_compute. discriminate.
  - vm_compute. discriminate.
  - exists st, w'. split; [ exact Hrun | ].
    assert (H1 : fst (getDTRQ 200000 reading) = Done drq) by (rewrite Hd; reflexivity).
    assert (H2 : snd (getDTRQ 200000 reading) = w1) by (rewrite Hd; reflexivity).
    vm_compute in H1. injection H1 as <-.
    split; [ exact Hdrq | ]. split; [ | exact Hi ].
    rewrite Hb, <- H2. vm_compute. reflexivity.
Defined.

(** The data request after the first byte of a sector read: withdrawn
    10 ticks later, back after 15. *)
Lemma data_request_after_byte_witness :
  fst ((getDataReg 102000 ;; getDTRQ 102010) reading) = Done false /\
  fst ((getDataReg 102000 ;; getDTRQ 102015) reading) = Done true.
Proof.
  split.
  - rewrite (proj1 (data_request_after_byte reading 102000 102010 0
                      ltac:(reflexivity) ltac:(reflexivity)
                      ltac:(vm_compute; discriminate)
                      ltac:(vm_compute; split; [ discriminate | reflexivity ]))
               ltac:(reflexivity)).
    vm_compute. reflexivity.
  - rewrite (proj1 (data_request_after_byte reading 102000 102015 0
                      ltac:(reflexivity) ltac:(reflexivity)
                      ltac:(vm_compute; discriminate)
                      ltac:(vm_compute; split; [ discriminate | reflexivity ]))
               ltac:(reflexivity)).
    vm_compute. reflexivity.
Defined.


(** The latch set by a force interrupt with the immediate flag. *)
Lemma immediate_irq_latched_witness :
  immediateIRQ (chip seeking) = false /\
  immediateIRQ (chip (snd (perform (OpSetCommandReg 0xD8 210000) seeking))) = true /\
  ((exists t, OpSetCommandReg 0xD8 210000 = OpReset t) \/
   (exists v t, OpSetCommandReg 0xD8 210000 = OpSetCommandReg v t /\ Z.land v 0xF0 = 0xD0)).
Proof.
  split; [ reflexivity | ]. split; [ reflexivity | ].
  apply (immediate_irq_latched (OpSetCommandReg 0xD8 210000) seeking
           (snd (perform (OpSetCommandReg 0xD8 210000) seeking))).
  - vm_compute. reflexivity.
  - vm_compute. discriminate.
Defined.

(** The callback pending while the Seek is stepping. *)
Lemma callback_state_handled_witness :
  (fsm_count (syncPoints seeking) <= 1)%nat /\
  (pending SCHED_FSM (syncPoints seeking) = true ->
   handled (fsmState (chip seeking)) = true) /\
  forall op, fst (perform op seeking) <> Thrown UnreachableReached.
Proof. exact (callback_state_handled seeking reachable_seeking). Defined.

(** The cursor of a sector read before its first byte. *)
Lemma transfer_cursor_witness :
  dataCurrent (chip reading) + dataAvailable (chip reading) = 512 /\
  0 <= dataCurrent (chip reading) < 512 /\
  Z.land (commandReg (chip reading)) 0xC0 = 0x80.
Proof. apply (transfer_cursor reading reachable_reading). reflexivity. Defined.


(** A second force interrupt on the index pulse while the first is
    armed. *)
Lemma clash_only_force_interrupt_witness :
  exists v t,
    OpSetCommandReg 0xD4 300010 = OpSetCommandReg v t /\
    Z.land v 0xF0 = 0xD0 /\ test (Z.land v 0x0F) IDX_IRQ = true.
Proof.
  apply (clash_only_force_interrupt (OpSetCommandReg 0xD4 300010) armed).
  vm_compute. reflexivity.
Defined.
